(** * Terrain synthesis of clap (src/core/terrain.c): model and properties

    The development embeds the cellular automaton, the BSP partitioner, the
    fractal height synthesizer, the heightfield builder and the triangulated
    height query of [src/core/terrain.c], together with [cos_interp] and
    [barrycentric] of [src/core/model.h], and proves properties of them.

    Part I is the model, Part II the properties.

    Conventions.
    - C [int]/[long] values are integers of [Z]; conversions that truncate
      ([unsigned char] stores, [srand48]'s 32-bit seed, the wrap of a product
      to [int], [unsigned] index expressions) are written out.  Index
      arithmetic inside an allocated grid is left unwrapped.
    - [unsigned char *] grids and [float *] maps are lists indexed with
      stdpp's lookup and insert.
    - Floating-point arithmetic is an interface ([FloatOps]); results that do
      not depend on rounding are proved for every implementation of it, and
      the few order facts that correctly rounded arithmetic provides are
      collected in [FloatLaws].
    - The libc generators are explicit state: the [drand48] family as POSIX
      defines it, [rand] as an arbitrary output stream. *)

From Stdlib Require Import ZArith QArith Qround Qabs Lia Bool.
From Stdlib Require Qcanon.
From stdpp Require Import base tactics option list.

Local Open Scope Z_scope.

(* ================================================================== *)
(** * Part I: the model *)
(* ================================================================== *)

(** ** C integer helpers *)

(** Conversion to [unsigned char]. *)
Definition to_uchar (v : Z) : Z := v mod 256.

(** Wrap of a value to the 32-bit two's-complement [int] range. *)
Definition to_int (v : Z) : Z := (v + 2 ^ 31) mod 2 ^ 32 - 2 ^ 31.

(** Conversion to [unsigned int]. *)
Definition to_uint (v : Z) : Z := v mod 2 ^ 32.

(** A C truth value as an [int]. *)
Definition cbool (b : bool) : Z := if b then 1 else 0.

(** [for (k = 0; k < n; k++) body] over a state. *)
Definition for_range {S : Type} (n : Z) (body : Z -> S -> S) (s : S) : S :=
  foldl (fun s k => body k s) s (seqZ 0 n).

(** Element [k] of a byte array ([0] stands for an element that is not
    there; the automaton never reads one). *)
Definition arr_load (arr : list Z) (k : Z) : Z :=
  if k <? 0 then 0 else default 0 (arr !! Z.to_nat k).

(** [arr[k] = v]; a store outside the list leaves it unchanged. *)
Definition arr_store (arr : list Z) (k : Z) (v : Z) : list Z :=
  if k <? 0 then arr else <[Z.to_nat k := v]> arr.

(** ** Cellular automaton engine *)

Definition xyarray_get (arr : list Z) (width x y : Z) : Z :=
  if (x <? 0) || (y <? 0) || (x >=? width) || (y >=? width) then 0
  else
    let x := if x <? 0 then width - 1
             else if x >=? width then 0 else x in
    arr_load arr (y * width + x).

Definition xyarray_set (arr : list Z) (width x y v : Z) : list Z :=
  let x := if x <? 0 then width - 1
           else if x >=? width then 0 else x in
  arr_store arr (y * width + x) (to_uchar v).

(** [!!v] of C. *)
Definition nonzero (v : Z) : Z := cbool (negb (v =? 0)).

Definition neigh_vn1 (arr : list Z) (side x y : Z) : Z :=
  let n := 0 in
  let n := n + nonzero (xyarray_get arr side (x + 1) y) in
  let n := n + nonzero (xyarray_get arr side (x - 1) y) in
  let n := n + nonzero (xyarray_get arr side x (y + 1)) in
  let n := n + nonzero (xyarray_get arr side x (y - 1)) in
  n.

Definition neigh_m1 (arr : list Z) (side x y : Z) : Z :=
  let n := neigh_vn1 arr side x y in
  let n := n + nonzero (xyarray_get arr side (x + 1) (y + 1)) in
  let n := n + nonzero (xyarray_get arr side (x - 1) (y + 1)) in
  let n := n + nonzero (xyarray_get arr side (x + 1) (y - 1)) in
  let n := n + nonzero (xyarray_get arr side (x - 1) (y - 1)) in
  n.

Definition neigh_vnv (arr : list Z) (side x y : Z) : Z :=
  let n := 0 in
  let v := xyarray_get arr side x y in
  let n := n + cbool (xyarray_get arr side (x + 1) y >? v) in
  let n := n + cbool (xyarray_get arr side (x - 1) y >? v) in
  let n := n + cbool (xyarray_get arr side x (y + 1) >? v) in
  let n := n + cbool (xyarray_get arr side x (y - 1) >? v) in
  n.

Definition neigh_mv (arr : list Z) (side x y : Z) : Z :=
  let n := neigh_vnv arr side x y in
  let v := xyarray_get arr side x y in
  let n := n + cbool (xyarray_get arr side (x + 1) (y + 1) >? v) in
  let n := n + cbool (xyarray_get arr side (x - 1) (y + 1) >? v) in
  let n := n + cbool (xyarray_get arr side (x + 1) (y - 1) >? v) in
  let n := n + cbool (xyarray_get arr side (x - 1) (y - 1) >? v) in
  n.

(** [struct cell_automaton]; [name] is kept by the instantiator table. *)
Record cell_automaton := {
  born : Z;
  surv : Z;
  nr_states : Z;
  decay : bool;
  neigh : list Z -> Z -> Z -> Z -> Z;
}.

(** [mask & (1 << n)] as a C condition. *)
Definition mask_has (mask n : Z) : bool :=
  negb (Z.land mask (Z.shiftl 1 n) =? 0).

(** The body of the two loops of [cell_aut_step] for the cell [(i, j)]:
    it reads and writes the same array. *)
Definition cell_aut_cell (ca : cell_automaton) (side : Z)
    (arr : list Z) (i j : Z) : list Z :=
  let n := neigh ca arr side i j in
  let v := xyarray_get arr side i j in
  if (v =? 0) && mask_has (born ca) n then
    xyarray_set arr side i j (nr_states ca)
  else if negb (v =? 0) && mask_has (surv ca) n then
    arr
  else if negb (v =? 0) && decay ca then
    xyarray_set arr side i j (v - 1)
  else arr.

Definition cell_aut_step (ca : cell_automaton) (arr : list Z) (side : Z)
    : list Z :=
  for_range side (fun i arr =>
    for_range side (fun j arr => cell_aut_cell ca side arr i j) arr) arr.

(** The transition rule as the specification words it: the next value of
    the cell [(x, y)] computed from a source grid [g]. *)
Definition cell_next (ca : cell_automaton) (side : Z) (g : list Z)
    (x y : Z) : Z :=
  let n := neigh ca g side x y in
  let v := xyarray_get g side x y in
  if (v =? 0) && mask_has (born ca) n then to_uchar (nr_states ca)
  else if negb (v =? 0) && mask_has (surv ca) n then v
  else if negb (v =? 0) && decay ca then to_uchar (v - 1)
  else v.

(** The step as the specification words it: every cell is computed from
    the grid of the previous iteration ([old]) and written to a second
    grid. *)
Definition sync_step (ca : cell_automaton) (old : list Z) (side : Z)
    : list Z :=
  for_range side (fun i out =>
    for_range side (fun j out =>
      xyarray_set out side i j (cell_next ca side old i j)) out) old.

(** The grid a cell of the in-place step sees: cells whose turn came
    before [(i, j)] (outer loop on the first coordinate) already hold the
    value of [new], the others still that of [old]. *)
Definition scanned_before (i j a b : Z) : bool :=
  (a <? i) || ((a =? i) && (b <? j)).

Definition mixed_grid (old new : list Z) (side i j : Z) : list Z :=
  imap (fun k v =>
          let a := Z.of_nat k mod side in
          let b := Z.of_nat k / side in
          if scanned_before i j a b then default 0 (new !! k) else v) old.

Definition ca_test : cell_automaton := {|
  born := Z.shiftl 3 2;
  surv := Z.shiftl 3 7;
  nr_states := 4;
  decay := true;
  neigh := neigh_m1;
|}.

(** The four neighbour-counting strategies of the source. *)
Definition neigh_strategies : list (list Z -> Z -> Z -> Z -> Z) :=
  [neigh_vn1; neigh_m1; neigh_vnv; neigh_mv].


(** The body of the loops of [cell_aut_step] run for one cell. *)
Definition scan_step (ca : cell_automaton) (side : Z) (arr : list Z)
    (c : Z * Z) : list Z :=
  cell_aut_cell ca side arr c.1 c.2.

(** The cells of a grid in the order in which the two loops of
    [cell_aut_step] visit them. *)
Definition scan_cells (side : Z) : list (Z * Z) :=
  i ← seqZ 0 side; (fun j => (i, j)) <$> seqZ 0 side.

(** ** Floating point *)

(** The operations of C floating point that the terrain code uses.  The
    carrier holds [double] values, of which the [float] values are those
    fixed by [Fsingle]; the arithmetic is that of [double], and an
    operation of C's [float] arithmetic is the [double] operation followed
    by [Fsingle].  [F_of_Q q] is the [double] nearest to [q] (literals,
    conversions from integers, the quotient [drand48] returns). *)
Class FloatOps (F : Type) := {
  F_of_Q : Q -> F;
  Fsingle : F -> F;
  Fadd : F -> F -> F;
  Fsub : F -> F -> F;
  Fmul : F -> F -> F;
  Fdiv : F -> F -> F;
  Flt : F -> F -> bool;
  Fle : F -> F -> bool;
  Ffloor : F -> F;
  Fabs : F -> F;
  Ffmod : F -> F -> F;
  F2int : F -> Z;
  Fcosf : F -> F;
  Fpow : F -> F -> F;
  Fpowf : F -> F -> F;
}.

Declare Scope double_scope.
Delimit Scope double_scope with D.
Declare Scope single_scope.
Delimit Scope single_scope with S.

Section float_model.
Context {F : Type} `{FloatOps F}.

(** Conversion of an [int] to [double] and to [float]. *)
Definition F_of_Z (k : Z) : F := F_of_Q (inject_Z k).
Definition S_of_Z (k : Z) : F := Fsingle (F_of_Z k).

(** [float] arithmetic. *)
Definition Sadd (a b : F) : F := Fsingle (Fadd a b).
Definition Ssub (a b : F) : F := Fsingle (Fsub a b).
Definition Smul (a b : F) : F := Fsingle (Fmul a b).
Definition Sdiv (a b : F) : F := Fsingle (Fdiv a b).

(** [M_PI] of math.h. *)
Definition M_PI : F :=
  F_of_Q (314159265358979323846 # 100000000000000000000).
End float_model.

Infix "+" := Fadd : double_scope.
Infix "-" := Fsub : double_scope.
Infix "*" := Fmul : double_scope.
Infix "/" := Fdiv : double_scope.
Infix "<?" := Flt : double_scope.
Infix "<=?" := Fle : double_scope.
Notation "a >? b" := (Flt b a) : double_scope.
Notation "a >=? b" := (Fle b a) : double_scope.

Infix "+" := Sadd : single_scope.
Infix "-" := Ssub : single_scope.
Infix "*" := Smul : single_scope.
Infix "/" := Sdiv : single_scope.
Infix "<?" := Flt : single_scope.
Infix "<=?" := Fle : single_scope.
Notation "a >? b" := (Flt b a) : single_scope.
Notation "a >=? b" := (Fle b a) : single_scope.

(** Facts of correctly rounded binary floating point that the proofs of
    the order properties use: conversions and rounding are monotone, small
    integers are exact, and the conversion to [int] of a value strictly
    between two integers lies between them. *)
Class FloatLaws (F : Type) `{FloatOps F} : Prop := {
  F2int_of_Z : forall k : Z,
    - 2 ^ 31 <= k < 2 ^ 31 -> F2int (F_of_Z k) = k;
  F2int_between : forall (a : F) (lo hi : Z),
    - 2 ^ 31 <= lo -> hi < 2 ^ 31 ->
    Flt (F_of_Z lo) a = true -> Flt a (F_of_Z hi) = true ->
    lo <= F2int a <= hi;
  Fle_of_Q : forall p q : Q,
    (p <= q)%Q -> Fle (F_of_Q p) (F_of_Q q) = true;
  Fle_mul_2 : forall a b : F,
    Fle a b = true -> Fle (a * F_of_Z 2)%D (b * F_of_Z 2)%D = true;
  Fle_sub_1 : forall a b : F,
    Fle a b = true -> Fle (a - F_of_Z 1)%D (b - F_of_Z 1)%D = true;
  Fle_single : forall a b : F,
    Fle a b = true -> Fle (Fsingle a) (Fsingle b) = true;
  Fsingle_of_Z : forall k : Z,
    - 2 ^ 24 <= k <= 2 ^ 24 -> Fsingle (F_of_Z k) = F_of_Z k;
  Fmul_of_Z : forall j k : Z,
    0 <= j <= 2 ^ 24 -> 0 <= k <= 2 ^ 24 -> j * k <= 2 ^ 24 ->
    (F_of_Z j * F_of_Z k)%D = F_of_Z (j * k);
  Fsub_of_Z : forall j k : Z,
    0 <= j <= 2 ^ 24 -> 0 <= k <= 2 ^ 24 ->
    (F_of_Z j - F_of_Z k)%D = F_of_Z (j - k);
}.

(** ** The libc generators *)

(** The state of the process-wide generators: [X48] is the 48-bit state of
    the [drand48] family; [rand] is any generator, given by the values it
    is going to return ([rand_tape]) and the number already returned. *)
Record libc := {
  X48 : Z;
  rand_tape : nat -> Z;
  rand_pos : nat;
}.

(** How a run ends: with a result, in a division by zero (undefined in C,
    a trap on the usual targets), in an access outside an array (undefined
    in C), or with the recursion budget of the model used up. *)
Inductive outcome (A : Type) : Type :=
  | Done (a : A)
  | DivByZero
  | OutOfBounds
  | NoFuel.
Arguments Done {A} a.
Arguments DivByZero {A}.
Arguments OutOfBounds {A}.
Arguments NoFuel {A}.

(** Code that uses the generators. *)
Definition M (A : Type) : Type := libc -> outcome (A * libc).

Definition ret {A : Type} (a : A) : M A := fun st => Done (a, st).

Definition bind {A B : Type} (m : M A) (k : A -> M B) : M B :=
  fun st =>
    match m st with
    | Done (a, st') => k a st'
    | DivByZero => DivByZero
    | OutOfBounds => OutOfBounds
    | NoFuel => NoFuel
    end.

Definition trap {A : Type} : M A := fun _ => DivByZero.
Definition out_of_bounds {A : Type} : M A := fun _ => OutOfBounds.
Definition no_fuel {A : Type} : M A := fun _ => NoFuel.

Notation "x <- m ;; k" := (bind m (fun x => k))
  (at level 100, m at next level, right associativity).

(** The linear congruential step of the [drand48] family (POSIX). *)
Definition rand48_next (X : Z) : Z := (25214903917 * X + 11) mod 2 ^ 48.

Definition srand48 (seedval : Z) : M unit :=
  fun st =>
    Done (tt, {| X48 := (seedval mod 2 ^ 32) * 2 ^ 16 + 13070;
                 rand_tape := rand_tape st; rand_pos := rand_pos st |}).

(** [lrand48] returns the high 31 bits of the new state. *)
Definition lrand48 : M Z :=
  fun st =>
    let X := rand48_next (X48 st) in
    Done (X / 2 ^ 17, {| X48 := X; rand_tape := rand_tape st;
                         rand_pos := rand_pos st |}).

(** [drand48] returns the new state scaled to [0, 1); the result is the
    numerator over [2 ^ 48]. *)
Definition drand48_bits : M Z :=
  fun st =>
    let X := rand48_next (X48 st) in
    Done (X, {| X48 := X; rand_tape := rand_tape st;
                rand_pos := rand_pos st |}).

Definition rand : M Z :=
  fun st =>
    Done (rand_tape st (rand_pos st),
          {| X48 := X48 st; rand_tape := rand_tape st;
             rand_pos := S (rand_pos st) |}).

(** [for (k = 0; k < n; k++) body] in code that uses the generators. *)
Fixpoint for_each {A S : Type} (l : list A) (body : A -> S -> M S) (s : S)
    : M S :=
  match l with
  | [] => ret s
  | k :: l => s' <- body k s ;; for_each l body s'
  end.

Definition for_rangeM {S : Type} (n : Z) (body : Z -> S -> M S) (s : S)
    : M S :=
  for_each (seqZ 0 n) body s.

Section terrain_model.
Context {F : Type} `{FloatOps F}.

Definition drand48 : M F :=
  bits <- drand48_bits ;; ret (F_of_Q (bits # 281474976710656)).

(** Integer division of C; the divisor 0 is a trap. *)
Definition cdiv (a b : Z) : M Z :=
  if b =? 0 then trap else ret (Z.quot a b).

(** Modelled from the spec: [min], [max] and [clampd] are macros and an
    inline function of util.h, which is not among the sources; they are
    the usual selections ("a seeded uniform draw clamped to [0.2, 0.8]"). *)
Definition Fmin (a b : F) : F := if (a <? b)%D then a else b.
Definition Fmax (a b : F) : F := if (a >? b)%D then a else b.
Definition clampd (x lo hi : F) : F :=
  if (x <? lo)%D then lo else if (x >? hi)%D then hi else x.

(** ** Spatial amplitude partitioner (BSP) *)

(** [struct bsp_part].  The children [a] and [b] are set together, so a
    node has both or none.  The [root] pointer of the C structure always
    designates the root of the tree; the functions that follow it take
    the root as an argument ([top]). *)
Inductive bsp_part : Type :=
  | bsp_leaf (x y w h : Z) (amp : F) (oct : Z)
  | bsp_node (x y w h : Z) (amp : F) (oct : Z) (a b : bsp_part).

Definition node_x (n : bsp_part) : Z :=
  match n with bsp_leaf x _ _ _ _ _ | bsp_node x _ _ _ _ _ _ _ => x end.
Definition node_y (n : bsp_part) : Z :=
  match n with bsp_leaf _ y _ _ _ _ | bsp_node _ y _ _ _ _ _ _ => y end.
Definition node_w (n : bsp_part) : Z :=
  match n with bsp_leaf _ _ w _ _ _ | bsp_node _ _ w _ _ _ _ _ => w end.
Definition node_h (n : bsp_part) : Z :=
  match n with bsp_leaf _ _ _ h _ _ | bsp_node _ _ _ h _ _ _ _ => h end.
Definition node_amp (n : bsp_part) : F :=
  match n with
  | bsp_leaf _ _ _ _ amp _ | bsp_node _ _ _ _ amp _ _ _ => amp
  end.
Definition node_oct (n : bsp_part) : Z :=
  match n with
  | bsp_leaf _ _ _ _ _ oct | bsp_node _ _ _ _ _ oct _ _ => oct
  end.

(** A node as [calloc] and the assignments of its rectangle leave it. *)
Definition bsp_fresh (x y w h : Z) : bsp_part :=
  bsp_leaf x y w h (F_of_Z 0) 0.

Definition bsp_area (node : bsp_part) : Z :=
  to_int (node_w node * node_h node).

Definition BSP_MIN_WIDTH : Z := 1.

(** [bsp_needs_split(node, parent, level)]; [top] is [node->root]. *)
Definition bsp_needs_split (top node parent : bsp_part) (level : Z)
    : M bool :=
  if (node_w node =? BSP_MIN_WIDTH * 2) || (node_h node =? BSP_MIN_WIDTH * 2)
  then ret false
  else if level >? 16 then ret false
  else
    q1 <- cdiv (node_w node) (node_h node) ;;
    if q1 >? 4 then ret true
    else
      q2 <- cdiv (node_h node) (node_w node) ;;
      if q2 >? 4 then ret true
      else if bsp_area node >? Z.quot (bsp_area top) 4 then ret true
      else if level <? 3 then ret true
      else ret false.

(** The cut of a side of length [len] at the fraction [frac]:
    [min(max(frac * len, BSP_MIN_WIDTH), len - BSP_MIN_WIDTH)] stored in
    an [int]. *)
Definition bsp_cut (frac : F) (len : Z) : Z :=
  F2int (Fmin (Fmax (frac * F_of_Z len)%D (F_of_Z BSP_MIN_WIDTH))
              (F_of_Z (len - BSP_MIN_WIDTH))).

(** [bsp_part_one(root, level, cb, data)].  [fuel] bounds the depth of
    the recursion in the model; [top] is the root of the tree. *)
Fixpoint bsp_part_one (fuel : nat) (cb : bsp_part -> Z -> M bsp_part)
    (top root : bsp_part) (level : Z) : M bsp_part :=
  match fuel with
  | O => no_fuel
  | S fuel =>
    let vertical := negb (Z.land level 1 =? 0) in
    frac <- drand48 ;;
    let frac := clampd frac (F_of_Q (2 # 10)) (F_of_Q (8 # 10)) in
    q1 <- cdiv (node_w root) (node_h root) ;;
    vertical <-
      (if q1 >? 4 then ret true
       else
         q2 <- cdiv (node_h root) (node_w root) ;;
         if q2 >? 4 then ret false else ret vertical) ;;
    let x := node_x root in
    let y := node_y root in
    let w := node_w root in
    let h := node_h root in
    let a :=
      if vertical then bsp_fresh x y (bsp_cut frac w) h
      else bsp_fresh x y w (bsp_cut frac h) in
    let b :=
      if vertical then bsp_fresh (x + node_w a) y (w - node_w a) h
      else bsp_fresh x (y + node_h a) w (h - node_h a) in
    split_a <- bsp_needs_split top a root level ;;
    a <- (if split_a : bool then bsp_part_one fuel cb top a (level + 1)
          else cb a level) ;;
    split_b <- bsp_needs_split top b root level ;;
    b <- (if split_b : bool then bsp_part_one fuel cb top b (level + 1)
          else cb b level) ;;
    ret (bsp_node x y w h (node_amp root) (node_oct root) a b)
  end.

Definition bsp_process (fuel : nat) (seed depth x y w h : Z)
    (cb : bsp_part -> Z -> M bsp_part) : M bsp_part :=
  _ <- srand48 seed ;;
  let root := bsp_fresh x y w h in
  bsp_part_one fuel cb root root 0.

Definition bsp_within_rect (bp : bsp_part) (x y : Z) : bool :=
  (x >=? node_x bp) && (x <? node_x bp + node_w bp)
  && (y >=? node_y bp) && (y <? node_y bp + node_h bp).

Definition bsp_within_ellipse (bp : bsp_part) (x y : Z) : bool :=
  let xax := S_of_Z (Z.quot (node_w bp) 2) in
  let yax := S_of_Z (Z.quot (node_h bp) 2) in
  let dx := S_of_Z x in
  let dy := S_of_Z y in
  if negb (bsp_within_rect bp x y) then false
  else
    let dx := (dx - S_of_Z (node_x bp + Z.quot (node_w bp) 2))%S in
    let dy := (dy - S_of_Z (node_y bp + Z.quot (node_h bp) 2))%S in
    if (Fpowf dx (S_of_Z 2) / Fpowf xax (S_of_Z 2)
        + Fpowf dy (S_of_Z 2) / Fpowf yax (S_of_Z 2) <=? S_of_Z 1)%S
    then true else false.

(** [bp->a && bp->a->a]. *)
Definition has_grandchild (bp : bsp_part) : bool :=
  match bp with
  | bsp_node _ _ _ _ _ _ (bsp_node _ _ _ _ _ _ _ _) _ => true
  | _ => false
  end.

Definition bsp_within (bp : bsp_part) (x y : Z) : bool :=
  if has_grandchild bp then bsp_within_rect bp x y
  else bsp_within_ellipse bp x y.

(** [bsp_find]: the loop descends into the larger child if the point is
    within it ([bsp_larger_smaller] swaps the two when [a] has the
    smaller area) and into the smaller child otherwise. *)
Fixpoint bsp_find (it : bsp_part) (x y : Z) : bsp_part :=
  match it with
  | bsp_leaf _ _ _ _ _ _ => it
  | bsp_node _ _ _ _ _ _ a b =>
    if bsp_area a <? bsp_area b
    then (if bsp_within b x y then bsp_find b x y else bsp_find a x y)
    else (if bsp_within a x y then bsp_find a x y else bsp_find b x y)
  end.

Definition bsp_xfrac (node : bsp_part) (x : Z) : F :=
  (S_of_Z (x - node_x node - Z.quot (node_w node) 2)
   / (S_of_Z (node_w node) / S_of_Z 2))%S.

Definition bsp_yfrac (node : bsp_part) (y : Z) : F :=
  (S_of_Z (y - node_y node - Z.quot (node_h node) 2)
   / (S_of_Z (node_h node) / S_of_Z 2))%S.

(** [bsp_xneigh(node, x, y)]; [top] is [node->root]. *)
Definition bsp_xneigh (top node : bsp_part) (x y : Z) : bsp_part :=
  let dir := if (bsp_xfrac node x >=? S_of_Z 0)%S then 1 else -1 in
  if dir >? 0 then
    if x >=? node_x top + node_w top then node
    else bsp_find top (node_x node + node_w node) y
  else
    if x <=? node_x top then node
    else bsp_find top (node_x node - 1) y.

Definition bsp_yneigh (top node : bsp_part) (x y : Z) : bsp_part :=
  let dir := if (bsp_yfrac node y >=? S_of_Z 0)%S then 1 else -1 in
  if dir >? 0 then
    if y >=? node_y top + node_h top then node
    else bsp_find top x (node_y node + node_h node)
  else
    if y <=? node_y top then node
    else bsp_find top x (node_y node - 1).

Definition AMPLITUDE : Z := 8.

(** [terrain_bsp_cb]: the amplitude and the octave count of a leaf. *)
Definition terrain_bsp_cb (node : bsp_part) (level : Z) : M bsp_part :=
  d <- drand48 ;;
  let amp :=
    Fsingle (Fmin (d * F_of_Z AMPLITUDE)%D
                  (S_of_Z (16 - level) * S_of_Z 3)%S) in
  r <- rand ;;
  let oct := Z.land r 3 + 3 in
  ret (bsp_leaf (node_x node) (node_y node) (node_w node) (node_h node)
                amp oct).
End terrain_model.

Arguments bsp_part F : clear implicits.

(** ** Exact arithmetic as an implementation of the interface *)

(** The interface implemented with exact rationals: no operation rounds,
    [Fsingle] is the identity, and a value the rationals cannot give
    exactly is [None], which every operation propagates and every
    comparison rejects (as a NaN would).  Division by zero is [None].
    [cosf] is known at 0 and, rounded to [float], at the literal [M_PI];
    [pow] and [powf] are known for integer exponents.  It serves to
    evaluate the model on concrete inputs. *)
Module QX.
Definition lift2 (f : Q -> Q -> Q) (a b : option Q) : option Q :=
  match a, b with
  | Some x, Some y => Some (Qred (f x y))
  | _, _ => None
  end.

Definition lift1 (f : Q -> Q) (a : option Q) : option Q :=
  match a with
  | Some x => Some (Qred (f x))
  | None => None
  end.

Definition div (a b : option Q) : option Q :=
  match a, b with
  | Some x, Some y =>
      if Qeq_bool y 0 then None else Some (Qred (x / y))
  | _, _ => None
  end.

Definition Qlt_bool (x y : Q) : bool :=
  (Qnum x * Zpos (Qden y) <? Qnum y * Zpos (Qden x))%Z.

Definition lt (a b : option Q) : bool :=
  match a, b with
  | Some x, Some y => Qlt_bool x y
  | _, _ => false
  end.

Definition le (a b : option Q) : bool :=
  match a, b with
  | Some x, Some y => Qle_bool x y
  | _, _ => false
  end.

(** Truncation toward zero. *)
Definition Qtrunc (x : Q) : Z := Z.quot (Qnum x) (Zpos (Qden x)).

Definition to_int (a : option Q) : Z :=
  match a with
  | Some x => Qtrunc x
  | None => 0
  end.

Definition fmod (a b : option Q) : option Q :=
  match a, b with
  | Some x, Some y =>
      if Qeq_bool y 0 then None
      else Some (Qred (x - y * inject_Z (Qtrunc (x / y))))
  | _, _ => None
  end.

Definition pi_literal : Q :=
  314159265358979323846 # 100000000000000000000.

Definition cosf (a : option Q) : option Q :=
  match a with
  | Some x =>
      if Qeq_bool x 0 then Some 1%Q
      else if Qeq_bool (Qabs x) pi_literal then Some (-1)%Q
      else None
  | None => None
  end.

Definition is_integer (x : Q) : bool := Qeq_bool x (inject_Z (Qfloor x)).

Definition pow (a b : option Q) : option Q :=
  match a, b with
  | Some x, Some y =>
      if is_integer y && (negb (Qeq_bool x 0) || (0 <=? Qfloor y)%Z)
      then Some (Qred (Qpower x (Qfloor y)))
      else None
  | _, _ => None
  end.

#[global] Instance ops : FloatOps (option Q) := {|
  F_of_Q q := Some (Qred q);
  Fsingle a := a;
  Fadd := lift2 Qplus;
  Fsub := lift2 Qminus;
  Fmul := lift2 Qmult;
  Fdiv := div;
  Flt := lt;
  Fle := le;
  Ffloor := lift1 (fun x => inject_Z (Qfloor x));
  Fabs := lift1 Qabs;
  Ffmod := fmod;
  F2int := to_int;
  Fcosf := cosf;
  Fpow := pow;
  Fpowf := pow;
|}.

(** A generator state: the [drand48] state [X] and a [rand] that
    returns the constant [r]. *)
Definition libc_at (X r : Z) : libc :=
  {| X48 := X; rand_tape := fun _ => r; rand_pos := 0 |}.
End QX.

Section bsp_invariant.
Context {F : Type} `{FloatOps F}.

(** Two nodes with the same rectangle. *)
Definition same_rect (n m : bsp_part F) : Prop :=
  node_x n = node_x m /\ node_y n = node_y m
  /\ node_w n = node_w m /\ node_h n = node_h m.

(** The tiling invariant of a subtree: at every internal node the areas
    of the children add up to the area of the node, and a point is within
    the node exactly if it is within one child and not the other. *)
Fixpoint bsp_tiled (t : bsp_part F) : Prop :=
  match t with
  | bsp_leaf _ _ _ _ _ _ => True
  | bsp_node _ _ _ _ _ _ a b =>
      bsp_area a + bsp_area b = bsp_area t
      /\ (forall px py : Z,
            bsp_within_rect t px py
            = xorb (bsp_within_rect a px py) (bsp_within_rect b px py))
      /\ bsp_tiled a /\ bsp_tiled b
  end.
End bsp_invariant.

Section synthesis.
Context {F : Type} `{FloatOps F}.

(** [struct terrain] without the reference count and the entity.  A
    [NULL] array is [None]. *)
Record terrain : Type := {
  t_seed : Z;
  t_map : option (list F);
  t_map0 : option (list F);
  t_x : F;
  t_y : F;
  t_z : F;
  t_side : Z;
  t_nr_vert : Z;
}.

(** Element [k] of a [float] array, with 0 for an element that is not
    there (the synthesizer is only run while [map0] is allocated, and the
    wrap of [get_mapped_rand_height] keeps its index inside the array). *)
Definition farr_load (arr : option (list F)) (k : Z) : F :=
  match arr with
  | Some l => if k <? 0 then F_of_Z 0
              else default (F_of_Z 0) (l !! Z.to_nat k)
  | None => F_of_Z 0
  end.

(** [cos_interp] of core/model.h. *)
Definition cos_interp (a b blend : F) : F :=
  let theta := Fsingle (blend * M_PI)%D in
  let f := ((S_of_Z 1 - Fcosf theta) / S_of_Z 2)%S in
  (a * (S_of_Z 1 - f) + b * f)%S.

(** [barrycentric] of core/model.h; a [vec3] is a triple, a [vec2] a
    pair. *)
Definition barrycentric (p1 p2 p3 : F * F * F) (pos : F * F) : F :=
  let '(p1x, p1y, p1z) := p1 in
  let '(p2x, p2y, p2z) := p2 in
  let '(p3x, p3y, p3z) := p3 in
  let '(pos0, pos1) := pos in
  let det := ((p2z - p3z) * (p1x - p3x) + (p3x - p2x) * (p1z - p3z))%S in
  let l1 := (((p2z - p3z) * (pos0 - p3x) + (p3x - p2x) * (pos1 - p3z))
             / det)%S in
  let l2 := (((p3z - p1z) * (pos0 - p3x) + (p1x - p3x) * (pos1 - p3z))
             / det)%S in
  let l3 := (S_of_Z 1 - l1 - l2)%S in
  (l1 * p1y + l2 * p2y + l3 * p3y)%S.

(** ** Fractal height synthesizer *)

Definition get_rand_height (t : terrain) (x z : Z) : M F :=
  _ <- srand48 (Z.lxor (t_seed t) (to_int (x + z * 43210))) ;;
  d <- drand48 ;;
  ret (Fsingle (d * F_of_Z 2 - F_of_Z 1)%D).

Definition get_mapped_rand_height (t : terrain) (x z : Z) : F :=
  let x := if x <? 0 then t_nr_vert t - 1
           else if x >=? t_nr_vert t then 0 else x in
  let z := if z <? 0 then t_nr_vert t - 1
           else if z >=? t_nr_vert t then 0 else z in
  farr_load (t_map0 t) (x * t_nr_vert t + z).

Definition get_avg_height (t : terrain) (x z : Z) : F :=
  let corners := get_mapped_rand_height t (x - 1) (z - 1) in
  let corners := (corners + get_mapped_rand_height t (x + 1) (z - 1))%S in
  let corners := (corners + get_mapped_rand_height t (x - 1) (z + 1))%S in
  let corners := (corners + get_mapped_rand_height t (x + 1) (z + 1))%S in
  let corners := (corners / S_of_Z 16)%S in
  let sides := get_mapped_rand_height t (x - 1) z in
  let sides := (sides + get_mapped_rand_height t (x + 1) z)%S in
  let sides := (sides + get_mapped_rand_height t x (z - 1))%S in
  let sides := (sides + get_mapped_rand_height t x (z + 1))%S in
  let sides := (sides / S_of_Z 8)%S in
  let self := (get_mapped_rand_height t x z / S_of_Z 4)%S in
  (corners + sides + self)%S.

Definition get_interp_height (t : terrain) (x z : F) : F :=
  let intx := F2int (Ffloor x) in
  let intz := F2int (Ffloor z) in
  let fracx := (x - S_of_Z intx)%S in
  let fracz := (z - S_of_Z intz)%S in
  let v1 := get_avg_height t intx intz in
  let v2 := get_avg_height t (intx + 1) intz in
  let v3 := get_avg_height t intx (intz + 1) in
  let v4 := get_avg_height t (intx + 1) (intz + 1) in
  let i1 := cos_interp v1 v2 fracx in
  let i2 := cos_interp v3 v4 fracx in
  cos_interp i1 i2 fracz.

Definition OCTAVES : Z := 4.
Definition ROUGHNESS : F := F_of_Q (1 # 2).

Definition get_height (t : terrain) (x z : Z) (_amp : F) (_oct : Z) : F :=
  let d := Fsingle (Fpow (F_of_Z 2) (F_of_Z (_oct - 1))) in
  let total :=
    for_range _oct (fun i total =>
      let freq := Fsingle (Fpow (F_of_Z 2) (F_of_Z i) / d)%D in
      let amp := Fsingle (Fpow ROUGHNESS (F_of_Z i) * _amp)%D in
      (total
       + get_interp_height t (S_of_Z x * freq)%S (S_of_Z z * freq)%S
         * amp)%S)
      (S_of_Z 0) in
  (t_y t + total)%S.

(** ** Triangulated query engine *)

(** The grid cell of a query and the offsets within it, as the first
    lines of [terrain_height] compute them. *)
Definition terrain_square (t : terrain) : F :=
  (S_of_Z (t_side t) / S_of_Z (to_uint (t_nr_vert t - 1)))%S.

Definition terrain_grid (t : terrain) (x z : F) : Z * Z :=
  let square := terrain_square t in
  let tx := (x - t_x t)%S in
  let tz := (z - t_z t)%S in
  (F2int (Ffloor (tx / square)%S), F2int (Ffloor (tz / square)%S)).

(** [t->map[k]] where the index expression has type [unsigned int];
    [None] is a read outside the array of [nr_vert * nr_vert] elements
    (undefined in C). *)
Definition map_read (m : list F) (k : Z) : option F :=
  m !! Z.to_nat (to_uint k).

(** The test [x < t->x || x > t->x + t->side || ...]. *)
Definition terrain_outside (t : terrain) (x z : F) : bool :=
  (x <? t_x t)%S || (x >? t_x t + S_of_Z (t_side t))%S
  || (z <? t_z t)%S || (z >? t_z t + S_of_Z (t_side t))%S.

(** The indices of the three elements the chosen triangle reads, in the
    order [p1], [p2], [p3]. *)
Definition triangle_indices (t : terrain) (gridx gridz : Z) (lower : bool)
    : Z * Z * Z :=
  let n := t_nr_vert t in
  if lower then
    (gridx * n + gridz, (gridx + 1) * n + gridz, gridx * n + gridz + 1)
  else
    ((gridx + 1) * n + gridz, (gridx + 1) * n + gridz + 1,
     gridx * n + gridz + 1).

Definition terrain_height (t : terrain) (x z : F) : option F :=
  let square := terrain_square t in
  let tx := (x - t_x t)%S in
  let tz := (z - t_z t)%S in
  let '(gridx, gridz) := terrain_grid t x z in
  let xoff := ((tx - square * S_of_Z gridx) / square)%S in
  let zoff := ((tz - square * S_of_Z gridz) / square)%S in
  let pos := (xoff, zoff) in
  match t_map t with
  | None => Some (S_of_Z 0)
  | Some m =>
    if terrain_outside t x z then Some (S_of_Z 0)
    else
      let lower := (xoff <=? S_of_Z 1 - zoff)%S in
      let '(k1, k2, k3) := triangle_indices t gridx gridz lower in
      h1 ← map_read m k1;
      h2 ← map_read m k2;
      h3 ← map_read m k3;
      if lower then
        Some (barrycentric (S_of_Z 0, h1, S_of_Z 0)
                (S_of_Z 1, h2, S_of_Z 0) (S_of_Z 0, h3, S_of_Z 1) pos)
      else
        Some (barrycentric (S_of_Z 1, h1, S_of_Z 0)
                (S_of_Z 1, h2, S_of_Z 1) (S_of_Z 0, h3, S_of_Z 1) pos)
  end.
End synthesis.

Arguments terrain F : clear implicits.

(** Two small terrains for the evaluation of queries: a grid of 2 by 2
    vertices over a square of side 1 at the origin, whose stored heights
    are those of the four vertices [(0,0)], [(0,1)], [(1,0)], [(1,1)]. *)
Definition terrain_2x2 (h00 h01 h10 h11 : Q) : terrain (option Q) :=
  {| t_seed := 0;
     t_map := Some [Some h00; Some h01; Some h10; Some h11];
     t_map0 := None;
     t_x := Some 0%Q; t_y := Some 0%Q; t_z := Some 0%Q;
     t_side := 1; t_nr_vert := 2 |}.

Section query_locality.
Context {F : Type} `{FloatOps F}.

(** The terrain [t] with another height map. *)
Definition with_map (t : terrain F) (m : list F) : terrain F :=
  {| t_seed := t_seed t; t_map := Some m; t_map0 := t_map0 t;
     t_x := t_x t; t_y := t_y t; t_z := t_z t;
     t_side := t_side t; t_nr_vert := t_nr_vert t |}.

(** The indices of the four vertices of the grid cell [(gridx, gridz)]. *)
Definition cell_indices (t : terrain F) (gridx gridz : Z) : list Z :=
  let n := t_nr_vert t in
  [gridx * n + gridz; (gridx + 1) * n + gridz;
   gridx * n + gridz + 1; (gridx + 1) * n + gridz + 1].
End query_locality.

(** ** Heightfield builder *)

Definition MAZE_FAC : Z := 8.

(** [xyarray_print(arr, width, height)]: every row is formatted into
    [char str[2048]], two characters and the terminating 0 for a cell,
    the character taken from the 23 bytes of [ch] at the value of the
    cell; [p] is the number of characters of the row so far.  What is
    logged is left out; an access outside [ch] or [str] is kept, and so
    is the logging of a row of no cells, which reads [str] as the stack
    left it. *)
Definition xyarray_print (arr : list Z) (width height : Z) : M unit :=
  for_rangeM height (fun j _ =>
    _ <- for_rangeM width (fun i p =>
           let v := xyarray_get arr width i j in
           if (v <? 23) && (p + 3 <=? 2048) then ret (p + 2)
           else out_of_bounds) 0 ;;
    if width <=? 0 then out_of_bounds else ret tt) tt.

(** [ca_gen_maze(ca, side, steps)].  The closing call of
    [xyarray_print] lets a run return only for a side below 1024, where
    the [int] product [side * side] of the allocation does not wrap. *)
Definition ca_gen_maze (ca : cell_automaton) (side steps : Z) : M (list Z) :=
  let arr := replicate (Z.to_nat (side * side)) 0 in
  arr <- for_rangeM side (fun i arr =>
           for_rangeM side (fun j arr =>
             r <- lrand48 ;;
             let v := Z.rem r 8 in
             ret (xyarray_set arr side i j
                    (if v <=? nr_states ca then nr_states ca else 0)))
             arr) arr ;;
  let arr := for_range steps (fun step arr => cell_aut_step ca arr side)
               arr in
  _ <- xyarray_print arr side side ;;
  ret arr.

Section builder.
Context {F : Type} `{FloatOps F}.

(** [arr[k] = v] on a [float] array. *)
Definition farr_store (arr : list F) (k : Z) (v : F) : list F :=
  if k <? 0 then arr else <[Z.to_nat k := v]> arr.

(** The store of the value [f i j] to the element [i * n + j], for the
    cell [c = (i, j)]. *)
Definition fill_step (n : Z) (f : Z -> Z -> F) (m : list F) (c : Z * Z)
    : list F :=
  farr_store m (c.1 * n + c.2) (f c.1 c.2).

(** What the body of the second pair of loops of
    [terrain_init_square_landscape] computes for the cell [(i, j)]: the
    local [amp] blended from the BSP leaves, the local [avg] blended from
    the maze, and the two last arguments of the call of [get_height]. *)
Record cell_calc : Type := {
  bsp_amp : F;
  maze_avg : F;
  call_amp : F;
  call_oct : Z;
}.

Definition landscape_cell (bsp_root : bsp_part F) (maze : list Z)
    (mside i j : Z) : cell_calc :=
  let bp := bsp_find bsp_root i j in
  let bpx := bsp_xneigh bsp_root bsp_root i j in
  let bpy := bsp_yneigh bsp_root bsp_root i j in
  let xfrac := bsp_xfrac bp i in
  let yfrac := bsp_yfrac bp j in
  let xamp := cos_interp (node_amp bp) (node_amp bpx) (Fabs xfrac) in
  let yamp := cos_interp (node_amp bp) (node_amp bpy) (Fabs yfrac) in
  let amp := cos_interp xamp yamp (Fsingle (Fabs (xfrac - yfrac)%S)) in
  let xfrac := (Ffmod (S_of_Z i) (S_of_Z MAZE_FAC) / S_of_Z MAZE_FAC)%S in
  let yfrac := (Ffmod (S_of_Z j) (S_of_Z MAZE_FAC) / S_of_Z MAZE_FAC)%S in
  let xpos := Z.quot i MAZE_FAC in
  let ypos := Z.quot j MAZE_FAC in
  let cn := xyarray_get maze mside xpos ypos in
  let xn := xyarray_get maze mside
              (if (xfrac >=? F_of_Q (1 # 2))%D then xpos + 1 else xpos - 1)
              ypos in
  let yn := xyarray_get maze mside xpos
              (if (yfrac >=? F_of_Q (1 # 2))%D then ypos + 1
               else ypos - 1) in
  let xavg := if cn >? xn then S_of_Z cn
              else cos_interp (S_of_Z cn) (S_of_Z xn)
                     (S_of_Z 2 * xfrac - S_of_Z 1)%S in
  let yavg := if cn >? yn then S_of_Z cn
              else cos_interp (S_of_Z cn) (S_of_Z yn)
                     (S_of_Z 2 * yfrac - S_of_Z 1)%S in
  let avg := cos_interp xavg yavg (Fabs (xfrac - yfrac)%S) in
  {| bsp_amp := amp;
     maze_avg := avg;
     call_amp := Fpowf (F_of_Q (15 # 10)) avg;
     call_oct := OCTAVES |}.

(** The blend of the maze at the cell [(i, j)] written without the BSP
    tree: the maze cell that contains the vertex ([cn]), its neighbour on
    the nearer side in each direction ([xn], [yn]), and the cosine blends
    of the three. *)
Definition maze_blend (maze : list Z) (mside i j : Z) : F :=
  let xfrac := (Ffmod (S_of_Z i) (S_of_Z MAZE_FAC) / S_of_Z MAZE_FAC)%S in
  let yfrac := (Ffmod (S_of_Z j) (S_of_Z MAZE_FAC) / S_of_Z MAZE_FAC)%S in
  let xpos := Z.quot i MAZE_FAC in
  let ypos := Z.quot j MAZE_FAC in
  let cn := xyarray_get maze mside xpos ypos in
  let xn := xyarray_get maze mside
              (if (xfrac >=? F_of_Q (1 # 2))%D then xpos + 1 else xpos - 1)
              ypos in
  let yn := xyarray_get maze mside xpos
              (if (yfrac >=? F_of_Q (1 # 2))%D then ypos + 1
               else ypos - 1) in
  let xavg := if cn >? xn then S_of_Z cn
              else cos_interp (S_of_Z cn) (S_of_Z xn)
                     (S_of_Z 2 * xfrac - S_of_Z 1)%S in
  let yavg := if cn >? yn then S_of_Z cn
              else cos_interp (S_of_Z cn) (S_of_Z yn)
                     (S_of_Z 2 * yfrac - S_of_Z 1)%S in
  cos_interp xavg yavg (Fabs (xfrac - yfrac)%S).

(** The terrain as it is while the height map is filled: the seed-height
    grid [map0] is there, the height map is not yet. *)
Definition terrain_with_map0 (seed : Z) (x y z side : F) (nr_v : Z)
    (map0 : list F) : terrain F :=
  {| t_seed := seed; t_map := None; t_map0 := Some map0;
     t_x := x; t_y := y; t_z := z;
     t_side := to_uint (F2int side); t_nr_vert := nr_v |}.

(** The right-hand side of the assignment to [t->map[i * nr_v + j]]. *)
Definition landscape_height (t : terrain F) (bsp_root : bsp_part F)
    (maze : list Z) (mside i j : Z) : F :=
  let c := landscape_cell bsp_root maze mside i j in
  (get_height t i j (call_amp c) (call_oct c) + maze_avg c)%S.

(** [terrain_init_square_landscape] up to the point where the height map
    is complete and [map0] and the BSP tree are released; the rest of the
    function (instantiators, mesh, physics) neither writes the height map
    nor draws random numbers.  [tv_nsec] is what [clock_gettime]
    returns; [fuel] is the recursion budget of [bsp_process].  The two
    arrays have [nr_v * nr_v] elements as an [unsigned int] product;
    [ca_gen_maze] returns only for a maze below 1024 cells a side, so the
    allocations are reached for [nr_v] below 8192 only, where neither the
    product nor an index of the loops wraps. *)
Definition terrain_init_square_landscape (fuel : nat) (tv_nsec : Z)
    (x y z side : F) (nr_v : Z) : M (terrain F) :=
  let mside := Z.quot nr_v MAZE_FAC in
  maze <- ca_gen_maze ca_test (Z.quot nr_v MAZE_FAC) 3 ;;
  let seed := tv_nsec in
  bsp_root <- bsp_process fuel seed 3 0 0 nr_v nr_v terrain_bsp_cb ;;
  let t := {| t_seed := seed; t_map := None; t_map0 := None;
              t_x := x; t_y := y; t_z := z;
              t_side := to_uint (F2int side); t_nr_vert := nr_v |} in
  map0 <- for_rangeM nr_v (fun i map0 =>
            for_rangeM nr_v (fun j map0 =>
              v <- get_rand_height t i j ;;
              ret (farr_store map0 (i * nr_v + j) v)) map0)
            (replicate (Z.to_nat (to_uint (nr_v * nr_v))) (F_of_Z 0)) ;;
  let t := {| t_seed := seed; t_map := None; t_map0 := Some map0;
              t_x := x; t_y := y; t_z := z;
              t_side := to_uint (F2int side); t_nr_vert := nr_v |} in
  let map :=
    for_range nr_v (fun i map =>
      for_range nr_v (fun j map =>
        farr_store map (i * nr_v + j)
          (landscape_height t bsp_root maze mside i j)) map)
      (replicate (Z.to_nat (to_uint (nr_v * nr_v))) (F_of_Z 0)) in
  ret {| t_seed := seed; t_map := Some map; t_map0 := None;
         t_x := x; t_y := y; t_z := z;
         t_side := to_uint (F2int side); t_nr_vert := nr_v |}.
End builder.

Arguments cell_calc F : clear implicits.

(** ** Runs compared *)

(** Two runs end alike: both return, with results related by [R] and the
    [drand48] generator in the same state, or both trap, or both run out
    of fuel. *)
Definition outcome_rel {A B : Type} (R : A -> B -> Prop)
    (o1 : outcome (A * libc)) (o2 : outcome (B * libc)) : Prop :=
  match o1, o2 with
  | Done (a, s1), Done (b, s2) => R a b /\ X48 s1 = X48 s2
  | DivByZero, DivByZero => True
  | OutOfBounds, OutOfBounds => True
  | NoFuel, NoFuel => True
  | _, _ => False
  end.

(** Two computations end alike whenever they start with the [drand48]
    generator in the same state, whatever the state of [rand]. *)
Definition run_rel {A B : Type} (R : A -> B -> Prop) (m1 : M A) (m2 : M B)
    : Prop :=
  forall s1 s2 : libc, X48 s1 = X48 s2 -> outcome_rel R (m1 s1) (m2 s2).

Definition any {A B : Type} (_ : A) (_ : B) : Prop := True.


(* ================================================================== *)
(** * Part I, continued: the rest of terrain.c *)
(* ================================================================== *)

(** A grid all of whose cells hold a state between 0 and [top]. *)
Definition cells_within (top : Z) (arr : list Z) : Prop :=
  Forall (fun v => 0 <= v <= top) arr.

(** The coordinate and the index that [get_mapped_rand_height] computes
    before it reads [map0]. *)
Definition mapped_coord (n x : Z) : Z :=
  if x <? 0 then n - 1 else if x >=? n then 0 else x.

Definition mapped_index (n x z : Z) : Z :=
  mapped_coord n x * n + mapped_coord n z.

Section bsp_shape.
Context {F : Type} `{FloatOps F}.

(** The leaves of a tree, from [a] to [b]. *)
Fixpoint bsp_leaves (t : bsp_part F) : list (bsp_part F) :=
  match t with
  | bsp_leaf _ _ _ _ _ _ => [t]
  | bsp_node _ _ _ _ _ _ a b => bsp_leaves a ++ bsp_leaves b
  end.

(** [!(it->a || it->b)]: the node has no children. *)
Definition bsp_is_leaf (t : bsp_part F) : bool :=
  match t with
  | bsp_leaf _ _ _ _ _ _ => true
  | bsp_node _ _ _ _ _ _ _ _ => false
  end.

(** The number of levels below a node. *)
Fixpoint bsp_height (t : bsp_part F) : Z :=
  match t with
  | bsp_leaf _ _ _ _ _ _ => 0
  | bsp_node _ _ _ _ _ _ a b => 1 + Z.max (bsp_height a) (bsp_height b)
  end.

(** The number of leaves whose rectangle contains the point. *)
Definition leaves_at (t : bsp_part F) (px py : Z) : nat :=
  length (List.filter (fun l => bsp_within_rect l px py) (bsp_leaves t)).

(** The sum of the areas of the leaves. *)
Definition leaves_area (t : bsp_part F) : Z :=
  foldr Z.add 0 (bsp_area <$> bsp_leaves t).

(** The node [n] is cut in two along one axis: its sides are at least one
    cell long, and [a] and [b] are the two parts of its rectangle on
    either side of a cut that falls within the side. *)
Definition split_of (n a b : bsp_part F) : Prop :=
  exists (vertical : bool) (cut : Z),
    1 <= node_w n /\ 1 <= node_h n
    /\ (if vertical then 0 <= cut <= node_w n else 0 <= cut <= node_h n)
    /\ same_rect a
         (if vertical
          then bsp_fresh (node_x n) (node_y n) cut (node_h n)
          else bsp_fresh (node_x n) (node_y n) (node_w n) cut)
    /\ same_rect b
         (if vertical
          then bsp_fresh (node_x n + cut) (node_y n) (node_w n - cut)
                 (node_h n)
          else bsp_fresh (node_x n) (node_y n + cut) (node_w n)
                 (node_h n - cut)).

(** Every internal node of the tree is cut in two. *)
Fixpoint bsp_well_split (t : bsp_part F) : Prop :=
  match t with
  | bsp_leaf _ _ _ _ _ _ => True
  | bsp_node _ _ _ _ _ _ a b =>
      split_of t a b /\ bsp_well_split a /\ bsp_well_split b
  end.

(** What [bsp_part_one] with [terrain_bsp_cb] returns for a node at
    [level]: a node with two children, each of them a leaf with 3 to 6
    octaves or, only up to level 16, a node split in turn one level
    down. *)
Fixpoint bsp_levels (level : Z) (t : bsp_part F) : Prop :=
  match t with
  | bsp_leaf _ _ _ _ _ _ => False
  | bsp_node _ _ _ _ _ _ a b =>
      match a with
      | bsp_leaf _ _ _ _ _ oct => 3 <= oct <= 6
      | bsp_node _ _ _ _ _ _ _ _ => level <= 16 /\ bsp_levels (level + 1) a
      end
      /\ match b with
         | bsp_leaf _ _ _ _ _ oct => 3 <= oct <= 6
         | bsp_node _ _ _ _ _ _ _ _ =>
             level <= 16 /\ bsp_levels (level + 1) b
         end
  end.
End bsp_shape.


(** ** Instantiators *)

From Stdlib Require String.

Module instor_names.
Import String.
Definition cool_tree : string := "cool tree"%string.
Definition ash_pinus : string := "ash pinus"%string.
End instor_names.

(** The table [ca_instors]: the name and the rule of each kind of
    instantiator.  The initialisers leave [decay] out, so it is false. *)
Definition ca_instors : list (String.string * cell_automaton) :=
  [(instor_names.cool_tree,
    {| born := 63; surv := 255; nr_states := 20; decay := false;
       neigh := neigh_mv |});
   (instor_names.ash_pinus,
    {| born := 255; surv := 255; nr_states := 21; decay := false;
       neigh := neigh_mv |})].

(** The loop "place instantiators" of [terrain_init_square_landscape]:
    one step of every rule of the table on the maze, in place. *)
Definition landscape_instantiators (maze : list Z) (mside : Z) : list Z :=
  foldl (fun maze ca => cell_aut_step ca.2 maze mside) maze ca_instors.

(** The eight cells around [(i, j)]. *)
Definition around (i j : Z) : list (Z * Z) :=
  [(i + 1, j); (i - 1, j); (i, j + 1); (i, j - 1);
   (i + 1, j + 1); (i - 1, j + 1); (i + 1, j - 1); (i - 1, j - 1)].

(** One grid keeps the live cells of another: it has the same size and
    every cell that is not 0 in the first holds the same value in the
    second. *)
Definition keeps_live (a b : list Z) : Prop :=
  length b = length a
  /\ forall (k : nat) (v : Z), a !! k = Some v -> v <> 0 -> b !! k = Some v.

Section placement.
Context {F : Type} `{FloatOps F}.

(** What the last loops of [terrain_init_square_landscape] fill in of a
    [struct instantiator]; [dy] is [None] when [terrain_height] reads
    outside the height map. *)
Record instantiator : Type := {
  instor_name : String.string;
  instor_dx : F;
  instor_dy : option F;
  instor_dz : F;
}.

(** [origin + (float)(i + 0.5) * MAZE_FAC * side / (nr_v - 1)]. *)
Definition instor_coord (origin side : F) (nr_v i : Z) : F :=
  (origin
   + Fsingle (F_of_Z i + F_of_Q (1 # 2))%D * S_of_Z MAZE_FAC * side
     / S_of_Z (to_uint (nr_v - 1)))%S.

Definition instor_at (t : terrain F) (x z side : F) (nr_v : Z)
    (name : String.string) (i j : Z) : instantiator :=
  let dx := instor_coord x side nr_v i in
  let dz := instor_coord z side nr_v j in
  {| instor_name := name; instor_dx := dx;
     instor_dy := terrain_height t dx dz; instor_dz := dz |}.

(** The body of the last loops for the cell [(i, j)]: an instantiator of
    every kind whose number of states the cell holds is appended to the
    list of the scene. *)
Definition place_cell (t : terrain F) (maze : list Z) (mside : Z)
    (x z side : F) (nr_v : Z) (acc : list instantiator) (i j : Z)
    : list instantiator :=
  foldl (fun acc ca =>
           if xyarray_get maze mside i j =? nr_states ca.2
           then acc ++ [instor_at t x z side nr_v ca.1 i j]
           else acc) acc ca_instors.

Definition landscape_placements (t : terrain F) (maze : list Z)
    (mside : Z) (x z side : F) (nr_v : Z) (acc : list instantiator)
    : list instantiator :=
  for_range mside (fun i acc =>
    for_range mside (fun j acc =>
      place_cell t maze mside x z side nr_v acc i j) acc) acc.

(** The instantiators of the cell [(i, j)] of a grid, by the value the
    cell holds. *)
Definition cell_instors (t : terrain F) (maze : list Z) (mside : Z)
    (x z side : F) (nr_v : Z) (c : Z * Z) : list instantiator :=
  let v := xyarray_get maze mside c.1 c.2 in
  if v =? 20 then [instor_at t x z side nr_v instor_names.cool_tree c.1 c.2]
  else if v =? 21
       then [instor_at t x z side nr_v instor_names.ash_pinus c.1 c.2]
       else [].
End placement.

Arguments instantiator F : clear implicits.

(** ** Normals *)

Section normals.
Context {F : Type} `{FloatOps F}.

(** [vec3_norm] belongs to linmath.h, which is not among the sources: the
    normalisation is a parameter of the model. *)
Variable vec3_norm : F * F * F -> F * F * F.

(** [calc_normal(t, n, x, z)]: the vector left in [n], or [None] when a
    read falls outside the height map.  [nr_vert] is [unsigned], so the
    comparisons with [nr_vert - 1] and the index expressions are
    computed in [unsigned int]. *)
Definition calc_normal (t : terrain F) (x z : Z) : option (F * F * F) :=
  let n := t_nr_vert t in
  let left := to_int (to_uint (if x =? 0 then n - 1 else x - 1)) in
  let right := if to_uint x =? to_uint (n - 1) then 0 else x + 1 in
  let up := to_int (to_uint (if z =? 0 then n - 1 else z - 1)) in
  let down := if to_uint z =? to_uint (n - 1) then 0 else z + 1 in
  m ← t_map t;
  hl ← (if x =? 0 then Some (S_of_Z 0) else map_read m (left * n + z));
  hr ← (if to_uint x =? to_uint (n - 1) then Some (S_of_Z 0)
        else map_read m (right * n + z));
  hd ← (if z =? 0 then Some (S_of_Z 0) else map_read m (x * n + up));
  hu ← (if to_uint z =? to_uint (n - 1) then Some (S_of_Z 0)
        else map_read m (x * n + down));
  Some (vec3_norm ((hl - hr)%S, S_of_Z 2, (hd - hu)%S)).

(** [terrain_normal(t, x, z, n)]. *)
Definition terrain_normal (t : terrain F) (x z : F) : option (F * F * F) :=
  let '(gridx, gridz) := terrain_grid t x z in
  calc_normal t gridx gridz.

(** The height of the vertex [(i, j)] of the grid, and 0 for a vertex
    that is not in the grid. *)
Definition height_or_zero (t : terrain F) (m : list F) (i j : Z) : F :=
  let n := t_nr_vert t in
  if (0 <=? i) && (i <? n) && (0 <=? j) && (j <? n)
  then default (S_of_Z 0) (m !! Z.to_nat (i * n + j))
  else S_of_Z 0.
End normals.

(** ** Mesh indices *)

(** Conversion to [unsigned short]. *)
Definition to_ushort (v : Z) : Z := v mod 2 ^ 16.

(** The six values the index loop of [terrain_init_square_landscape]
    stores for the cell [(i, j)]: two triangles over the four vertices of
    the cell. *)
Definition cell_triangles (nr_v : Z) (c : Z * Z) : list Z :=
  let top_left := to_int (to_uint (c.1 * nr_v + c.2)) in
  let top_right := top_left + 1 in
  let bottom_left := to_int (to_uint ((c.1 + 1) * nr_v + c.2)) in
  let bottom_right := bottom_left + 1 in
  [top_left; bottom_left; top_right; top_right; bottom_left; bottom_right].

(** [idx[it++] = v] on the array of [unsigned short]. *)
Definition idx_push (st : list Z * Z) (v : Z) : list Z * Z :=
  (arr_store st.1 st.2 (to_ushort v), st.2 + 1).

(** The index loop: [idx] is the array as [malloc] returns it, the result
    the array and the counter [it] after the loop.  The function has
    divided by zero before this point when [nr_v] is 0, so the bound
    [nr_v - 1] of the loops is not negative. *)
Definition landscape_indices (nr_v : Z) (idx : list Z) : list Z * Z :=
  for_range (nr_v - 1) (fun i st =>
    for_range (nr_v - 1) (fun j st =>
      foldl idx_push st (cell_triangles nr_v (i, j))) st) (idx, 0).

(** ** Exact sums of small integers *)

(** Two facts of correctly rounded binary floating point: an integer of
    magnitude up to [2 ^ 24] is a [float], and the sum of two such
    integers is exact. *)
Class FloatSums (F : Type) `{FloatOps F} : Prop := {
  Fsingle_int : forall k : Z,
    - 2 ^ 24 <= k <= 2 ^ 24 -> Fsingle (F_of_Z k) = F_of_Z k;
  Fadd_of_Z : forall j k : Z,
    - 2 ^ 24 <= j <= 2 ^ 24 -> - 2 ^ 24 <= k <= 2 ^ 24 ->
    (F_of_Z j + F_of_Z k)%D = F_of_Z (j + k);
}.

(** ** Arithmetic that rounds to [float] *)

(** The rationals with a conversion to [float] that rounds: [Fsingle] is
    the rounding of IEEE 754 binary32, to the nearest value with a
    significand of 24 bits (of fewer bits below [2 ^ -126]), ties to the
    even significand; a result beyond the range of [float] is [None].
    The other operations are the exact ones of [QX].  An operation of
    C's [float] arithmetic, the exact result rounded, is therefore what
    IEEE 754 prescribes for it as long as the operands are [float]
    values and the result is within the range. *)
Module QR.
(** The integer nearest to [n / d], the even one of two equally near. *)
Definition round_even (n : Z) (d : positive) : Z :=
  let f := n / Zpos d in
  let r := n mod Zpos d in
  match 2 * r ?= Zpos d with
  | Lt => f
  | Gt => f + 1
  | Eq => if Z.even f then f else f + 1
  end.

(** [floor (log2 (n / d))] for [0 < n]. *)
Definition floor_log2 (n : Z) (d : positive) : Z :=
  let k := Z.log2 n - Z.log2 (Zpos d) in
  if Zpos d * 2 ^ Z.max 0 k <=? n * 2 ^ Z.max 0 (- k) then k else k - 1.

(** The binary32 value nearest to a positive [n / d], as a significand
    and an exponent. *)
Definition round_pos (n : Z) (d : positive) : Z * Z :=
  let e := Z.max (floor_log2 n d - 23) (- 149) in
  let m := if 0 <=? e then round_even n (d * Z.to_pos (2 ^ e))
           else round_even (n * 2 ^ (- e)) d in
  (m, e).

Definition scale (m e : Z) : Q :=
  if 0 <=? e then inject_Z (m * 2 ^ e) else m # Z.to_pos (2 ^ (- e)).

Definition single (a : option Q) : option Q :=
  match a with
  | Some x =>
      match Qnum x with
      | Z0 => Some 0%Q
      | Zpos n =>
          let '(m, e) := round_pos (Zpos n) (Qden x) in
          if 2 ^ 128 <=? m * 2 ^ Z.max 0 e then None
          else Some (Qred (scale m e))
      | Zneg n =>
          let '(m, e) := round_pos (Zpos n) (Qden x) in
          if 2 ^ 128 <=? m * 2 ^ Z.max 0 e then None
          else Some (Qred (- scale m e))
      end
  | None => None
  end.

Definition ops : FloatOps (option Q) := {|
  F_of_Q q := Some (Qred q);
  Fsingle := single;
  Fadd := QX.lift2 Qplus;
  Fsub := QX.lift2 Qminus;
  Fmul := QX.lift2 Qmult;
  Fdiv := QX.div;
  Flt := QX.lt;
  Fle := QX.le;
  Ffloor := QX.lift1 (fun x => inject_Z (Qfloor x));
  Fabs := QX.lift1 Qabs;
  Ffmod := QX.fmod;
  F2int := QX.to_int;
  Fcosf := QX.cosf;
  Fpow := QX.pow;
  Fpowf := QX.pow;
|}.
End QR.
(* ================================================================== *)
(** * Part II: properties *)
(* ================================================================== *)

(** ** Automaton: reads outside the grid *)

Lemma xyarray_get_outside (arr : list Z) (width x y : Z) :
  x < 0 \/ y < 0 \/ width <= x \/ width <= y ->
  xyarray_get arr width x y = 0.
Proof.
  intros Hout. unfold xyarray_get.
  destruct (x <? 0) eqn:E1; [reflexivity|].
  destruct (y <? 0) eqn:E2; [reflexivity|].
  destruct (x >=? width) eqn:E3; [reflexivity|].
  destruct (y >=? width) eqn:E4; [reflexivity|].
  exfalso. lia.
Qed.

Lemma xyarray_get_inside (arr : list Z) (width x y : Z) :
  0 <= x < width -> 0 <= y < width ->
  xyarray_get arr width x y = arr_load arr (y * width + x).
Proof.
  intros Hx Hy. unfold xyarray_get.
  destruct (x <? 0) eqn:E1; [lia|].
  destruct (y <? 0) eqn:E2; [lia|].
  destruct (x >=? width) eqn:E3; [lia|].
  destruct (y >=? width) eqn:E4; [lia|].
  reflexivity.
Qed.

Lemma arr_load_store_ne (arr : list Z) (k k' v : Z) :
  0 <= k' -> k <> k' -> arr_load (arr_store arr k v) k' = arr_load arr k'.
Proof.
  intros Hk' Hne. unfold arr_load, arr_store.
  destruct (k' <? 0) eqn:E1; [lia|].
  destruct (k <? 0) eqn:E2; [reflexivity|].
  rewrite list_lookup_insert_ne; [reflexivity|]. lia.
Qed.

Lemma arr_load_store_eq (arr : list Z) (k v : Z) :
  0 <= k < Z.of_nat (length arr) ->
  arr_load (arr_store arr k v) k = v.
Proof.
  intros Hk. unfold arr_load, arr_store.
  destruct (k <? 0) eqn:E1; [lia|].
  rewrite list_lookup_insert_eq; [reflexivity|]. lia.
Qed.

Lemma length_arr_store (arr : list Z) (k v : Z) :
  length (arr_store arr k v) = length arr.
Proof.
  unfold arr_store. destruct (k <? 0); [reflexivity|apply length_insert].
Qed.

(** A store to the cell [(x, y)] of the grid is not seen by a read of
    another cell. *)
Lemma xyarray_get_set_other (arr : list Z) (side x y v a b : Z) :
  0 <= x < side -> (a, b) <> (x, y) ->
  xyarray_get (xyarray_set arr side x y v) side a b = xyarray_get arr side a b.
Proof.
  intros Hx Hne. unfold xyarray_get.
  destruct (a <? 0) eqn:E1; [reflexivity|].
  destruct (b <? 0) eqn:E2; [reflexivity|].
  destruct (a >=? side) eqn:E3; [reflexivity|].
  destruct (b >=? side) eqn:E4; [reflexivity|].
  simpl. unfold xyarray_set.
  destruct (x <? 0) eqn:E5; [lia|].
  destruct (x >=? side) eqn:E6; [lia|].
  apply arr_load_store_ne; [nia|].
  intros Heq. apply Hne.
  assert (y = b) by nia. subst b. f_equal. lia.
Qed.

Local Ltac four_strategies H :=
  unfold neigh_strategies in H;
  repeat (apply elem_of_cons in H; destruct H as [H|H]; [subst|]);
  [ .. | apply elem_of_nil in H; destruct H ].

(** C4, as the claim states it, fails: on a 3x3 grid whose only live cell
    is [(0, 1)], the read of [(3, 1)] gives 0 although the cell at
    [3 mod 3 = 0] holds 1, and no strategy counts the live cell as a
    neighbour of the edge cell [(2, 1)]; with the live cell at [(2, 1)]
    no strategy counts it at [(0, 1)] either. *)
Lemma xyarray_get_not_toroidal :
  let left := [0; 0; 0; 1; 0; 0; 0; 0; 0] in
  let right := [0; 0; 0; 0; 0; 1; 0; 0; 0] in
  arr_load left ((1 mod 3) * 3 + 3 mod 3) = 1
  /\ xyarray_get left 3 3 1 = 0
  /\ xyarray_get right 3 (-1) 1 = 0
  /\ Forall (fun f => f left 3 2 1 = 0 /\ f right 3 0 1 = 0) neigh_strategies.
Proof.
  cbv zeta. repeat split; try reflexivity.
  unfold neigh_strategies. repeat constructor.
Qed.

(** C4 (amended): a read with a coordinate outside [0, width) gives 0, a
    read inside gives the stored cell, and under each of the four
    strategies the count at an edge cell [(side - 1, y)] does not depend on
    any cell of column 0, nor the count at [(0, y)] on column [side - 1]. *)
Theorem xyarray_get_zero_boundary :
  (forall (arr : list Z) (width x y : Z),
      x < 0 \/ y < 0 \/ width <= x \/ width <= y ->
      xyarray_get arr width x y = 0)
  /\ (forall (arr : list Z) (width x y : Z),
      0 <= x < width -> 0 <= y < width ->
      xyarray_get arr width x y = arr_load arr (y * width + x))
  /\ (forall f (arr : list Z) (side y y' v : Z),
      f ∈ neigh_strategies -> 3 <= side ->
      f (xyarray_set arr side 0 y' v) side (side - 1) y
        = f arr side (side - 1) y
      /\ f (xyarray_set arr side (side - 1) y' v) side 0 y
        = f arr side 0 y).
Proof.
  split; [exact xyarray_get_outside|].
  split; [exact xyarray_get_inside|].
  intros f arr side y y' v Hf Hside.
  assert (Hfar : forall a b, a <> 0 ->
            xyarray_get (xyarray_set arr side 0 y' v) side a b
            = xyarray_get arr side a b).
  { intros a b Ha. apply xyarray_get_set_other; [lia|]. congruence. }
  assert (Hnear : forall a b, a <> side - 1 ->
            xyarray_get (xyarray_set arr side (side - 1) y' v) side a b
            = xyarray_get arr side a b).
  { intros a b Ha. apply xyarray_get_set_other; [lia|]. congruence. }
  assert (Hright : forall g b, xyarray_get g side (side - 1 + 1) b = 0).
  { intros g b. apply xyarray_get_outside. lia. }
  assert (Hleft : forall g b, xyarray_get g side (0 - 1) b = 0).
  { intros g b. apply xyarray_get_outside. lia. }
  four_strategies Hf;
    (split;
     [ unfold neigh_mv, neigh_m1, neigh_vnv, neigh_vn1;
       rewrite !Hright, !Hfar by lia; reflexivity
     | unfold neigh_mv, neigh_m1, neigh_vnv, neigh_vn1;
       rewrite !Hleft, !Hnear by lia; reflexivity ]).
Qed.

Lemma xyarray_get_zero_boundary_witness :
  neigh_vn1 (xyarray_set [0; 0; 0; 0; 0; 0; 0; 0; 0] 3 0 1 1) 3 (3 - 1) 1
  = neigh_vn1 [0; 0; 0; 0; 0; 0; 0; 0; 0] 3 (3 - 1) 1.
Proof.
  refine (proj1 (proj2 (proj2 xyarray_get_zero_boundary) neigh_vn1
                  [0; 0; 0; 0; 0; 0; 0; 0; 0] 3 1 1 1 _ _)).
  - unfold neigh_strategies. apply list_elem_of_here.
  - lia.
Defined.

(** ** Automaton: one step, in place *)

Section automaton_step.
Variable ca : cell_automaton.
Variable side : Z.

Lemma foldl_bind {A B S : Type} (f : S -> B -> S) (g : A -> list B)
    (l : list A) (s : S) :
  foldl f s (l ≫= g) = foldl (fun s x => foldl f s (g x)) s l.
Proof.
  revert s. induction l as [|x l IH]; intros s; [reflexivity|].
  rewrite bind_cons, foldl_app. simpl. apply IH.
Qed.

Lemma foldl_pointwise {B S : Type} (f g : S -> B -> S) (l : list B)
    (s : S) :
  (forall s x, f s x = g s x) -> foldl f s l = foldl g s l.
Proof.
  intros Hfg. revert s. induction l as [|x l IH]; intros s; simpl;
    [reflexivity|]. rewrite Hfg. apply IH.
Qed.

Lemma cell_aut_step_scan (arr : list Z) :
  cell_aut_step ca arr side = foldl (scan_step ca side) arr (scan_cells side).
Proof.
  unfold cell_aut_step, for_range, scan_cells.
  rewrite foldl_bind. apply foldl_pointwise; intros s i.
  rewrite foldl_fmap. reflexivity.
Qed.

Lemma length_cell_aut_cell (arr : list Z) (i j : Z) :
  length (cell_aut_cell ca side arr i j) = length arr.
Proof.
  unfold cell_aut_cell, xyarray_set.
  repeat match goal with
         | |- context [if ?b then _ else _] => destruct b
         end; rewrite ?length_arr_store; reflexivity.
Qed.

Lemma length_foldl_step (l : list (Z * Z)) (arr : list Z) :
  length (foldl (scan_step ca side) arr l) = length arr.
Proof.
  revert arr. induction l as [|c l IH]; intros arr; simpl; [reflexivity|].
  rewrite IH. apply length_cell_aut_cell.
Qed.

Lemma lookup_arr_store_ne (arr : list Z) (k v : Z) (n : nat) :
  Z.of_nat n <> k -> arr_store arr k v !! n = arr !! n.
Proof.
  intros Hne. unfold arr_store. destruct (k <? 0) eqn:E; [reflexivity|].
  apply list_lookup_insert_ne. lia.
Qed.

(** The body of the loops writes at most the cell it is run for. *)
Lemma lookup_cell_aut_cell_ne (arr : list Z) (i j : Z) (n : nat) :
  0 <= i < side -> Z.of_nat n <> j * side + i ->
  cell_aut_cell ca side arr i j !! n = arr !! n.
Proof.
  intros Hi Hne. unfold cell_aut_cell, xyarray_set.
  destruct (i <? 0) eqn:E1; [lia|].
  destruct (i >=? side) eqn:E2; [lia|].
  repeat match goal with
         | |- context [if ?b then _ else _] => destruct b
         end; rewrite ?lookup_arr_store_ne by assumption; reflexivity.
Qed.

Lemma lookup_foldl_step_ne (l : list (Z * Z)) (arr : list Z) (n : nat) :
  (forall i j, (i, j) ∈ l ->
               0 <= i < side /\ Z.of_nat n <> j * side + i) ->
  foldl (scan_step ca side) arr l !! n = arr !! n.
Proof.
  revert arr. induction l as [|[i j] l IH]; intros arr Hl; simpl;
    [reflexivity|].
  rewrite IH.
  - unfold scan_step; simpl. apply lookup_cell_aut_cell_ne;
      apply (Hl i j); apply list_elem_of_here.
  - intros i' j' Hin. apply Hl. apply list_elem_of_further, Hin.
Qed.

(** What the body leaves in its own cell is the rule's next value. *)
Lemma cell_aut_cell_next (arr : list Z) (i j : Z) :
  Z.of_nat (length arr) = side * side ->
  0 <= i < side -> 0 <= j < side ->
  arr_load (cell_aut_cell ca side arr i j) (j * side + i)
  = cell_next ca side arr i j.
Proof.
  intros Hlen Hi Hj.
  assert (Hidx : 0 <= j * side + i < Z.of_nat (length arr)) by nia.
  unfold cell_aut_cell, cell_next, xyarray_set.
  destruct (i <? 0) eqn:E1; [lia|].
  destruct (i >=? side) eqn:E2; [lia|].
  repeat match goal with
         | |- context [if ?b then _ else _] => destruct b
         end;
    rewrite ?arr_load_store_eq by assumption;
    rewrite ?xyarray_get_inside by assumption; reflexivity.
Qed.

(** The scan order splits around every cell of the grid: the cells
    before it are exactly those [scanned_before] it. *)
Lemma scan_cells_split (i j : Z) :
  0 <= i < side -> 0 <= j < side ->
  exists pre post,
    scan_cells side = pre ++ (i, j) :: post
    /\ (forall a b, (a, b) ∈ pre ->
          0 <= a < side /\ 0 <= b < side
          /\ scanned_before i j a b = true)
    /\ (forall a b, (a, b) ∈ post ->
          0 <= a < side /\ 0 <= b < side
          /\ scanned_before i j a b = false /\ (a, b) <> (i, j)).
Proof.
  intros Hi Hj.
  set (row := fun i : Z => (fun j : Z => (i, j)) <$> seqZ 0 side).
  exists ((seqZ 0 i ≫= row) ++ ((fun j => (i, j)) <$> seqZ 0 j)),
    (((fun j => (i, j)) <$> seqZ (j + 1) (side - j - 1))
       ++ (seqZ (i + 1) (side - i - 1) ≫= row)).
  split; [|split].
  - assert (Hsplit : forall k, 0 <= k < side ->
              seqZ 0 side = seqZ 0 k ++ k :: seqZ (k + 1) (side - k - 1)).
    { intros k Hk. replace side with (k + (side - k)) at 1 by lia.
      rewrite seqZ_app by lia. rewrite (seqZ_cons (0 + k)) by lia.
      repeat f_equal; lia. }
    unfold scan_cells. fold row.
    rewrite (Hsplit i Hi), bind_app, bind_cons.
    change (row i) with ((fun j => (i, j)) <$> seqZ 0 side).
    rewrite (Hsplit j Hj), fmap_app, fmap_cons.
    rewrite <- !app_assoc. reflexivity.
  - intros a b Hin. unfold scanned_before.
    apply elem_of_app in Hin as [Hin|Hin].
    + apply list_elem_of_bind in Hin as (i' & Hin & Hi').
      apply list_elem_of_fmap in Hin as (j' & Heq & Hj').
      apply elem_of_seqZ in Hi'. apply elem_of_seqZ in Hj'.
      inversion Heq; subst.
      replace (i' <? i) with true by (symmetry; apply Z.ltb_lt; lia).
      simpl. lia.
    + apply list_elem_of_fmap in Hin as (j' & Heq & Hj').
      apply elem_of_seqZ in Hj'. inversion Heq; subst.
      replace (j' <? j) with true by (symmetry; apply Z.ltb_lt; lia).
      rewrite Z.eqb_refl, orb_true_r. lia.
  - intros a b Hin. unfold scanned_before.
    apply elem_of_app in Hin as [Hin|Hin].
    + apply list_elem_of_fmap in Hin as (j' & Heq & Hj').
      apply elem_of_seqZ in Hj'. inversion Heq; subst.
      rewrite Z.ltb_irrefl.
      replace (j' <? j) with false by (symmetry; apply Z.ltb_ge; lia).
      rewrite andb_false_r. simpl.
      repeat split; try lia. intros Hsame; inversion Hsame; lia.
    + apply list_elem_of_bind in Hin as (i' & Hin & Hi').
      apply list_elem_of_fmap in Hin as (j' & Heq & Hj').
      apply elem_of_seqZ in Hi'. apply elem_of_seqZ in Hj'.
      inversion Heq; subst.
      replace (i' <? i) with false by (symmetry; apply Z.ltb_ge; lia).
      replace (i' =? i) with false by (symmetry; apply Z.eqb_neq; lia).
      simpl. repeat split; try lia. intros Hsame; inversion Hsame; lia.
Qed.

(** A cell inside the grid is found back from its storage index. *)
Lemma cell_of_index (n : nat) (a b : Z) :
  0 <= a < side -> Z.of_nat n = b * side + a ->
  Z.of_nat n mod side = a /\ Z.of_nat n / side = b.
Proof.
  intros Ha Hn. rewrite Hn. split.
  - rewrite Z.add_comm, Z.mod_add by lia. apply Z.mod_small. lia.
  - rewrite Z.add_comm, Z.div_add by lia. rewrite Z.div_small by lia. lia.
Qed.

Lemma scanned_before_irrefl (i j : Z) : scanned_before i j i j = false.
Proof.
  unfold scanned_before. rewrite !Z.ltb_irrefl, andb_false_r. reflexivity.
Qed.

(** C5 (amended): the step updates the array in place.  The value a cell
    [(i, j)] holds after [cell_aut_step] is the transition rule applied to
    the mixed grid in which the cells visited before [(i, j)] (smaller
    [i], or the same [i] and smaller [j]) already hold their new value and
    all other cells their value from before the step. *)
Theorem cell_aut_step_in_place (arr : list Z) (i j : Z) :
  Z.of_nat (length arr) = side * side ->
  0 <= i < side -> 0 <= j < side ->
  xyarray_get (cell_aut_step ca arr side) side i j
  = cell_next ca side
      (mixed_grid arr (cell_aut_step ca arr side) side i j) i j.
Proof.
  intros Hlen Hi Hj.
  destruct (scan_cells_split i j Hi Hj)
    as (pre & post & Hcells & Hpre & Hpost).
  rewrite cell_aut_step_scan, Hcells, foldl_app. simpl.
  set (g1 := foldl (scan_step ca side) arr pre).
  assert (Hlen1 : length g1 = length arr) by apply length_foldl_step.
  assert (Hmixed :
    mixed_grid arr (foldl (scan_step ca side) (scan_step ca side g1 (i, j)) post) side i j = g1).
  { apply list_eq; intros k. unfold mixed_grid.
    rewrite list_lookup_imap.
    destruct (arr !! k) as [v|] eqn:Ek; simpl.
    - assert (Hk : (k < length arr)%nat)
        by (apply lookup_lt_is_Some; eauto).
      destruct (scanned_before i j (Z.of_nat k mod side)
                  (Z.of_nat k / side)) eqn:Esb.
      + change (foldl (scan_step ca side) (scan_step ca side g1 (i, j)) post)
          with (foldl (scan_step ca side) g1 ((i, j) :: post)).
        rewrite lookup_foldl_step_ne.
        * destruct (lookup_lt_is_Some_2 g1 k) as [w Hw]; [lia|].
          rewrite Hw. reflexivity.
        * intros a b Hin.
          assert (Hab : 0 <= a < side /\ 0 <= b < side
                        /\ scanned_before i j a b = false).
          { apply elem_of_cons in Hin as [Heq|Hin].
            - inversion Heq; subst.
              rewrite scanned_before_irrefl. lia.
            - destruct (Hpost a b Hin) as (? & ? & ? & _). auto. }
          destruct Hab as (Ha & Hb & Hsb). split; [exact Ha|].
          intros Hidx. destruct (cell_of_index k a b Ha Hidx) as [E1 E2].
          rewrite E1, E2 in Esb. congruence.
      + symmetry. unfold g1. rewrite lookup_foldl_step_ne; [exact Ek|].
        intros a b Hin. destruct (Hpre a b Hin) as (Ha & Hb & Hsb).
        split; [exact Ha|].
        intros Hidx. destruct (cell_of_index k a b Ha Hidx) as [E1 E2].
        rewrite E1, E2 in Esb. congruence.
    - symmetry. apply lookup_ge_None. rewrite Hlen1.
      apply lookup_ge_None. exact Ek. }
  rewrite Hmixed.
  rewrite xyarray_get_inside by assumption.
  rewrite <- (cell_aut_cell_next g1 i j) by (try assumption; lia).
  assert (Hidx : 0 <= j * side + i) by nia.
  unfold arr_load. destruct (j * side + i <? 0) eqn:E; [lia|].
  rewrite lookup_foldl_step_ne; [reflexivity|].
  intros a b Hin. destruct (Hpost a b Hin) as (Ha & Hb & _ & Hne).
  split; [exact Ha|]. rewrite Z2Nat.id by lia.
  intros Heq. apply Hne. assert (b = j) by nia. subst b. f_equal. lia.
Qed.
End automaton_step.

(** C5, as the claim states it, fails: on a 3x3 grid with two live cells
    the in-place step of the maze rule differs from the step computed from
    the previous grid (the cell [(1, 2)], index 7, is born only because its
    neighbours [(0, 1)] and [(1, 1)] were born earlier in the same step). *)
Lemma cell_aut_step_not_synchronous :
  cell_aut_step ca_test [4; 4; 0; 0; 0; 0; 0; 0; 0] 3
    = [3; 3; 4; 4; 4; 0; 0; 4; 4]
  /\ sync_step ca_test [4; 4; 0; 0; 0; 0; 0; 0; 0] 3
    = [3; 3; 0; 4; 4; 0; 0; 0; 0]
  /\ cell_aut_step ca_test [4; 4; 0; 0; 0; 0; 0; 0; 0] 3
    <> sync_step ca_test [4; 4; 0; 0; 0; 0; 0; 0; 0] 3.
Proof.
  split; [reflexivity|]. split; [reflexivity|].
  vm_compute. discriminate.
Qed.

Lemma cell_aut_step_in_place_witness :
  xyarray_get (cell_aut_step ca_test [4; 4; 0; 0; 0; 0; 0; 0; 0] 3) 3 1 2
  = cell_next ca_test 3
      (mixed_grid [4; 4; 0; 0; 0; 0; 0; 0; 0]
         (cell_aut_step ca_test [4; 4; 0; 0; 0; 0; 0; 0; 0] 3) 3 1 2) 1 2.
Proof.
  apply (cell_aut_step_in_place ca_test 3 [4; 4; 0; 0; 0; 0; 0; 0; 0] 1 2).
  - reflexivity.
  - lia.
  - lia.
Defined.

(** ** The generator monad *)

Lemma bind_Done {A B : Type} (m : M A) (k : A -> M B) (st : libc)
    (r : B * libc) :
  bind m k st = Done r ->
  exists a st', m st = Done (a, st') /\ k a st' = Done r.
Proof.
  unfold bind. destruct (m st) as [[a st']| | |]; try discriminate.
  intros Hk. exists a, st'. split; [reflexivity|exact Hk].
Qed.

Lemma bind_not_NoFuel {A B : Type} (m : M A) (k : A -> M B) (st : libc) :
  m st <> NoFuel ->
  (forall a st', m st = Done (a, st') -> k a st' <> NoFuel) ->
  bind m k st <> NoFuel.
Proof.
  unfold bind. intros Hm Hk. destruct (m st) as [[a st']| | |].
  - apply Hk. reflexivity.
  - discriminate.
  - discriminate.
  - exfalso. apply Hm. reflexivity.
Qed.

Lemma cdiv_Done (a b : Z) (st : libc) (r : Z * libc) :
  cdiv a b st = Done r -> b <> 0 /\ r = (Z.quot a b, st).
Proof.
  unfold cdiv. destruct (b =? 0) eqn:E.
  - discriminate.
  - unfold ret. intros Hr. inversion Hr. split; [lia|reflexivity].
Qed.

Lemma cdiv_not_NoFuel (a b : Z) (st : libc) : cdiv a b st <> NoFuel.
Proof. unfold cdiv. destruct (b =? 0); discriminate. Qed.

Lemma to_uint_small (v : Z) : 0 <= v < 2 ^ 32 -> to_uint v = v.
Proof. intros Hv. unfold to_uint. apply Z.mod_small. lia. Qed.

(** ** The log of the maze *)

Section print_row.
Variable arr : list Z.
Variable width : Z.
Variable j : Z.

(** A row is formatted without an access outside [ch] and [str] exactly
    if its cells hold values below 23 and their characters fit. *)
Lemma print_row_Done (n : nat) :
  forall (i p : Z) (st : libc) (r : Z * libc),
    for_each (seqZ i (Z.of_nat n))
      (fun i p =>
         if (xyarray_get arr width i j <? 23) && (p + 3 <=? 2048)
         then ret (p + 2) else out_of_bounds) p st = Done r ->
    r = (p + 2 * Z.of_nat n, st)
    /\ ((0 < n)%nat -> p + 2 * Z.of_nat n + 1 <= 2048)
    /\ (forall k, i <= k < i + Z.of_nat n ->
          xyarray_get arr width k j < 23).
Proof.
  induction n as [|n IH]; intros i p st r Hrun.
  - simpl in Hrun. unfold ret in Hrun. inversion Hrun.
    split; [f_equal; lia|]. split; [lia|]. intros k Hk. lia.
  - rewrite Nat2Z.inj_succ, seqZ_cons in Hrun by lia.
    rewrite Z.pred_succ in Hrun. cbn [for_each] in Hrun.
    apply bind_Done in Hrun as (p1 & st1 & Hcell & Hrun).
    destruct (Z.ltb_spec (xyarray_get arr width i j) 23) as [Hv|];
      [|discriminate].
    destruct (Z.leb_spec (p + 3) 2048) as [Hp|]; [|discriminate].
    simpl in Hcell. unfold ret in Hcell. inversion Hcell; subst p1 st1.
    apply IH in Hrun as (-> & Hfit & Hcells).
    split; [f_equal; lia|]. split.
    + intros _. destruct n as [|n]; [lia|]. specialize (Hfit ltac:(lia)).
      lia.
    + intros k Hk. destruct (Z.eq_dec k i) as [->|Hne]; [exact Hv|].
      apply Hcells. lia.
Qed.

Lemma print_row_ok (n : nat) :
  forall (i p : Z) (st : libc),
    ((0 < n)%nat -> p + 2 * Z.of_nat n + 1 <= 2048) ->
    (forall k, i <= k < i + Z.of_nat n -> xyarray_get arr width k j < 23) ->
    for_each (seqZ i (Z.of_nat n))
      (fun i p =>
         if (xyarray_get arr width i j <? 23) && (p + 3 <=? 2048)
         then ret (p + 2) else out_of_bounds) p st
    = Done (p + 2 * Z.of_nat n, st).
Proof.
  induction n as [|n IH]; intros i p st Hfit Hcells.
  - simpl. unfold ret. repeat f_equal. lia.
  - rewrite Nat2Z.inj_succ, seqZ_cons by lia.
    rewrite Z.pred_succ. cbn [for_each]. unfold bind at 1.
    destruct (Z.ltb_spec (xyarray_get arr width i j) 23) as [Hv|Hv];
      [|specialize (Hcells i ltac:(lia)); lia].
    destruct (Z.leb_spec (p + 3) 2048) as [Hp|Hp];
      [|specialize (Hfit ltac:(lia)); lia].
    simpl. unfold ret at 1. rewrite IH.
    + do 2 f_equal. lia.
    + intros Hn. specialize (Hfit ltac:(lia)). lia.
    + intros k Hk. apply Hcells. lia.
Qed.
End print_row.

Lemma xyarray_print_rows_Done (arr : list Z) (width : Z) (l : list Z) :
  forall (st : libc) (r : unit * libc),
    for_each l
      (fun j _ =>
         _ <- for_rangeM width (fun i p =>
                if (xyarray_get arr width i j <? 23) && (p + 3 <=? 2048)
                then ret (p + 2) else out_of_bounds) 0 ;;
         if width <=? 0 then out_of_bounds else ret tt) tt st = Done r ->
    r = (tt, st)
    /\ forall j, j ∈ l ->
         1 <= width <= 1023
         /\ forall i, 0 <= i < width -> xyarray_get arr width i j < 23.
Proof.
  induction l as [|j l IH]; intros st r Hrun.
  - simpl in Hrun. unfold ret in Hrun. inversion Hrun.
    split; [reflexivity|]. intros j Hj. apply elem_of_nil in Hj.
    destruct Hj.
  - cbn [for_each] in Hrun.
    apply bind_Done in Hrun as ([] & st1 & Hrow & Hrun).
    apply bind_Done in Hrow as (p & st2 & Hcells & Hrow).
    destruct (Z.leb_spec width 0) as [|Hw]; [discriminate|].
    unfold ret in Hrow. inversion Hrow; subst st2. clear Hrow.
    unfold for_rangeM in Hcells.
    rewrite <- (Z2Nat.id width) in Hcells at 1 by lia.
    apply print_row_Done in Hcells as (Hr & Hfit & Hlow).
    inversion Hr; subst st1. specialize (Hfit ltac:(lia)).
    apply IH in Hrun as (-> & Hrest).
    split; [reflexivity|]. intros j' Hj'.
    apply elem_of_cons in Hj' as [->|Hj']; [|apply Hrest, Hj'].
    split; [lia|]. intros i Hi. apply Hlow. lia.
Qed.

(** [xyarray_print] returns only for a grid whose rows fit [str] and
    whose cells hold values below 23, and it leaves the generators as
    they were. *)
Lemma xyarray_print_Done (arr : list Z) (width height : Z) (st : libc)
    (r : unit * libc) :
  xyarray_print arr width height st = Done r ->
  r = (tt, st)
  /\ (1 <= height ->
      1 <= width <= 1023
      /\ forall i j, 0 <= i < width -> 0 <= j < height ->
           xyarray_get arr width i j < 23).
Proof.
  unfold xyarray_print. unfold for_rangeM at 1. intros Hrun.
  apply xyarray_print_rows_Done in Hrun as [-> Hrows].
  split; [reflexivity|]. intros Hh.
  destruct (Hrows 0) as [Hw _]; [apply elem_of_seqZ; lia|].
  split; [exact Hw|]. intros i j' Hi Hj.
  apply (Hrows j'); [apply elem_of_seqZ; lia|exact Hi].
Qed.

Lemma xyarray_print_ok (arr : list Z) (width height : Z) (st : libc) :
  (1 <= height ->
   1 <= width <= 1023
   /\ forall i j, 0 <= i < width -> 0 <= j < height ->
        xyarray_get arr width i j < 23) ->
  xyarray_print arr width height st = Done (tt, st).
Proof.
  intros Hok. unfold xyarray_print. unfold for_rangeM at 1.
  assert (Hrows : forall j, j ∈ seqZ 0 height ->
            1 <= width <= 1023
            /\ forall i, 0 <= i < width -> xyarray_get arr width i j < 23).
  { intros j Hj. apply elem_of_seqZ in Hj.
    destruct (Hok ltac:(lia)) as [Hw Hcells]. split; [exact Hw|].
    intros i Hi. apply Hcells; lia. }
  clear Hok. induction (seqZ 0 height) as [|j l IH]; [reflexivity|].
  cbn [for_each]. unfold bind at 1. unfold bind at 1.
  destruct (Hrows j (list_elem_of_here _ _)) as [Hw Hcells].
  unfold for_rangeM. rewrite <- (Z2Nat.id width) at 1 by lia.
  rewrite print_row_ok.
  - destruct (Z.leb_spec width 0); [lia|]. unfold ret at 1.
    apply IH. intros j' Hj'. apply Hrows, list_elem_of_further, Hj'.
  - intros _. lia.
  - intros k Hk. apply Hcells. lia.
Qed.

(** The maze is only returned for a side below 1024: the log of a longer
    row does not fit [str]. *)
Lemma ca_gen_maze_side (ca : cell_automaton) (side steps : Z)
    (st st' : libc) (maze : list Z) :
  ca_gen_maze ca side steps st = Done (maze, st') -> side < 1024.
Proof.
  unfold ca_gen_maze. intros Hrun.
  apply bind_Done in Hrun as (arr & st1 & _ & Hrun).
  apply bind_Done in Hrun as ([] & st2 & Hprint & _).
  apply xyarray_print_Done in Hprint as [_ Hside].
  destruct (Z.le_gt_cases 1 side) as [H1|H1]; [|lia].
  destruct (Hside H1) as [Hw _]. lia.
Qed.

(** ** BSP: the split decision *)

Section bsp_split.
Context {F : Type} `{FloatOps F}.

(** C9 (amended): the stop conditions come first, and the aspect tests
    are integer divisions.  [bsp_needs_split] answers "no" whenever the
    node's width or height equals 2 (twice [BSP_MIN_WIDTH]) or the level
    exceeds 16, whatever the area and the level.  Otherwise it computes
    the truncated quotient [w / h], a division by zero when the height
    is 0, and answers "yes" if the quotient exceeds 4; else it computes
    [h / w], a division by zero when the width is 0, and answers "yes"
    exactly if that quotient exceeds 4, or the area exceeds the truncated
    quotient of the root's area by 4, or the level is below 3.  For
    non-negative [a] and positive [b] the quotient [a / b] exceeds 4
    exactly if [a] is at least [5 * b].  A run that returns leaves the
    generator state as it was. *)
Theorem bsp_needs_split_decision (top node parent : bsp_part F) (level : Z)
    (st : libc) :
  (node_w node = 2 \/ node_h node = 2 \/ level > 16 ->
   bsp_needs_split top node parent level st = Done (false, st))
  /\ (node_w node <> 2 -> node_h node <> 2 -> level <= 16 ->
      bsp_needs_split top node parent level st
      = if node_h node =? 0 then DivByZero
        else if Z.quot (node_w node) (node_h node) >? 4
             then Done (true, st)
             else if node_w node =? 0 then DivByZero
                  else Done ((Z.quot (node_h node) (node_w node) >? 4)
                             || (bsp_area node >? Z.quot (bsp_area top) 4)
                             || (level <? 3), st))
  /\ (forall a b : Z, 0 <= a -> 0 < b ->
        (Z.quot a b >? 4) = (5 * b <=? a)).
Proof.
  unfold bsp_needs_split, BSP_MIN_WIDTH. change (1 * 2) with 2.
  split; [|split].
  - intros Hstop.
    destruct (node_w node =? 2) eqn:Ew; [reflexivity|].
    destruct (node_h node =? 2) eqn:Eh; [reflexivity|].
    simpl. destruct (level >? 16) eqn:El; [reflexivity|]. lia.
  - intros Hw Hh Hl.
    destruct (node_w node =? 2) eqn:Ew; [lia|].
    destruct (node_h node =? 2) eqn:Eh; [lia|].
    simpl. destruct (level >? 16) eqn:El; [lia|].
    unfold bind, cdiv, trap, ret.
    destruct (node_h node =? 0) eqn:Eh0; [reflexivity|].
    destruct (Z.quot (node_w node) (node_h node) >? 4); [reflexivity|].
    destruct (node_w node =? 0) eqn:Ew0; [reflexivity|].
    destruct (Z.quot (node_h node) (node_w node) >? 4); [reflexivity|].
    destruct (bsp_area node >? Z.quot (bsp_area top) 4); [reflexivity|].
    destruct (level <? 3); reflexivity.
  - intros a b Ha Hb.
    pose proof (Z.quot_rem' a b) as Hq.
    pose proof (Z.rem_bound_pos a b Ha Hb) as Hr.
    destruct (Z.gtb_spec (Z.quot a b) 4), (Z.leb_spec (5 * b) a);
      try reflexivity; nia.
Qed.

Lemma bsp_needs_split_not_NoFuel (top node parent : bsp_part F) (level : Z)
    (st : libc) :
  bsp_needs_split top node parent level st <> NoFuel.
Proof.
  unfold bsp_needs_split, bind, cdiv, ret, trap.
  repeat match goal with
         | |- context [if ?b then _ else _] => destruct b
         end; discriminate.
Qed.

(** A "yes" is only given up to level 16, and it leaves the state. *)
Lemma bsp_needs_split_true (top node parent : bsp_part F) (level : Z)
    (st st' : libc) :
  bsp_needs_split top node parent level st = Done (true, st') ->
  level <= 16 /\ st' = st.
Proof.
  unfold bsp_needs_split, bind, cdiv, ret, trap.
  destruct (level >? 16) eqn:El;
  repeat match goal with
         | |- context [if ?b then _ else _] => destruct b
         end; intros Hr; inversion Hr; split; (lia || reflexivity).
Qed.

Lemma bsp_needs_split_state (top node parent : bsp_part F) (level : Z)
    (st st' : libc) (r : bool) :
  bsp_needs_split top node parent level st = Done (r, st') -> st' = st.
Proof.
  unfold bsp_needs_split, bind, cdiv, ret, trap.
  repeat match goal with
         | |- context [if ?b then _ else _] => destruct b
         end; intros Hr; inversion Hr; reflexivity.
Qed.
End bsp_split.

(** C9, as the claim states it, fails: under a root of 4 by 4 cells a
    child of 4 by 2 cells at level 0 is below level 3 and its area, 8,
    exceeds a quarter of the root's area, 4; both force conditions hold and
    it is not split, because its height equals 2. *)
Lemma bsp_needs_split_stop_first :
  let top : bsp_part (option Q) := bsp_fresh 0 0 4 4 in
  let node : bsp_part (option Q) := bsp_fresh 0 0 4 2 in
  (0 <? 3) = true
  /\ (bsp_area node >? Z.quot (bsp_area top) 4) = true
  /\ bsp_needs_split top node top 0 (QX.libc_at 0 0)
     = Done (false, QX.libc_at 0 0).
Proof. repeat split; reflexivity. Qed.

(** A node of 13 by 3 cells at level 5 under a root of 100 by 100 cells
    is not split: 13 / 3 is 4. *)
Lemma bsp_needs_split_decision_witness :
  let top8 : bsp_part (option Q) := bsp_fresh 0 0 8 8 in
  let node : bsp_part (option Q) := bsp_fresh 0 0 8 2 in
  let top100 : bsp_part (option Q) := bsp_fresh 0 0 100 100 in
  let slim : bsp_part (option Q) := bsp_fresh 0 0 13 3 in
  bsp_needs_split top8 node top8 0 (QX.libc_at 0 0)
  = Done (false, QX.libc_at 0 0)
  /\ bsp_needs_split top100 slim top100 5 (QX.libc_at 0 0)
     = Done (false, QX.libc_at 0 0).
Proof.
  intros top8 node top100 slim. split.
  - apply (proj1 (bsp_needs_split_decision top8 node top8 0
                    (QX.libc_at 0 0))).
    right; left. reflexivity.
  - etransitivity.
    + apply (proj1 (proj2 (bsp_needs_split_decision top100 slim top100 5
                             (QX.libc_at 0 0))));
        [simpl; lia|simpl; lia|lia].
    + reflexivity.
Defined.

(** ** BSP: the tiling invariant *)

Lemma to_int_small (v : Z) : - 2 ^ 31 <= v < 2 ^ 31 -> to_int v = v.
Proof. intros Hv. unfold to_int. rewrite Z.mod_small; lia. Qed.

Section bsp_tiling.
Context {F : Type} {ops : FloatOps F} {laws : FloatLaws F}.

(** With a side of at least one cell the cut falls within the side. *)
Lemma bsp_cut_range (frac : F) (len : Z) :
  1 <= len < 2 ^ 31 -> 0 <= bsp_cut frac len <= len.
Proof.
  intros Hlen. unfold bsp_cut, Fmin, Fmax, BSP_MIN_WIDTH.
  destruct (Flt _ (F_of_Z (len - 1))) eqn:Ehi.
  - destruct (Flt (F_of_Z 1) _) eqn:Elo.
    + pose proof (F2int_between _ 1 (len - 1)
                    ltac:(lia) ltac:(lia) Elo Ehi). lia.
    + rewrite F2int_of_Z by lia. lia.
  - rewrite F2int_of_Z by lia. lia.
Qed.

Lemma same_rect_trans (n m p : bsp_part F) :
  same_rect n m -> same_rect m p -> same_rect n p.
Proof.
  unfold same_rect. intros (? & ? & ? & ?) (? & ? & ? & ?).
  repeat split; congruence.
Qed.

Lemma same_rect_area (n m : bsp_part F) :
  same_rect n m -> bsp_area n = bsp_area m.
Proof. intros (_ & _ & Hw & Hh). unfold bsp_area. rewrite Hw, Hh. reflexivity. Qed.

Lemma same_rect_within (n m : bsp_part F) (px py : Z) :
  same_rect n m -> bsp_within_rect n px py = bsp_within_rect m px py.
Proof.
  intros (Hx & Hy & Hw & Hh). unfold bsp_within_rect.
  rewrite Hx, Hy, Hw, Hh. reflexivity.
Qed.

Lemma drand48_Done (st : libc) :
  exists (v : F) st', drand48 st = Done (v, st').
Proof. unfold drand48, bind, drand48_bits, ret. eauto. Qed.

Lemma terrain_bsp_cb_Done (node : bsp_part F) (level : Z) (st : libc) :
  exists amp oct st',
    terrain_bsp_cb node level st
    = Done (bsp_leaf (node_x node) (node_y node) (node_w node)
              (node_h node) amp oct, st').
Proof.
  unfold terrain_bsp_cb, drand48, bind, drand48_bits, rand, ret. eauto.
Qed.

Local Ltac inv_bind Hrun :=
  let a := fresh "a" in
  let st := fresh "st" in
  let Hm := fresh "Hm" in
  apply bind_Done in Hrun as (a & st & Hm & Hrun).

Local Ltac rect_cases :=
  repeat match goal with
         | |- context [?a >=? ?b] => destruct (Z.geb_spec a b)
         | |- context [?a <? ?b] => destruct (Z.ltb_spec a b)
         end; simpl; try reflexivity; lia.

(** The two rectangles of a split tile the rectangle they come from. *)
Lemma split_tiles (vertical : bool) (x y w h cut wmax hmax : Z)
    (n a b : bsp_part F) :
  0 <= w <= wmax -> 0 <= h <= hmax -> wmax * hmax < 2 ^ 31 ->
  (if vertical then 0 <= cut <= w else 0 <= cut <= h) ->
  same_rect n (bsp_fresh x y w h) ->
  same_rect a (if vertical then bsp_fresh x y cut h
               else bsp_fresh x y w cut) ->
  same_rect b (if vertical then bsp_fresh (x + cut) y (w - cut) h
               else bsp_fresh x (y + cut) w (h - cut)) ->
  bsp_area a + bsp_area b = bsp_area n
  /\ (forall px py,
        bsp_within_rect n px py
        = xorb (bsp_within_rect a px py) (bsp_within_rect b px py)).
Proof.
  intros Hw Hh HWH Hcut Hn Ha Hb. split.
  - rewrite (same_rect_area _ _ Hn), (same_rect_area _ _ Ha),
      (same_rect_area _ _ Hb).
    destruct vertical; unfold bsp_area; simpl;
      rewrite !to_int_small by nia; ring.
  - intros px py.
    rewrite (same_rect_within _ _ px py Hn),
      (same_rect_within _ _ px py Ha), (same_rect_within _ _ px py Hb).
    destruct vertical; unfold bsp_within_rect; simpl; rect_cases.
Qed.

Lemma bsp_part_one_tiled (wmax hmax : Z) (top : bsp_part F) :
  wmax * hmax < 2 ^ 31 -> wmax < 2 ^ 31 -> hmax < 2 ^ 31 ->
  forall (fuel : nat) (root : bsp_part F) (level : Z) (st st' : libc)
         (t : bsp_part F),
    0 <= node_w root <= wmax -> 0 <= node_h root <= hmax ->
    bsp_part_one fuel terrain_bsp_cb top root level st = Done (t, st') ->
    same_rect t root /\ bsp_tiled t.
Proof.
  intros HWH HW HH.
  induction fuel as [|fuel IH]; intros root level st st' t Hw Hh Hrun.
  - discriminate.
  - cbn [bsp_part_one] in Hrun.
    apply bind_Done in Hrun as (frac & st1 & Hfrac & Hrun).
    apply bind_Done in Hrun as (q1 & st2 & Hq1 & Hrun).
    apply cdiv_Done in Hq1 as [Hh0 Hq1]. inversion Hq1; subst q1 st2.
    apply bind_Done in Hrun as (vertical & st3 & Hvert & Hrun).
    assert (Hw0 : node_w root <> 0).
    { destruct (Z.quot (node_w root) (node_h root) >? 4) eqn:Eq1.
      - intros Hz. rewrite Hz, Z.quot_0_l in Eq1 by assumption.
        discriminate.
      - apply bind_Done in Hvert as (q2 & st2 & Hq2 & _).
        apply cdiv_Done in Hq2 as [Hnz _]. exact Hnz. }
    clear Hvert Hq1.
    set (fr := clampd frac _ _) in Hrun.
    set (cut := if vertical then bsp_cut fr (node_w root)
                else bsp_cut fr (node_h root)).
    assert (Hcut : if vertical then 0 <= cut <= node_w root
                   else 0 <= cut <= node_h root).
    { unfold cut. destruct vertical; apply bsp_cut_range; lia. }
    set (a0 := if vertical then bsp_fresh _ _ _ _ else _) in Hrun.
    set (b0 := if vertical then bsp_fresh (_ + node_w a0) _ _ _ else _)
      in Hrun.
    assert (Ha0 : same_rect a0
              (if vertical
               then bsp_fresh (node_x root) (node_y root) cut (node_h root)
               else bsp_fresh (node_x root) (node_y root) (node_w root)
                      cut)).
    { unfold a0, cut. destruct vertical; repeat split. }
    assert (Hb0 : same_rect b0
              (if vertical
               then bsp_fresh (node_x root + cut) (node_y root)
                      (node_w root - cut) (node_h root)
               else bsp_fresh (node_x root) (node_y root + cut)
                      (node_w root) (node_h root - cut))).
    { unfold b0, a0, cut. destruct vertical; repeat split. }
    assert (Hchild : forall (c0 c : bsp_part F) (split : bool) s s',
              0 <= node_w c0 <= wmax -> 0 <= node_h c0 <= hmax ->
              (if split
               then bsp_part_one fuel terrain_bsp_cb top c0 (level + 1)
               else terrain_bsp_cb c0 level) s = Done (c, s') ->
              same_rect c c0 /\ bsp_tiled c).
    { intros c0 c split s s' Hcw Hch Hc. destruct split.
      - apply (IH c0 (level + 1) s s' c); assumption.
      - destruct (terrain_bsp_cb_Done c0 level s) as (amp & oct & s2 & E).
        rewrite E in Hc. inversion Hc; subst.
        split; [repeat split|exact I]. }
    apply bind_Done in Hrun as (split_a & st4 & _ & Hrun).
    apply bind_Done in Hrun as (a & st5 & Ha & Hrun).
    apply bind_Done in Hrun as (split_b & st6 & _ & Hrun).
    apply bind_Done in Hrun as (b & st7 & Hb & Hrun).
    unfold ret in Hrun. inversion Hrun; subst t st7. clear Hrun.
    assert (Ha0w : 0 <= node_w a0 <= wmax /\ 0 <= node_h a0 <= hmax).
    { destruct Ha0 as (_ & _ & -> & ->). destruct vertical; simpl; lia. }
    assert (Hb0w : 0 <= node_w b0 <= wmax /\ 0 <= node_h b0 <= hmax).
    { destruct Hb0 as (_ & _ & -> & ->). destruct vertical; simpl; lia. }
    apply Hchild in Ha as [Hra Hta]; [|apply Ha0w..].
    apply Hchild in Hb as [Hrb Htb]; [|apply Hb0w..].
    split; [repeat split|].
    assert (Hsa : same_rect a
              (if vertical
               then bsp_fresh (node_x root) (node_y root) cut (node_h root)
               else bsp_fresh (node_x root) (node_y root) (node_w root)
                      cut)).
    { apply (same_rect_trans _ a0); assumption. }
    assert (Hsb : same_rect b
              (if vertical
               then bsp_fresh (node_x root + cut) (node_y root)
                      (node_w root - cut) (node_h root)
               else bsp_fresh (node_x root) (node_y root + cut)
                      (node_w root) (node_h root - cut))).
    { apply (same_rect_trans _ b0); assumption. }
    destruct (split_tiles vertical (node_x root) (node_y root)
                (node_w root) (node_h root) cut wmax hmax
                (bsp_node (node_x root) (node_y root) (node_w root)
                   (node_h root) (node_amp root) (node_oct root) a b)
                a b Hw Hh HWH Hcut ltac:(repeat split) Hsa Hsb)
      as [Harea Hxor].
    cbn [bsp_tiled]. auto.
Qed.

(** Eighteen levels of recursion are enough: a node is only split
    further up to level 16. *)
Lemma bsp_part_one_fuel (top : bsp_part F) :
  forall (fuel : nat) (root : bsp_part F) (level : Z) (st : libc),
    level <= 17 -> (Z.to_nat (18 - level) <= fuel)%nat ->
    bsp_part_one fuel terrain_bsp_cb top root level st <> NoFuel.
Proof.
  induction fuel as [|fuel IH]; intros root level st Hl Hfuel; [lia|].
  assert (Hchild : forall (c0 parent : bsp_part F) (split : bool) s s',
            bsp_needs_split top c0 parent level s = Done (split, s') ->
            (if split
             then bsp_part_one fuel terrain_bsp_cb top c0 (level + 1)
             else terrain_bsp_cb c0 level) s' <> NoFuel).
  { intros c0 parent [|] s s' Hsplit.
    - apply bsp_needs_split_true in Hsplit as [Hl16 _]. apply IH; lia.
    - destruct (terrain_bsp_cb_Done c0 level s') as (? & ? & ? & E).
      rewrite E. discriminate. }
  cbn [bsp_part_one].
  apply bind_not_NoFuel.
  { destruct (drand48_Done st) as (? & ? & E). rewrite E. discriminate. }
  intros frac st1 _.
  apply bind_not_NoFuel; [apply cdiv_not_NoFuel|]. intros q1 st2 _.
  apply bind_not_NoFuel.
  { destruct (q1 >? 4); [discriminate|].
    apply bind_not_NoFuel; [apply cdiv_not_NoFuel|]. intros q2 st3 _.
    destruct (q2 >? 4); discriminate. }
  intros vertical st3 _.
  apply bind_not_NoFuel; [apply bsp_needs_split_not_NoFuel|].
  intros split_a st4 Hsa.
  apply bind_not_NoFuel; [exact (Hchild _ _ _ _ _ Hsa)|].
  intros a st5 _.
  apply bind_not_NoFuel; [apply bsp_needs_split_not_NoFuel|].
  intros split_b st6 Hsb.
  apply bind_not_NoFuel; [exact (Hchild _ _ _ _ _ Hsb)|].
  intros b st7 _. discriminate.
Qed.

(** C8: in a tree built by [bsp_process] every internal node has
    children whose areas add up to its own area exactly and whose
    rectangles tile its rectangle, with neither gap nor overlap; the
    root rectangle has non-negative sides and an area that fits an
    [int].  With a budget of 18 levels the model never runs out of
    fuel, so the statement covers every run that returns. *)
Theorem bsp_process_tiled (fuel : nat) (seed depth x y w h : Z)
    (st : libc) :
  0 <= w < 2 ^ 31 -> 0 <= h < 2 ^ 31 -> w * h < 2 ^ 31 ->
  (18 <= fuel)%nat ->
  bsp_process fuel seed depth x y w h terrain_bsp_cb st <> NoFuel
  /\ (forall (t : bsp_part F) (st' : libc),
        bsp_process fuel seed depth x y w h terrain_bsp_cb st
        = Done (t, st') ->
        bsp_tiled t).
Proof.
  intros Hw Hh Hwh Hfuel. unfold bsp_process. split.
  - apply bind_not_NoFuel; [discriminate|]. intros [] st1 _.
    apply bsp_part_one_fuel; lia.
  - intros t st' Hrun.
    apply bind_Done in Hrun as ([] & st1 & _ & Hrun).
    apply (bsp_part_one_tiled w h) in Hrun; simpl; try lia.
    apply Hrun.
Qed.
End bsp_tiling.

(** ** Exact arithmetic obeys the laws *)

Lemma quot_between (n d lo hi : Z) :
  0 < d -> lo * d < n -> n < hi * d -> lo <= Z.quot n d <= hi.
Proof.
  intros Hd Hlo Hhi. pose proof (Z.quot_rem' n d) as Hqr.
  destruct (Z.le_gt_cases 0 n) as [Hn|Hn].
  - pose proof (Z.rem_bound_pos n d Hn Hd). nia.
  - pose proof (Z.rem_bound_pos (- n) d ltac:(lia) Hd) as Hr.
    rewrite Z.rem_opp_l in Hr by lia. nia.
Qed.

Lemma Qred_inject_Z (k : Z) : Qred (inject_Z k) = inject_Z k.
Proof.
  apply Qcanon.Qred_identity. unfold inject_Z. simpl. apply Z.gcd_1_r.
Qed.

Lemma QX_lt_spec (x y : Q) : QX.Qlt_bool x y = true <-> (x < y)%Q.
Proof. unfold QX.Qlt_bool, Qlt. apply Z.ltb_lt. Qed.

#[global] Instance QX_laws : FloatLaws (option Q).
Proof.
  split.
  - intros k _. unfold F_of_Z. simpl. rewrite Qred_inject_Z.
    unfold QX.Qtrunc. simpl. apply Z.quot_1_r.
  - intros a lo hi _ _. unfold F_of_Z. simpl. rewrite !Qred_inject_Z.
    destruct a as [x|]; simpl; [|discriminate].
    intros Hlo Hhi. apply QX_lt_spec in Hlo. apply QX_lt_spec in Hhi.
    unfold Qlt in Hlo, Hhi. simpl in Hlo, Hhi.
    unfold QX.Qtrunc. apply quot_between; lia.
  - intros p q Hpq. simpl. apply Qle_bool_iff.
    rewrite !Qred_correct. exact Hpq.
  - intros [x|] [y|]; simpl; try discriminate.
    intros Hxy. apply Qle_bool_iff in Hxy. apply Qle_bool_iff.
    rewrite !Qred_correct. apply Qmult_le_compat_r; [exact Hxy|].
    discriminate.
  - intros [x|] [y|]; simpl; try discriminate.
    intros Hxy. apply Qle_bool_iff in Hxy. apply Qle_bool_iff.
    rewrite !Qred_correct. unfold Qminus. apply Qplus_le_l. exact Hxy.
  - intros a b Hab. exact Hab.
  - intros k _. reflexivity.
  - intros j k _ _ _. unfold F_of_Z. simpl. f_equal. apply Qred_complete.
    rewrite !Qred_correct. unfold inject_Z, Qeq, Qmult. simpl. lia.
  - intros j k _ _. unfold F_of_Z. simpl. f_equal. apply Qred_complete.
    rewrite !Qred_correct. unfold inject_Z, Qeq, Qminus, Qplus, Qopp.
    simpl. lia.
Qed.

Lemma bsp_process_tiled_witness :
  exists (t : bsp_part (option Q)) (st' : libc),
    bsp_process 18 42 3 0 0 8 8 terrain_bsp_cb (QX.libc_at 0 0)
    = Done (t, st')
    /\ bsp_tiled t.
Proof.
  destruct (bsp_process 18 42 3 0 0 8 8 terrain_bsp_cb (QX.libc_at 0 0))
    as [[t st']| | |] eqn:Erun; [|vm_compute in Erun; discriminate..].
  exists t, st'. split; [reflexivity|].
  apply (proj2 (bsp_process_tiled 18 42 3 0 0 8 8 (QX.libc_at 0 0)
                  ltac:(lia) ltac:(lia) ltac:(lia) ltac:(lia)) t st' Erun).
Defined.

(** ** Seed heights *)

Lemma rand48_next_range (X : Z) : 0 <= rand48_next X < 2 ^ 48.
Proof. unfold rand48_next. apply Z.mod_pos_bound. lia. Qed.

Section seed_height.
Context {F : Type} {ops : FloatOps F} {laws : FloatLaws F}.

(** The value [drand48() * 2 - 1] stored in a [float] lies in [-1, 1]. *)
Lemma rand_height_range (bits : Z) :
  0 <= bits < 2 ^ 48 ->
  let v := Fsingle (F_of_Q (bits # 281474976710656) * F_of_Z 2
                    - F_of_Z 1)%D in
  Fle (F_of_Z (-1)) v = true /\ Fle v (F_of_Z 1) = true.
Proof.
  intros Hbits v. unfold v. split.
  - rewrite <- (Fsingle_of_Z (-1)) by lia.
    apply Fle_single.
    replace (F_of_Z (-1)) with ((F_of_Z 0 * F_of_Z 2) - F_of_Z 1)%D.
    + apply Fle_sub_1, Fle_mul_2. unfold F_of_Z. apply Fle_of_Q.
      unfold Qle, inject_Z. simpl. lia.
    + rewrite Fmul_of_Z by lia. rewrite Fsub_of_Z by lia. reflexivity.
  - rewrite <- (Fsingle_of_Z 1) at 2 by lia.
    apply Fle_single.
    replace (F_of_Z 1) with ((F_of_Z 1 * F_of_Z 2) - F_of_Z 1)%D at 2.
    + apply Fle_sub_1, Fle_mul_2. unfold F_of_Z. apply Fle_of_Q.
      unfold Qle, inject_Z. simpl. lia.
    + rewrite Fmul_of_Z by lia. rewrite Fsub_of_Z by lia. reflexivity.
Qed.

(** C10: [get_rand_height] is a function of the terrain seed and the
    coordinates alone.  From any two states of the generators (whatever
    was drawn before) and for terrains of the same seed it returns the
    same value, which lies in [-1, 1], and it leaves the [drand48]
    generator in the same state. *)
Theorem get_rand_height_pure (t1 t2 : terrain F) (x z : Z)
    (st1 st2 : libc) :
  t_seed t1 = t_seed t2 ->
  exists (v : F) (st1' st2' : libc),
    get_rand_height t1 x z st1 = Done (v, st1')
    /\ get_rand_height t2 x z st2 = Done (v, st2')
    /\ X48 st1' = X48 st2'
    /\ Fle (F_of_Z (-1)) v = true /\ Fle v (F_of_Z 1) = true.
Proof.
  intros Hseed.
  unfold get_rand_height, bind, srand48, drand48, bind, drand48_bits, ret.
  simpl. rewrite Hseed.
  eexists _, _, _. split; [reflexivity|]. split; [reflexivity|].
  split; [reflexivity|].
  apply rand_height_range, rand48_next_range.
Qed.
End seed_height.

Lemma get_rand_height_pure_witness :
  let t : terrain (option Q) :=
    {| t_seed := 42; t_map := None; t_map0 := None; t_x := Some 0%Q;
       t_y := Some 0%Q; t_z := Some 0%Q; t_side := 128; t_nr_vert := 65 |} in
  exists (v : option Q) (st1' st2' : libc),
    get_rand_height t 5 14 (QX.libc_at 0 0) = Done (v, st1')
    /\ get_rand_height t 5 14 (QX.libc_at 123456789 7) = Done (v, st2')
    /\ X48 st1' = X48 st2'
    /\ Fle (F_of_Z (-1)) v = true /\ Fle v (F_of_Z 1) = true.
Proof.
  intros t.
  exact (get_rand_height_pure t t 5 14 (QX.libc_at 0 0)
           (QX.libc_at 123456789 7) eq_refl).
Defined.

(** ** Height queries *)

Section height_query.
Context {F : Type} {ops : FloatOps F}.

(** The bounds test of the code: when
    [x < t->x || x > t->x + t->side || z < t->z || z > t->z + t->side]
    holds, the sums being [float] sums, the result is the value 0. *)
Lemma terrain_height_guarded (t : terrain F) (x z : F) :
  terrain_outside t x z = true ->
  terrain_height t x z = Some (S_of_Z 0).
Proof.
  intros Hout. unfold terrain_height.
  destruct (terrain_grid t x z) as [gridx gridz].
  destruct (t_map t) as [m|]; [|reflexivity].
  rewrite Hout. reflexivity.
Qed.

(** An accepted query whose grid row is the last one, [nr_vert - 1], reads
    [map[(gridx + 1) * nr_vert + gridz]], which lies past the end of the
    array of [nr_vert * nr_vert] elements, in either triangle. *)
Lemma terrain_height_last_row (t : terrain F) (m : list F) (x z : F)
    (gridz : Z) :
  t_map t = Some m ->
  Z.of_nat (length m) = t_nr_vert t * t_nr_vert t ->
  1 <= t_nr_vert t < 2 ^ 16 ->
  terrain_outside t x z = false ->
  terrain_grid t x z = (t_nr_vert t - 1, gridz) -> 0 <= gridz < t_nr_vert t ->
  terrain_height t x z = None.
Proof.
  intros Hmap Hlen Hn Hin Hgrid Hgz. unfold terrain_height.
  rewrite Hgrid, Hmap, Hin.
  assert (Hpast : forall k, t_nr_vert t * t_nr_vert t <= k < 2 ^ 32 ->
            map_read m k = None).
  { intros k Hk. unfold map_read, to_uint. rewrite Z.mod_small by lia.
    apply lookup_ge_None. lia. }
  destruct (Fle _ _); unfold triangle_indices.
  - rewrite (Hpast ((t_nr_vert t - 1 + 1) * t_nr_vert t + gridz)) by nia.
    destruct (map_read m ((t_nr_vert t - 1) * t_nr_vert t + gridz));
      reflexivity.
  - rewrite (Hpast ((t_nr_vert t - 1 + 1) * t_nr_vert t + gridz)) by nia.
    reflexivity.
Qed.
End height_query.

Lemma QX_add_of_Z (j k : Z) :
  QX.lift2 Qplus (Some (Qred (inject_Z j))) (Some (Qred (inject_Z k)))
  = Some (Qred (inject_Z (j + k))).
Proof.
  simpl. f_equal. apply Qred_complete. rewrite !Qred_correct.
  unfold inject_Z, Qeq, Qplus. simpl. lia.
Qed.

#[global] Instance QX_sums : FloatSums (option Q).
Proof.
  split.
  - intros k _. reflexivity.
  - intros j k _ _. apply QX_add_of_Z.
Qed.

(** *** Rounding to [float] keeps the integers up to [2 ^ 24] *)

Lemma round_even_exact (n : Z) : QR.round_even n 1 = n.
Proof.
  unfold QR.round_even. rewrite Z.div_1_r, Z.mod_1_r. reflexivity.
Qed.

Lemma round_pos_int (n : Z) :
  0 < n <= 2 ^ 24 ->
  exists m e : Z,
    QR.round_pos n 1 = (m, e)
    /\ - 23 <= e <= 1
    /\ (0 <= e -> m * 2 ^ e = n)
    /\ (e < 0 -> m = n * 2 ^ (- e)).
Proof.
  intros Hn. unfold QR.round_pos, QR.floor_log2.
  change (Z.log2 1) with 0. rewrite Z.sub_0_r.
  pose proof (Z.log2_nonneg n) as Hl0.
  pose proof (Z.log2_spec n ltac:(lia)) as [Hlo Hhi].
  assert (Hl24 : Z.log2 n <= 24).
  { destruct (Z.le_gt_cases (Z.log2 n) 24) as [Hle|Hgt]; [exact Hle|].
    pose proof (Z.pow_le_mono_r 2 25 (Z.log2 n) ltac:(lia) ltac:(lia)).
    lia. }
  rewrite (Z.max_r 0 (Z.log2 n)) by lia.
  rewrite (Z.max_l 0 (- Z.log2 n)) by lia.
  change (2 ^ 0) with 1. rewrite Z.mul_1_r.
  destruct (Z.leb_spec (1 * 2 ^ Z.log2 n) n) as [_|Hc]; [|lia].
  rewrite Z.max_l by lia.
  set (e := Z.log2 n - 23).
  destruct (Z.leb_spec 0 e) as [He|He].
  - assert (Hcases : e = 0 \/ e = 1) by lia.
    destruct Hcases as [E|E]; rewrite E.
    + eexists _, _. split; [reflexivity|].
      change (1 * Z.to_pos (2 ^ 0))%positive with 1%positive.
      rewrite round_even_exact. split; [lia|]. split; intros; lia.
    + assert (Hn24 : n = 2 ^ 24).
      { assert (Z.log2 n = 24) by lia.
        replace (Z.log2 n) with 24 in Hlo by lia. lia. }
      subst n. eexists _, _. split; [reflexivity|].
      split; [lia|]. split; [intros _; reflexivity|intros; lia].
  - eexists _, _. split; [reflexivity|].
    rewrite round_even_exact.
    split; [unfold e; lia|]. split; intros; [lia|reflexivity].
Qed.

Lemma scale_int (n m e : Z) :
  0 < n <= 2 ^ 24 -> - 23 <= e <= 1 ->
  (0 <= e -> m * 2 ^ e = n) -> (e < 0 -> m = n * 2 ^ (- e)) ->
  Qred (QR.scale m e) = inject_Z n
  /\ Qred (- QR.scale m e) = inject_Z (- n)
  /\ m * 2 ^ Z.max 0 e < 2 ^ 128.
Proof.
  intros Hn He Hpos Hneg. unfold QR.scale.
  destruct (Z.leb_spec 0 e) as [H0|H0].
  - rewrite (Hpos H0), Z.max_r by lia.
    split; [apply Qred_inject_Z|]. split.
    + rewrite <- (Qred_inject_Z (- n)). apply Qred_complete.
      unfold Qeq, Qopp, inject_Z. simpl. lia.
    + lia.
  - rewrite (Hneg H0), Z.max_l by lia.
    assert (Hp : 0 < 2 ^ (- e)) by (apply Z.pow_pos_nonneg; lia).
    assert (Hp23 : 2 ^ (- e) <= 2 ^ 23).
    { apply Z.pow_le_mono_r; lia. }
    split; [|split].
    + rewrite <- (Qred_inject_Z n). apply Qred_complete.
      unfold Qeq, inject_Z. simpl. rewrite Z2Pos.id by lia. lia.
    + rewrite <- (Qred_inject_Z (- n)). apply Qred_complete.
      unfold Qeq, Qopp, inject_Z. simpl. rewrite Z2Pos.id by lia. lia.
    + change (2 ^ 0) with 1. nia.
Qed.

Lemma QR_single_int (k : Z) :
  - 2 ^ 24 <= k <= 2 ^ 24 ->
  QR.single (Some (inject_Z k)) = Some (inject_Z k).
Proof.
  intros Hk. unfold QR.single.
  change (Qnum (inject_Z k)) with k.
  change (Qden (inject_Z k)) with 1%positive.
  destruct k as [|n|n]; [reflexivity| |].
  - destruct (round_pos_int (Z.pos n) ltac:(lia))
      as (m & e & -> & He & Hpos & Hneg).
    destruct (scale_int (Z.pos n) m e ltac:(lia) He Hpos Hneg)
      as (Hs & _ & Hfit).
    destruct (Z.leb_spec (2 ^ 128) (m * 2 ^ Z.max 0 e)); [lia|].
    rewrite Hs. reflexivity.
  - destruct (round_pos_int (Z.pos n) ltac:(lia))
      as (m & e & -> & He & Hpos & Hneg).
    destruct (scale_int (Z.pos n) m e ltac:(lia) He Hpos Hneg)
      as (_ & Hs & Hfit).
    destruct (Z.leb_spec (2 ^ 128) (m * 2 ^ Z.max 0 e)); [lia|].
    rewrite Hs. reflexivity.
Qed.

(** Arithmetic that rounds to [float] has the two facts as well. *)
Lemma QR_sums : @FloatSums (option Q) QR.ops.
Proof.
  split.
  - intros k Hk. unfold F_of_Z. simpl. rewrite Qred_inject_Z.
    apply QR_single_int, Hk.
  - intros j k _ _. apply QX_add_of_Z.
Qed.

Section height_query_rectangle.
Context {F : Type} {ops : FloatOps F} {sums : FloatSums F}.

(** With an integer origin and sums of magnitude up to [2 ^ 24] the
    upper edges that the code computes are the exact ones. *)
Lemma terrain_edge_exact (o side : Z) :
  - 2 ^ 24 <= o -> 0 <= side <= 2 ^ 24 -> o + side <= 2 ^ 24 ->
  (F_of_Z o + S_of_Z side)%S = F_of_Z (o + side).
Proof.
  intros Ho Hside Hsum. unfold Sadd, S_of_Z.
  rewrite (Fsingle_int side) by lia.
  rewrite Fadd_of_Z by lia. apply Fsingle_int. lia.
Qed.

(** C7 (amended): the rectangle of the bounds test has rounded upper
    edges.  [terrain_height] returns the value 0 whenever the test of
    the code holds, in which the upper edges are the [float] sums
    [t->x + t->side] and [t->z + t->side].  For an origin with integer
    coordinates, a side up to [2 ^ 24] and sums of magnitude up to
    [2 ^ 24] these sums are exact, and every query strictly outside the rectangle
    [[ox, ox + side] x [oz, oz + side]] returns 0. *)
Theorem terrain_height_outside (t : terrain F) (x z : F) :
  (terrain_outside t x z = true ->
   terrain_height t x z = Some (S_of_Z 0))
  /\ forall ox oz : Z,
       t_x t = F_of_Z ox -> t_z t = F_of_Z oz ->
       - 2 ^ 24 <= ox -> - 2 ^ 24 <= oz -> 0 <= t_side t <= 2 ^ 24 ->
       ox + t_side t <= 2 ^ 24 -> oz + t_side t <= 2 ^ 24 ->
       Flt x (F_of_Z ox) = true
       \/ Flt (F_of_Z (ox + t_side t)) x = true
       \/ Flt z (F_of_Z oz) = true
       \/ Flt (F_of_Z (oz + t_side t)) z = true ->
       terrain_height t x z = Some (S_of_Z 0).
Proof.
  split; [apply terrain_height_guarded|].
  intros ox oz Hx Hz Hox Hoz Hside Hsx Hsz Hout.
  apply terrain_height_guarded. unfold terrain_outside.
  rewrite Hx, Hz, !terrain_edge_exact by assumption.
  destruct Hout as [E|[E|[E|E]]]; rewrite E;
    rewrite ?orb_true_r; reflexivity.
Qed.
End height_query_rectangle.

(** In the arithmetic that rounds to [float]: with the origin
    [z = 16777213] and the side 3 the upper edge is [2 ^ 24], and the
    query [z = 16777218] beyond it returns 0. *)
Lemma terrain_height_outside_witness :
  let t : terrain (option Q) :=
    {| t_seed := 42; t_map := Some [Some 2%Q; Some 2%Q; Some 2%Q; Some 2%Q];
       t_map0 := None; t_x := Some 0%Q; t_y := Some 0%Q;
       t_z := Some 16777213%Q; t_side := 3; t_nr_vert := 2 |} in
  @terrain_height _ QR.ops t (Some 0%Q) (Some 16777218%Q)
  = Some (@S_of_Z _ QR.ops 0).
Proof.
  intros t.
  apply (proj2 (@terrain_height_outside _ QR.ops QR_sums t (Some 0%Q)
                  (Some 16777218%Q)) 0 16777213);
    [reflexivity|reflexivity|lia|lia|simpl; lia|simpl; lia|simpl; lia|].
  right; right; right. reflexivity.
Defined.

(** C7, as the claim states it, fails where the sum [t->z + t->side]
    is rounded.  With the origin [z = 2 ^ 24] and the side 3 the upper
    edge 16777219 is no [float]: the sum is rounded to 16777220.  The
    query [z = 16777220] lies strictly beyond the edge, passes the test
    [z > t->z + t->side], and gets the height 2 from a map of heights 2,
    not the value 0. *)
Lemma terrain_height_rounded_edge :
  let t : terrain (option Q) :=
    {| t_seed := 0; t_map := Some [Some 2%Q; Some 2%Q; Some 2%Q; Some 2%Q];
       t_map0 := None; t_x := Some 0%Q; t_y := Some 0%Q;
       t_z := Some 16777216%Q; t_side := 3; t_nr_vert := 2 |} in
  (16777216 + 3 < 16777220)%Q
  /\ @Sadd _ QR.ops (t_z t) (@S_of_Z _ QR.ops (t_side t))
     = Some 16777220%Q
  /\ @terrain_outside _ QR.ops t (Some 0%Q) (Some 16777220%Q) = false
  /\ @terrain_height _ QR.ops t (Some 0%Q) (Some 16777220%Q)
     = Some (Some 2%Q).
Proof. repeat split; vm_compute; reflexivity. Qed.

(** C6 fails on the far edge.  On the grid of 2 by 2 vertices the query
    [(1, 0)] lies on the edge [x = origin.x + side]; it passes the bounds
    test, falls in grid row [gridx = 1 = nr_vert - 1], and the triangle
    reads the indices 2, 4 and 3 of an array of 4 elements: the read of
    [map[(gridx + 1) * nr_vert + gridz]] is outside the array. *)
Lemma terrain_height_far_edge :
  let t := terrain_2x2 3 1 4 1 in
  terrain_outside t (Some 1%Q) (Some 0%Q) = false
  /\ terrain_grid t (Some 1%Q) (Some 0%Q) = (1, 0)
  /\ triangle_indices t 1 0 true = (2, 4, 3)
  /\ t_nr_vert t * t_nr_vert t = 4
  /\ terrain_height t (Some 1%Q) (Some 0%Q) = None.
Proof. repeat split; reflexivity. Qed.

Section height_query_cell.
Context {F : Type} {ops : FloatOps F}.

Lemma with_map_grid (t : terrain F) (m : list F) (x z : F) :
  terrain_grid (with_map t m) x z = terrain_grid t x z.
Proof. reflexivity. Qed.

Lemma triangle_in_cell (t : terrain F) (gridx gridz : Z) (lower : bool) :
  let '(k1, k2, k3) := triangle_indices t gridx gridz lower in
  k1 ∈ cell_indices t gridx gridz
  /\ k2 ∈ cell_indices t gridx gridz
  /\ k3 ∈ cell_indices t gridx gridz.
Proof.
  unfold triangle_indices, cell_indices.
  destruct lower; repeat split;
    repeat (first [apply list_elem_of_here | apply list_elem_of_further]).
Qed.

(** C3 (amended): the wrap is in the seed-height lookup, not in the
    height query.  [get_mapped_rand_height] maps the index -1 to
    [nr_vert - 1] and the index [nr_vert] to 0 on either axis.
    [terrain_height] does not wrap: its result is determined by the
    stored heights of the four vertices of the grid cell
    [(gridx, gridz)] that [floorf] assigns to the query, so two height
    maps that agree on these four elements give the same answer. *)
Theorem terrain_height_local (t : terrain F) :
  (forall x z : Z,
      0 <= t_nr_vert t ->
      get_mapped_rand_height t (-1) z
      = get_mapped_rand_height t (t_nr_vert t - 1) z
      /\ get_mapped_rand_height t (t_nr_vert t) z
         = get_mapped_rand_height t 0 z
      /\ get_mapped_rand_height t x (-1)
         = get_mapped_rand_height t x (t_nr_vert t - 1)
      /\ get_mapped_rand_height t x (t_nr_vert t)
         = get_mapped_rand_height t x 0)
  /\ (forall (m m' : list F) (x z : F),
        (forall k, k ∈ cell_indices t (terrain_grid t x z).1
                         (terrain_grid t x z).2 ->
                   map_read m k = map_read m' k) ->
        terrain_height (with_map t m) x z
        = terrain_height (with_map t m') x z).
Proof.
  split.
  - intros x z Hn. unfold get_mapped_rand_height.
    assert (Hm1 : (-1 <? 0) = true) by reflexivity.
    assert (H0 : (0 <? 0) = false) by reflexivity.
    rewrite Hm1, H0.
    assert (Hnn : forall n, 0 <= n ->
              (if n - 1 <? 0 then n - 1
               else if n - 1 >=? n then 0 else n - 1) = n - 1).
    { intros n Hn0. destruct (n - 1 <? 0); [reflexivity|].
      destruct (n - 1 >=? n) eqn:E; [lia|reflexivity]. }
    assert (Hn0 : forall n, 0 <= n ->
              (if n <? 0 then n - 1 else if n >=? n then 0 else n)
              = (if 0 >=? n then 0 else 0)).
    { intros n Hn0. destruct (n <? 0) eqn:E1; [lia|].
      destruct (n >=? n) eqn:E2; [|lia]. destruct (0 >=? n); reflexivity. }
    rewrite (Hnn _ Hn), (Hn0 _ Hn). repeat split; reflexivity.
  - intros m m' x z Hagree. unfold terrain_height.
    rewrite !with_map_grid.
    destruct (terrain_grid t x z) as [gridx gridz] eqn:Egrid.
    simpl in Hagree. simpl (t_map (with_map t _)).
    change (terrain_outside (with_map t m) x z)
      with (terrain_outside t x z).
    change (terrain_outside (with_map t m') x z)
      with (terrain_outside t x z).
    destruct (terrain_outside t x z); [reflexivity|].
    change (terrain_square (with_map t m)) with (terrain_square t).
    change (terrain_square (with_map t m')) with (terrain_square t).
    change (t_x (with_map t m)) with (t_x t).
    change (t_x (with_map t m')) with (t_x t).
    change (t_z (with_map t m)) with (t_z t).
    change (t_z (with_map t m')) with (t_z t).
    set (lower := Fle _ _).
    change (triangle_indices (with_map t m) gridx gridz lower)
      with (triangle_indices t gridx gridz lower).
    change (triangle_indices (with_map t m') gridx gridz lower)
      with (triangle_indices t gridx gridz lower).
    pose proof (triangle_in_cell t gridx gridz lower) as Hin.
    destruct (triangle_indices t gridx gridz lower) as [[k1 k2] k3].
    destruct Hin as (Hk1 & Hk2 & Hk3).
    rewrite (Hagree k1 Hk1), (Hagree k2 Hk2), (Hagree k3 Hk3).
    reflexivity.
Qed.
End height_query_cell.

(** C3, as the claim states it, fails, also away from the corner where the
    far edge reads outside the array: on the grid of 2 by 2 vertices with
    heights 0 on the column [z = 0] and 1 on the column [z = 1], the query
    at [z = origin.z] returns 0 and the query at [z = origin.z + side]
    returns 1 for the same [x = origin.x], and every element read is inside
    the array. *)
Lemma terrain_height_seam_differs :
  let t := terrain_2x2 0 1 0 1 in
  terrain_height t (Some 0%Q) (Some 0%Q) = Some (Some 0%Q)
  /\ terrain_height t (Some 0%Q) (Some 1%Q) = Some (Some 1%Q).
Proof. split; reflexivity. Qed.

Lemma terrain_height_local_witness :
  let t := terrain_2x2 0 1 0 1 in
  terrain_height (with_map t [Some 0%Q; Some 1%Q; Some 0%Q; Some 1%Q])
    (Some 0%Q) (Some 0%Q)
  = terrain_height
      (with_map t [Some 0%Q; Some 1%Q; Some 0%Q; Some 1%Q; Some 7%Q])
      (Some 0%Q) (Some 0%Q).
Proof.
  intros t.
  apply (proj2 (terrain_height_local t)).
  intros k Hk. vm_compute in Hk.
  repeat (apply elem_of_cons in Hk as [->|Hk]; [reflexivity|]).
  apply elem_of_nil in Hk. destruct Hk.
Defined.

(** ** Arrays filled by two nested loops *)

Lemma for_range_scan {S : Type} (n : Z) (body : Z -> Z -> S -> S) (s : S) :
  for_range n (fun i s => for_range n (fun j s => body i j s) s) s
  = foldl (fun s c => body c.1 c.2 s) s (scan_cells n).
Proof.
  unfold for_range, scan_cells.
  rewrite foldl_bind. apply foldl_pointwise; intros s' i.
  rewrite foldl_fmap. reflexivity.
Qed.

Section array_fill.
Context {F : Type}.
Variable n : Z.
Variable f : Z -> Z -> F.

Lemma length_farr_store (m : list F) (k : Z) (v : F) :
  length (farr_store m k v) = length m.
Proof.
  unfold farr_store. destruct (k <? 0); [reflexivity|apply length_insert].
Qed.

Lemma length_foldl_store (l : list (Z * Z)) (m : list F) :
  length (foldl (fill_step n f) m l) = length m.
Proof.
  revert m. induction l as [|c l IH]; intros m; simpl; [reflexivity|].
  rewrite IH. apply length_farr_store.
Qed.

Lemma lookup_foldl_store_ne (l : list (Z * Z)) (m : list F) (k : nat) :
  (forall i j, (i, j) ∈ l -> Z.of_nat k <> i * n + j) ->
  foldl (fill_step n f) m l !! k = m !! k.
Proof.
  revert m. induction l as [|[i j] l IH]; intros m Hl; simpl;
    [reflexivity|].
  rewrite IH.
  - unfold fill_step, farr_store; simpl.
    destruct (i * n + j <? 0) eqn:E; [reflexivity|].
    apply list_lookup_insert_ne.
    pose proof (Hl i j (list_elem_of_here _ _)). lia.
  - intros i' j' Hin. apply Hl. apply list_elem_of_further, Hin.
Qed.

(** After the two loops every element of the array holds the value
    computed for its cell. *)
Lemma fill_lookup (init : list F) (i j : Z) :
  Z.of_nat (length init) = n * n -> 0 <= i < n -> 0 <= j < n ->
  for_range n (fun i m =>
    for_range n (fun j m => farr_store m (i * n + j) (f i j)) m) init
  !! Z.to_nat (i * n + j) = Some (f i j).
Proof.
  intros Hlen Hi Hj.
  rewrite (for_range_scan n (fun i j m => farr_store m (i * n + j) (f i j))).
  change (foldl _ init (scan_cells n)) with (foldl (fill_step n f) init (scan_cells n)).
  destruct (scan_cells_split n i j Hi Hj)
    as (pre & post & Hcells & _ & Hpost).
  rewrite Hcells, foldl_app. simpl.
  assert (Hidx : 0 <= i * n + j < n * n) by nia.
  rewrite lookup_foldl_store_ne.
  - unfold fill_step at 1. unfold farr_store. simpl.
    destruct (i * n + j <? 0) eqn:E; [lia|].
    apply list_lookup_insert_eq. rewrite length_foldl_store. lia.
  - intros a b Hin. destruct (Hpost a b Hin) as (Ha & Hb & _ & Hne).
    rewrite Z2Nat.id by lia. intros Heq. apply Hne.
    assert (a = i) by nia. subst a. f_equal. lia.
Qed.
End array_fill.

(** ** Builder: what the height synthesizer is called with *)

Section builder_cell.
Context {F : Type} {ops : FloatOps F}.

(** The arguments of the call of [get_height] and the height written to
    the map do not change when the BSP tree is replaced by any other. *)
Lemma landscape_cell_tree_free (t : terrain F) (tree tree' : bsp_part F)
    (maze : list Z) (mside i j : Z) :
  let c := landscape_cell tree maze mside i j in
  let c' := landscape_cell tree' maze mside i j in
  maze_avg c = maze_blend maze mside i j
  /\ call_amp c = call_amp c'
  /\ call_oct c = call_oct c'
  /\ landscape_height t tree maze mside i j
     = landscape_height t tree' maze mside i j.
Proof. repeat split. Qed.

(** C1 (amended): the amplitude and the octave count passed to
    [get_height] for a cell come from the maze, not from the BSP tree.
    In every run of the builder that returns, with [maze] the maze it drew
    and [tree] the BSP tree it built, for every cell [(i, j)] of the grid
    the call of [get_height] receives the amplitude [powf(1.5, avg)],
    where [avg] is the blend of the maze cells around [(i, j)], and the
    octave count [OCTAVES] = 4, and the element [i * nr_v + j] of the
    height map is the result of that call plus [avg]. *)
Theorem landscape_map_from_maze (fuel : nat) (tv_nsec : Z)
    (x y z side : F) (nr_v : Z) (s s' : libc) (t : terrain F) :
  terrain_init_square_landscape fuel tv_nsec x y z side nr_v s
  = Done (t, s') ->
  exists (maze : list Z) (tree : bsp_part F) (map0 m : list F)
         (s0 s1 : libc),
    ca_gen_maze ca_test (Z.quot nr_v MAZE_FAC) 3 s = Done (maze, s0)
    /\ bsp_process fuel tv_nsec 3 0 0 nr_v nr_v terrain_bsp_cb s0
       = Done (tree, s1)
    /\ t_map t = Some m
    /\ forall i j : Z, 0 <= i < nr_v -> 0 <= j < nr_v ->
         let c := landscape_cell tree maze (Z.quot nr_v MAZE_FAC) i j in
         let avg := maze_blend maze (Z.quot nr_v MAZE_FAC) i j in
         call_amp c = Fpowf (F_of_Q (15 # 10)) avg
         /\ call_oct c = 4
         /\ m !! Z.to_nat (i * nr_v + j)
            = Some (get_height
                      (terrain_with_map0 tv_nsec x y z side nr_v map0) i j
                      (Fpowf (F_of_Q (15 # 10)) avg) 4 + avg)%S.
Proof.
  intros Hrun. unfold terrain_init_square_landscape in Hrun.
  apply bind_Done in Hrun as (maze & s0 & Hmaze & Hrun).
  apply bind_Done in Hrun as (tree & s1 & Htree & Hrun).
  apply bind_Done in Hrun as (map0 & s2 & Hmap0 & Hrun).
  unfold ret in Hrun. inversion Hrun; subst t s'. clear Hrun.
  eexists maze, tree, map0, _, s0, s1.
  split; [exact Hmaze|]. split; [exact Htree|].
  split; [reflexivity|].
  intros i j Hi Hj. split; [reflexivity|]. split; [reflexivity|].
  apply (fill_lookup nr_v
           (fun i j =>
              landscape_height
                (terrain_with_map0 tv_nsec x y z side nr_v map0)
                tree maze (Z.quot nr_v MAZE_FAC) i j)); try assumption.
  apply ca_gen_maze_side in Hmaze.
  assert (Hsmall : nr_v < 8192).
  { unfold MAZE_FAC in Hmaze.
    pose proof (Z.quot_rem' nr_v 8) as Hq.
    pose proof (Z.rem_bound_pos nr_v 8 ltac:(lia) ltac:(lia)). lia. }
  rewrite length_replicate, to_uint_small by nia. nia.
Qed.
End builder_cell.

(** C1, as the claim states it, fails.  With the clock reading 44 and a
    grid of 8 by 8 vertices, the BSP leaf that contains the cell [(0, 0)]
    stores 3 octaves and an amplitude below 1/2, which is also the value of
    the blend [amp] at that cell; [get_height] is called with 4 octaves and
    the amplitude 3/2. *)
Lemma landscape_cell_not_from_bsp :
  exists (tree : bsp_part (option Q)) (st' : libc),
    bsp_process 18 44 3 0 0 8 8 terrain_bsp_cb (QX.libc_at 0 0)
    = Done (tree, st')
    /\ node_oct (bsp_find tree 0 0) = 3
    /\ node_amp (bsp_find tree 0 0)
       = Some (16180016155925 # 35184372088832)
    /\ bsp_amp (landscape_cell tree [1] 1 0 0)
       = Some (16180016155925 # 35184372088832)
    /\ call_amp (landscape_cell tree [1] 1 0 0) = Some (3 # 2)
    /\ call_oct (landscape_cell tree [1] 1 0 0) = 4.
Proof.
  destruct (bsp_process 18 44 3 0 0 8 8 terrain_bsp_cb (QX.libc_at 0 0))
    as [[tree st']| | |] eqn:Erun; [|vm_compute in Erun; discriminate..].
  exists tree, st'. split; [reflexivity|].
  vm_compute in Erun. inversion Erun; subst tree st'. clear Erun.
  repeat split; vm_compute; reflexivity.
Qed.

Lemma landscape_map_from_maze_witness :
  let build :=
    terrain_init_square_landscape 18 44 (Some 0%Q) (Some 0%Q) (Some 0%Q)
      (Some 128%Q) 8 in
  exists (t : terrain (option Q)) (s' : libc),
    build (QX.libc_at 0 0) = Done (t, s')
    /\ exists (maze : list Z) (tree : bsp_part (option Q))
              (map0 m : list (option Q)) (s0 s1 : libc),
         ca_gen_maze ca_test (Z.quot 8 MAZE_FAC) 3 (QX.libc_at 0 0)
         = Done (maze, s0)
         /\ bsp_process 18 44 3 0 0 8 8 terrain_bsp_cb s0 = Done (tree, s1)
         /\ t_map t = Some m
         /\ forall i j : Z, 0 <= i < 8 -> 0 <= j < 8 ->
              let c := landscape_cell tree maze (Z.quot 8 MAZE_FAC) i j in
              let avg := maze_blend maze (Z.quot 8 MAZE_FAC) i j in
              call_amp c = Fpowf (F_of_Q (15 # 10)) avg
              /\ call_oct c = 4
              /\ m !! Z.to_nat (i * 8 + j)
                 = Some (get_height
                           (terrain_with_map0 44 (Some 0%Q) (Some 0%Q)
                              (Some 0%Q) (Some 128%Q) 8 map0) i j
                           (Fpowf (F_of_Q (15 # 10)) avg) 4 + avg)%S.
Proof.
  intros build.
  destruct (build (QX.libc_at 0 0)) as [[t s']| | |] eqn:Erun;
    [|vm_compute in Erun; discriminate..].
  exists t, s'. split; [reflexivity|].
  exact (landscape_map_from_maze 18 44 (Some 0%Q) (Some 0%Q) (Some 0%Q)
           (Some 128%Q) 8 (QX.libc_at 0 0) s' t Erun).
Defined.

(** ** Runs from different generator states *)

Lemma run_rel_ret {A B : Type} (R : A -> B -> Prop) (a : A) (b : B) :
  R a b -> run_rel R (ret a) (ret b).
Proof. intros HR s1 s2 Hs. simpl. auto. Qed.

Lemma outcome_rel_bind {A B A' B' : Type} (R : A -> B -> Prop)
    (R' : A' -> B' -> Prop) (m1 : M A) (m2 : M B) (k1 : A -> M A')
    (k2 : B -> M B') (s1 s2 : libc) :
  outcome_rel R (m1 s1) (m2 s2) ->
  (forall a b, R a b -> run_rel R' (k1 a) (k2 b)) ->
  outcome_rel R' (bind m1 k1 s1) (bind m2 k2 s2).
Proof.
  intros Hm Hk. unfold bind.
  destruct (m1 s1) as [[a s1']| | |], (m2 s2) as [[b s2']| | |];
    simpl in Hm; try contradiction; try exact I.
  destruct Hm as [Hab Hs]. apply Hk; assumption.
Qed.

Lemma run_rel_bind {A B A' B' : Type} (R : A -> B -> Prop)
    (R' : A' -> B' -> Prop) (m1 : M A) (m2 : M B) (k1 : A -> M A')
    (k2 : B -> M B') :
  run_rel R m1 m2 ->
  (forall a b, R a b -> run_rel R' (k1 a) (k2 b)) ->
  run_rel R' (bind m1 k1) (bind m2 k2).
Proof.
  intros Hm Hk s1 s2 Hs. apply (outcome_rel_bind R); auto.
Qed.

(** [srand48] makes any two states agree. *)
Lemma srand48_resets (seedval : Z) (s1 s2 : libc) :
  outcome_rel eq (srand48 seedval s1) (srand48 seedval s2).
Proof. simpl. auto. Qed.

Lemma run_rel_lrand48 : run_rel eq lrand48 lrand48.
Proof. intros s1 s2 Hs. simpl. rewrite Hs. auto. Qed.

Lemma run_rel_drand48_bits : run_rel eq drand48_bits drand48_bits.
Proof. intros s1 s2 Hs. simpl. rewrite Hs. auto. Qed.

Lemma run_rel_rand : run_rel any rand rand.
Proof. intros s1 s2 Hs. simpl. split; [exact I|exact Hs]. Qed.

Lemma run_rel_cdiv (a b : Z) : run_rel eq (cdiv a b) (cdiv a b).
Proof.
  intros s1 s2 Hs. unfold cdiv. destruct (b =? 0); simpl; auto.
Qed.

Lemma run_rel_for_each {A S1 S2 : Type} (R : S1 -> S2 -> Prop)
    (body1 : A -> S1 -> M S1) (body2 : A -> S2 -> M S2) (l : list A) :
  (forall k a b, R a b -> run_rel R (body1 k a) (body2 k b)) ->
  forall a b, R a b -> run_rel R (for_each l body1 a) (for_each l body2 b).
Proof.
  intros Hbody. induction l as [|k l IH]; intros a b Hab; simpl.
  - apply run_rel_ret, Hab.
  - apply (run_rel_bind R); [apply Hbody, Hab|]. intros a' b' Hab'.
    apply IH, Hab'.
Qed.

Lemma for_each_Done {A S : Type} (body : A -> S -> M S) (l : list A) :
  (forall k s st, exists s' st', body k s st = Done (s', st')) ->
  forall s st, exists s' st', for_each l body s st = Done (s', st').
Proof.
  intros Hbody. induction l as [|k l IH]; intros s st; simpl.
  - unfold ret. eauto.
  - unfold bind. destruct (Hbody k s st) as (s1 & st1 & E). rewrite E.
    apply IH.
Qed.

(** The maze depends on the state of the [drand48] generator only. *)
Lemma run_rel_ca_gen_maze (ca : cell_automaton) (side steps : Z) :
  run_rel eq (ca_gen_maze ca side steps) (ca_gen_maze ca side steps).
Proof.
  unfold ca_gen_maze. apply (run_rel_bind eq).
  - unfold for_rangeM. apply run_rel_for_each; [|reflexivity].
    intros i a b ->. apply run_rel_for_each; [|reflexivity].
    intros j a' b' ->. apply (run_rel_bind eq); [apply run_rel_lrand48|].
    intros r r' ->. apply run_rel_ret. reflexivity.
  - intros a b ->. apply (run_rel_bind eq).
    + unfold xyarray_print, for_rangeM.
      apply run_rel_for_each; [|reflexivity].
      intros row [] [] _. apply (run_rel_bind eq).
      * apply run_rel_for_each; [|reflexivity].
        intros i p p' ->. destruct (_ && _); [apply run_rel_ret; reflexivity|].
        intros s1 s2 _. exact I.
      * intros p p' _.
        destruct (side <=? 0); [|apply run_rel_ret; reflexivity].
        intros s1 s2 _. exact I.
    + intros [] [] _. apply run_rel_ret. reflexivity.
Qed.

Section builder_runs.
Context {F : Type} {ops : FloatOps F}.

Lemma run_rel_drand48 : run_rel eq (drand48 (F := F)) drand48.
Proof.
  unfold drand48. apply (run_rel_bind eq); [apply run_rel_drand48_bits|].
  intros a b ->. apply run_rel_ret. reflexivity.
Qed.

Lemma run_rel_needs_split (top node parent : bsp_part F) (level : Z) :
  run_rel eq (bsp_needs_split top node parent level)
    (bsp_needs_split top node parent level).
Proof.
  unfold bsp_needs_split.
  destruct (_ || _); [apply run_rel_ret; reflexivity|].
  destruct (level >? 16); [apply run_rel_ret; reflexivity|].
  apply (run_rel_bind eq); [apply run_rel_cdiv|]. intros q1 ? <-.
  destruct (q1 >? 4); [apply run_rel_ret; reflexivity|].
  apply (run_rel_bind eq); [apply run_rel_cdiv|]. intros q2 ? <-.
  repeat match goal with
         | |- context [if ?b then _ else _] => destruct b
         end; apply run_rel_ret; reflexivity.
Qed.

Lemma run_rel_terrain_bsp_cb (node : bsp_part F) (level : Z) :
  run_rel any (terrain_bsp_cb node level) (terrain_bsp_cb node level).
Proof.
  unfold terrain_bsp_cb.
  apply (run_rel_bind eq); [apply run_rel_drand48|]. intros d ? <-.
  apply (run_rel_bind any); [apply run_rel_rand|]. intros r r' _.
  apply run_rel_ret. exact I.
Qed.

(** How a partition run ends, and the state of [drand48] after it, do
    not depend on [rand]. *)
Lemma run_rel_bsp_part_one (top : bsp_part F) :
  forall (fuel : nat) (root : bsp_part F) (level : Z),
    run_rel any (bsp_part_one fuel terrain_bsp_cb top root level)
      (bsp_part_one fuel terrain_bsp_cb top root level).
Proof.
  induction fuel as [|fuel IH]; intros root level.
  - intros s1 s2 _. exact I.
  - cbn [bsp_part_one].
    apply (run_rel_bind eq); [apply run_rel_drand48|]. intros frac ? <-.
    apply (run_rel_bind eq); [apply run_rel_cdiv|]. intros q1 ? <-.
    apply (run_rel_bind eq).
    { destruct (q1 >? 4); [apply run_rel_ret; reflexivity|].
      apply (run_rel_bind eq); [apply run_rel_cdiv|]. intros q2 ? <-.
      destruct (q2 >? 4); apply run_rel_ret; reflexivity. }
    intros vertical ? <-.
    apply (run_rel_bind eq); [apply run_rel_needs_split|].
    intros split_a ? <-.
    apply (run_rel_bind any).
    { destruct split_a; [apply IH|apply run_rel_terrain_bsp_cb]. }
    intros a a' _.
    apply (run_rel_bind eq); [apply run_rel_needs_split|].
    intros split_b ? <-.
    apply (run_rel_bind any).
    { destruct split_b; [apply IH|apply run_rel_terrain_bsp_cb]. }
    intros b b' _. apply run_rel_ret. exact I.
Qed.

(** [get_rand_height] ends alike from any two states. *)
Lemma get_rand_height_any_state (t : terrain F) (x z : Z) (s1 s2 : libc) :
  outcome_rel eq (get_rand_height t x z s1) (get_rand_height t x z s2).
Proof.
  unfold get_rand_height.
  apply (outcome_rel_bind eq); [apply srand48_resets|]. intros [] ? <-.
  apply (run_rel_bind eq); [apply run_rel_drand48|]. intros d ? <-.
  apply run_rel_ret. reflexivity.
Qed.

(** C2 (amended): the height map is determined by the clock reading
    taken as the seed, the construction parameters and the maze; the maze
    is drawn from the process-wide [drand48] generator as it stands when
    the builder is entered, before the seed is read.  Two runs with the
    same seed and parameters that draw the same maze end alike and, when
    they return, return identical height maps; they draw the same maze
    whenever they are entered with the [drand48] generator in the same
    state. *)
Theorem landscape_map_determined (fuel : nat) (tv_nsec : Z)
    (x y z side : F) (nr_v : Z) (s1 s2 : libc) :
  (forall (maze : list Z) (s1' s2' : libc),
      ca_gen_maze ca_test (Z.quot nr_v MAZE_FAC) 3 s1 = Done (maze, s1') ->
      ca_gen_maze ca_test (Z.quot nr_v MAZE_FAC) 3 s2 = Done (maze, s2') ->
      outcome_rel (fun t1 t2 : terrain F => t_map t1 = t_map t2)
        (terrain_init_square_landscape fuel tv_nsec x y z side nr_v s1)
        (terrain_init_square_landscape fuel tv_nsec x y z side nr_v s2))
  /\ (X48 s1 = X48 s2 ->
      outcome_rel eq
        (ca_gen_maze ca_test (Z.quot nr_v MAZE_FAC) 3 s1)
        (ca_gen_maze ca_test (Z.quot nr_v MAZE_FAC) 3 s2)).
Proof.
  split; [|apply run_rel_ca_gen_maze].
  intros maze s1' s2' Hm1 Hm2.
  unfold terrain_init_square_landscape.
  unfold bind at 1. rewrite Hm1.
  unfold bind at 4. rewrite Hm2.
  apply (outcome_rel_bind any).
  { unfold bsp_process.
    apply (outcome_rel_bind eq); [apply srand48_resets|]. intros [] ? <-.
    apply run_rel_bsp_part_one. }
  intros tree tree' _.
  apply (run_rel_bind eq).
  { unfold for_rangeM. apply run_rel_for_each; [|reflexivity].
    intros i a b ->. apply run_rel_for_each; [|reflexivity].
    intros j a' b' ->. intros r1 r2 _.
    apply (outcome_rel_bind eq); [apply get_rand_height_any_state|].
    intros v ? <-. apply run_rel_ret. reflexivity. }
  intros map0 ? <-. apply run_rel_ret. simpl. reflexivity.
Qed.
End builder_runs.

(** C2, as the claim states it, fails.  Two runs of the builder, one
    after the other in one process, with the same clock reading 44 and the
    same parameters (origin 0, side 128, 8 by 8 vertices): the first run
    finds the [drand48] generator in the state 0 and draws a maze whose
    cell is live, the second finds it in the state the first run left and
    draws a maze whose cell is dead; the height stored for the vertex
    [(0, 0)] is about 1.31 in the first height map and about 0.21 in the
    second. *)
Lemma landscape_two_runs_differ :
  let build :=
    terrain_init_square_landscape 18 44 (Some 0%Q) (Some 0%Q) (Some 0%Q)
      (Some 128%Q) 8 in
  exists (t1 t2 : terrain (option Q)) (s1 s2 : libc),
    build (QX.libc_at 0 0) = Done (t1, s1)
    /\ build s1 = Done (t2, s2)
    /\ t_seed t1 = t_seed t2
    /\ head (default [] (t_map t1))
       = Some (Some (2950134428941613 # 2251799813685248))
    /\ head (default [] (t_map t2))
       = Some (Some (232778205085455 # 1125899906842624))
    /\ t_map t1 <> t_map t2.
Proof.
  intros build.
  destruct (build (QX.libc_at 0 0)) as [[t1 s1]| | |] eqn:E1;
    [|vm_compute in E1; discriminate..].
  destruct (build s1) as [[t2 s2]| | |] eqn:E2;
    [|vm_compute in E1; inversion E1; subst t1 s1;
      vm_compute in E2; discriminate..].
  exists t1, t2, s1, s2.
  vm_compute in E1. inversion E1; subst t1 s1. clear E1.
  vm_compute in E2. inversion E2; subst t2 s2. clear E2.
  repeat split; try reflexivity.
  simpl. intros Heq. inversion Heq.
Qed.

Lemma landscape_map_determined_witness :
  let build :=
    terrain_init_square_landscape 18 44 (Some 0%Q) (Some 0%Q) (Some 0%Q)
      (Some 128%Q) 8 in
  outcome_rel (fun t1 t2 : terrain (option Q) => t_map t1 = t_map t2)
    (build (QX.libc_at 0 0)) (build (QX.libc_at 0 5)).
Proof.
  intros build.
  refine (proj1 (landscape_map_determined 18 44 (Some 0%Q) (Some 0%Q)
                   (Some 0%Q) (Some 128%Q) 8 (QX.libc_at 0 0)
                   (QX.libc_at 0 5))
            [1] {| X48 := 11; rand_tape := fun _ => 0; rand_pos := 0 |}
            {| X48 := 11; rand_tape := fun _ => 5; rand_pos := 0 |} _ _);
    reflexivity.
Defined.

(* ================================================================== *)
(** * Part II, continued: further properties *)
(* ================================================================== *)

(** ** Automaton: counts, stores and ranges *)

Lemma cbool_range (b : bool) : 0 <= cbool b <= 1.
Proof. destruct b; simpl; lia. Qed.

(** X1: every neighbour count is a number of neighbours: between 0 and 4
    for the two orthogonal strategies and between 0 and 8 for the two
    that include the diagonals, whatever the grid, its side and the cell;
    so the shift [1 << n] of [cell_aut_step] is by at most 8 bits. *)
Theorem neigh_count_bounds (arr : list Z) (side x y : Z) :
  0 <= neigh_vn1 arr side x y <= 4
  /\ 0 <= neigh_m1 arr side x y <= 8
  /\ 0 <= neigh_vnv arr side x y <= 4
  /\ 0 <= neigh_mv arr side x y <= 8.
Proof.
  unfold neigh_m1, neigh_mv, neigh_vn1, neigh_vnv, nonzero.
  repeat match goal with
         | |- context [cbool ?b] =>
             let H := fresh "H" in
             pose proof (cbool_range b) as H;
             generalize dependent (cbool b); intros
         end.
  lia.
Qed.

Lemma xyarray_get_set_same (arr : list Z) (width x y v : Z) :
  Z.of_nat (length arr) = width * width ->
  0 <= x < width -> 0 <= y < width ->
  xyarray_get (xyarray_set arr width x y v) width x y = v mod 256.
Proof.
  intros Hlen Hx Hy.
  rewrite xyarray_get_inside by assumption. unfold xyarray_set.
  destruct (x <? 0) eqn:E1; [lia|].
  destruct (x >=? width) eqn:E2; [lia|].
  rewrite arr_load_store_eq by nia. reflexivity.
Qed.

(** X2: a store through [xyarray_set] at a cell of the grid is read back
    by [xyarray_get] at that cell as the value converted to
    [unsigned char]; it leaves the size of the array and every other cell
    as they were. *)
Theorem xyarray_set_get (arr : list Z) (width x y v : Z) :
  Z.of_nat (length arr) = width * width ->
  0 <= x < width -> 0 <= y < width ->
  xyarray_get (xyarray_set arr width x y v) width x y = v mod 256
  /\ length (xyarray_set arr width x y v) = length arr
  /\ (forall a b, (a, b) <> (x, y) ->
        xyarray_get (xyarray_set arr width x y v) width a b
        = xyarray_get arr width a b).
Proof.
  intros Hlen Hx Hy. split; [|split].
  - apply xyarray_get_set_same; assumption.
  - unfold xyarray_set. apply length_arr_store.
  - intros a b Hab. apply xyarray_get_set_other; assumption.
Qed.

Lemma xyarray_set_get_witness :
  xyarray_get (xyarray_set [0; 0; 0; 0] 2 1 0 260) 2 1 0 = 260 mod 256.
Proof.
  apply (xyarray_set_get [0; 0; 0; 0] 2 1 0 260); [reflexivity|lia|lia].
Defined.

(** X3: stores wrap in the first coordinate, reads do not.  A store at
    [x = -1] lands in the last column and a store at [x = width] in column
    0, where a read finds it; a read at the coordinate that was written,
    [-1] or [width], gives 0. *)
Theorem xyarray_set_wraps (arr : list Z) (width y v : Z) :
  Z.of_nat (length arr) = width * width ->
  1 <= width -> 0 <= y < width ->
  xyarray_get (xyarray_set arr width (-1) y v) width (width - 1) y
  = v mod 256
  /\ xyarray_get (xyarray_set arr width width y v) width 0 y = v mod 256
  /\ xyarray_get (xyarray_set arr width (-1) y v) width (-1) y = 0
  /\ xyarray_get (xyarray_set arr width width y v) width width y = 0.
Proof.
  intros Hlen Hw Hy.
  assert (Hm1 : xyarray_set arr width (-1) y v
                = xyarray_set arr width (width - 1) y v).
  { unfold xyarray_set. simpl (-1 <? 0).
    destruct (width - 1 <? 0) eqn:E1; [lia|].
    destruct (width - 1 >=? width) eqn:E2; [lia|]. reflexivity. }
  assert (Hw0 : xyarray_set arr width width y v
                = xyarray_set arr width 0 y v).
  { unfold xyarray_set. simpl (0 <? 0).
    destruct (width <? 0) eqn:E1; [lia|].
    destruct (width >=? width) eqn:E2; [|lia].
    destruct (0 >=? width) eqn:E3; [lia|]. reflexivity. }
  rewrite Hm1, Hw0.
  split; [apply xyarray_get_set_same; (assumption || lia)|].
  split; [apply xyarray_get_set_same; (assumption || lia)|].
  split; apply xyarray_get_outside; lia.
Qed.

Lemma xyarray_set_wraps_witness :
  xyarray_get (xyarray_set [0; 0; 0; 0] 2 (-1) 0 7) 2 (2 - 1) 0 = 7 mod 256
  /\ xyarray_get (xyarray_set [0; 0; 0; 0] 2 (-1) 0 7) 2 (-1) 0 = 0.
Proof.
  destruct (xyarray_set_wraps [0; 0; 0; 0] 2 0 7 eq_refl ltac:(lia)
              ltac:(lia)) as (H1 & _ & H3 & _).
  split; [exact H1|exact H3].
Defined.

Lemma foldl_invariant {A S : Type} (P : S -> Prop) (f : S -> A -> S)
    (l : list A) (s : S) :
  P s -> (forall s a, a ∈ l -> P s -> P (f s a)) -> P (foldl f s l).
Proof.
  revert s. induction l as [|a l IH]; intros s Hs Hf; simpl; [exact Hs|].
  apply IH.
  - apply Hf; [apply list_elem_of_here|exact Hs].
  - intros s' a' Hin. apply Hf. apply list_elem_of_further, Hin.
Qed.

Lemma arr_load_within (top : Z) (arr : list Z) (k : Z) :
  0 <= top -> cells_within top arr -> 0 <= arr_load arr k <= top.
Proof.
  intros Htop Harr. unfold arr_load. destruct (k <? 0); [lia|].
  destruct (arr !! Z.to_nat k) as [v|] eqn:E; simpl; [|lia].
  unfold cells_within in Harr. rewrite Forall_lookup in Harr.
  exact (Harr _ _ E).
Qed.

Lemma xyarray_get_within (top : Z) (arr : list Z) (width x y : Z) :
  0 <= top -> cells_within top arr ->
  0 <= xyarray_get arr width x y <= top.
Proof.
  intros Htop Harr. unfold xyarray_get.
  destruct (_ || _); [lia|]. apply arr_load_within; assumption.
Qed.

Lemma xyarray_set_within (top : Z) (arr : list Z) (width x y v : Z) :
  0 <= v <= top -> top < 256 -> cells_within top arr ->
  cells_within top (xyarray_set arr width x y v).
Proof.
  intros Hv Htop Harr. unfold xyarray_set, arr_store, to_uchar.
  destruct (_ <? 0); [exact Harr|].
  apply Forall_insert; [exact Harr|]. rewrite Z.mod_small; lia.
Qed.

Lemma cell_aut_cell_within (ca : cell_automaton) (side : Z) (arr : list Z)
    (i j : Z) :
  0 <= nr_states ca < 256 -> cells_within (nr_states ca) arr ->
  cells_within (nr_states ca) (cell_aut_cell ca side arr i j).
Proof.
  intros Htop Harr. unfold cell_aut_cell.
  pose proof (xyarray_get_within (nr_states ca) arr side i j
                ltac:(lia) Harr) as Hv.
  destruct (xyarray_get arr side i j =? 0) eqn:Ev; simpl.
  - destruct (mask_has (born ca) _); [|exact Harr].
    apply xyarray_set_within; (assumption || lia).
  - destruct (mask_has (surv ca) _); [exact Harr|].
    destruct (decay ca); [|exact Harr].
    apply xyarray_set_within; (assumption || lia).
Qed.

Lemma cell_aut_step_within (ca : cell_automaton) (arr : list Z) (side : Z) :
  0 <= nr_states ca < 256 -> cells_within (nr_states ca) arr ->
  cells_within (nr_states ca) (cell_aut_step ca arr side).
Proof.
  intros Htop Harr. rewrite cell_aut_step_scan.
  apply foldl_invariant; [exact Harr|].
  intros s c _ Hs. apply cell_aut_cell_within; assumption.
Qed.

Lemma length_cell_aut_step (ca : cell_automaton) (arr : list Z) (side : Z) :
  length (cell_aut_step ca arr side) = length arr.
Proof. rewrite cell_aut_step_scan. apply length_foldl_step. Qed.

(** X4: a step keeps the grid well formed.  When the number of states of
    the rule fits an [unsigned char] and every cell holds a state between
    0 and that number, the same is true after [cell_aut_step], and the
    array has the same size: no store goes outside the range of states. *)
Theorem cell_aut_step_keeps_states (ca : cell_automaton) (arr : list Z)
    (side : Z) :
  0 <= nr_states ca < 256 -> cells_within (nr_states ca) arr ->
  cells_within (nr_states ca) (cell_aut_step ca arr side)
  /\ length (cell_aut_step ca arr side) = length arr.
Proof.
  intros Htop Harr. split.
  - apply cell_aut_step_within; assumption.
  - apply length_cell_aut_step.
Qed.

Lemma cell_aut_step_keeps_states_witness :
  cells_within (nr_states ca_test)
    (cell_aut_step ca_test [4; 4; 0; 0; 0; 0; 0; 0; 0] 3)
  /\ length (cell_aut_step ca_test [4; 4; 0; 0; 0; 0; 0; 0; 0] 3)
     = length [4; 4; 0; 0; 0; 0; 0; 0; 0].
Proof.
  apply (cell_aut_step_keeps_states ca_test [4; 4; 0; 0; 0; 0; 0; 0; 0] 3).
  - simpl. lia.
  - unfold cells_within. simpl. repeat constructor; lia.
Defined.

(** What a step leaves in a cell of the grid is the rule applied to the
    grid as it was when the cell's turn came, and that grid still held the
    cell's own old value. *)
Lemma cell_aut_step_own_cell (ca : cell_automaton) (arr : list Z)
    (side i j : Z) :
  Z.of_nat (length arr) = side * side ->
  0 <= i < side -> 0 <= j < side ->
  exists g : list Z,
    xyarray_get g side i j = xyarray_get arr side i j
    /\ xyarray_get (cell_aut_step ca arr side) side i j
       = cell_next ca side g i j.
Proof.
  intros Hlen Hi Hj.
  destruct (scan_cells_split side i j Hi Hj)
    as (pre & post & Hcells & Hpre & Hpost).
  exists (foldl (scan_step ca side) arr pre).
  assert (Hidx : 0 <= j * side + i < side * side) by nia.
  split.
  - rewrite !xyarray_get_inside by assumption. unfold arr_load.
    destruct (j * side + i <? 0) eqn:E; [lia|].
    rewrite lookup_foldl_step_ne; [reflexivity|].
    intros a b Hin. destruct (Hpre a b Hin) as (Ha & Hb & Hsb).
    split; [exact Ha|]. rewrite Z2Nat.id by lia. intros Heq.
    assert (b = j) by nia. subst b. assert (a = i) by lia. subst a.
    rewrite scanned_before_irrefl in Hsb. discriminate.
  - rewrite cell_aut_step_scan, Hcells, foldl_app. simpl.
    rewrite xyarray_get_inside by assumption.
    rewrite <- (cell_aut_cell_next ca side _ i j);
      [|rewrite length_foldl_step; lia|assumption|assumption].
    unfold arr_load. destruct (j * side + i <? 0) eqn:E; [lia|].
    rewrite lookup_foldl_step_ne; [reflexivity|].
    intros a b Hin. destruct (Hpost a b Hin) as (Ha & Hb & _ & Hne).
    split; [exact Ha|]. rewrite Z2Nat.id by lia.
    intros Heq. apply Hne. assert (b = j) by nia. subst b. f_equal. lia.
Qed.

(** X5: what one step can do to a cell.  A dead cell stays dead or takes
    the rule's number of states (as an [unsigned char]); a live cell keeps
    its value or, under a rule that decays, loses one.  In particular a
    rule without decay never changes a live cell. *)
Theorem cell_aut_step_cell_outcome (ca : cell_automaton) (arr : list Z)
    (side i j : Z) :
  Z.of_nat (length arr) = side * side ->
  0 <= i < side -> 0 <= j < side ->
  let v := xyarray_get arr side i j in
  let v' := xyarray_get (cell_aut_step ca arr side) side i j in
  (v = 0 -> v' = 0 \/ v' = nr_states ca mod 256)
  /\ (v <> 0 -> v' = v \/ (decay ca = true /\ v' = (v - 1) mod 256))
  /\ (v <> 0 -> decay ca = false -> v' = v).
Proof.
  intros Hlen Hi Hj v v'.
  destruct (cell_aut_step_own_cell ca arr side i j Hlen Hi Hj)
    as (g & Hown & Hnext).
  unfold v', v. rewrite Hnext. unfold cell_next, to_uchar. rewrite Hown.
  destruct (xyarray_get arr side i j =? 0) eqn:Ev; simpl.
  - apply Z.eqb_eq in Ev. rewrite Ev.
    split; [|split]; try (intros; lia).
    intros _. destruct (mask_has (born ca) _); auto.
  - apply Z.eqb_neq in Ev.
    split; [intros; lia|]. split.
    + intros _. destruct (mask_has (surv ca) _); [auto|].
      destruct (decay ca); auto.
    + intros _ Hdecay. rewrite Hdecay.
      destruct (mask_has (surv ca) _); reflexivity.
Qed.

Lemma cell_aut_step_cell_outcome_witness :
  let arr := [4; 4; 0; 0; 0; 0; 0; 0; 0] in
  let v := xyarray_get arr 3 0 0 in
  let v' := xyarray_get (cell_aut_step ca_test arr 3) 3 0 0 in
  (v = 0 -> v' = 0 \/ v' = nr_states ca_test mod 256)
  /\ (v <> 0 ->
      v' = v \/ (decay ca_test = true /\ v' = (v - 1) mod 256))
  /\ (v <> 0 -> decay ca_test = false -> v' = v).
Proof.
  apply (cell_aut_step_cell_outcome ca_test [4; 4; 0; 0; 0; 0; 0; 0; 0]
           3 0 0); [reflexivity|lia|lia].
Defined.

Lemma for_each_invariant {A S : Type} (P : S -> Prop)
    (body : A -> S -> M S) (l : list A) :
  (forall k s st s' st', P s -> body k s st = Done (s', st') -> P s') ->
  forall s st s' st',
    P s -> for_each l body s st = Done (s', st') -> P s'.
Proof.
  intros Hbody. induction l as [|k l IH]; intros s st s' st' Hs Hrun.
  - simpl in Hrun. unfold ret in Hrun. inversion Hrun; subst. exact Hs.
  - simpl in Hrun. apply bind_Done in Hrun as (s1 & st1 & Hk & Hrun).
    apply (IH s1 st1 s' st'); [|exact Hrun].
    apply (Hbody k s st s1 st1); assumption.
Qed.



Section maze_grid.
Variable ca : cell_automaton.
Variable side : Z.
Hypothesis Htop : 0 <= nr_states ca < 256.

(** The two loops that seed the maze return a well-formed grid. *)
Lemma ca_gen_maze_seeded (st : libc) :
  exists (seeded : list Z) (st1 : libc),
    for_rangeM side (fun i arr =>
      for_rangeM side (fun j arr =>
        r <- lrand48 ;;
        let v := Z.rem r 8 in
        ret (xyarray_set arr side i j
               (if v <=? nr_states ca then nr_states ca else 0))) arr)
      (replicate (Z.to_nat (side * side)) 0) st = Done (seeded, st1)
    /\ cells_within (nr_states ca) seeded
    /\ length seeded = Z.to_nat (side * side).
Proof.
  unfold for_rangeM.
  destruct (for_each_Done
              (fun i arr =>
                 for_each (seqZ 0 side)
                   (fun j arr =>
                      r <- lrand48 ;;
                      ret (xyarray_set arr side i j
                             (if Z.rem r 8 <=? nr_states ca
                              then nr_states ca else 0))) arr)
              (seqZ 0 side)) with
    (s := replicate (Z.to_nat (side * side)) 0) (st := st)
    as (seeded & st1 & Hseed).
  { intros i s0 st0. apply for_each_Done. intros j s1 st2.
    unfold bind, lrand48, ret. eauto. }
  exists seeded, st1. split; [exact Hseed|].
  set (P := fun arr : list Z =>
              cells_within (nr_states ca) arr
              /\ length arr = Z.to_nat (side * side)).
  refine (for_each_invariant P _ _ _ _ _ _ _ _ Hseed).
  - intros i s0 st0 s1 st2 Hs0 Hrow.
    refine (for_each_invariant P _ _ _ _ _ _ _ Hs0 Hrow).
    intros j s2 st3 s3 st4 [Hc Hl] Hcell.
    apply bind_Done in Hcell as (r & st5 & _ & Hcell).
    unfold ret in Hcell. inversion Hcell; subst s3 st4. split.
    + apply xyarray_set_within; [|lia|exact Hc].
      destruct (Z.rem r 8 <=? nr_states ca); lia.
    + unfold xyarray_set. rewrite length_arr_store. exact Hl.
  - split.
    + unfold cells_within. apply Forall_replicate. lia.
    + apply length_replicate.
Qed.

Lemma for_range_steps_grid (steps : Z) (arr : list Z) :
  cells_within (nr_states ca) arr ->
  cells_within (nr_states ca)
    (for_range steps (fun _ arr => cell_aut_step ca arr side) arr)
  /\ length (for_range steps (fun _ arr => cell_aut_step ca arr side) arr)
     = length arr.
Proof.
  intros Harr. unfold for_range.
  apply (foldl_invariant
           (fun a => cells_within (nr_states ca) a
                     /\ length a = length arr)).
  - split; [exact Harr|reflexivity].
  - intros s k _ [Hc Hl]. split.
    + apply cell_aut_step_within; assumption.
    + rewrite length_cell_aut_step. exact Hl.
Qed.


(** The generator returns when the log of the maze stays inside its
    arrays. *)
Lemma ca_gen_maze_returns (steps : Z) (st : libc) :
  nr_states ca <= 22 -> side < 1024 ->
  exists (maze : list Z) (st' : libc),
    ca_gen_maze ca side steps st = Done (maze, st').
Proof.
  intros Hch Hside. unfold ca_gen_maze.
  destruct (ca_gen_maze_seeded st) as (seeded & st1 & Hseed & Hc & Hl).
  cbv zeta in Hseed |- *. unfold bind at 1. rewrite Hseed.
  destruct (for_range_steps_grid steps seeded Hc) as [Hc' _].
  unfold bind at 1. rewrite xyarray_print_ok.
  - unfold ret. eauto.
  - intros H1. split; [lia|]. intros i j _ _.
    pose proof (xyarray_get_within (nr_states ca) _ side i j
                  ltac:(lia) Hc'). lia.
Qed.

End maze_grid.



(** ** Seed-height lookup *)

Lemma mapped_coord_range (n x : Z) : 1 <= n -> 0 <= mapped_coord n x < n.
Proof.
  intros Hn. unfold mapped_coord.
  destruct (x <? 0) eqn:E1; [lia|].
  destruct (x >=? n) eqn:E2; lia.
Qed.

Section seed_lookup.
Context {F : Type} {ops : FloatOps F}.

(** X7: the seed-height lookup stays inside [map0].  For a grid of at
    least one vertex per side and any pair of [int] coordinates,
    [get_mapped_rand_height] reads the element [mapped_index], which lies
    in [0, nr_vert * nr_vert).  The wrap is a single step and not a
    remainder: every negative coordinate reads row (column)
    [nr_vert - 1], every coordinate from [nr_vert] on reads row (column)
    0. *)
Theorem get_mapped_rand_height_in_bounds (t : terrain F) (x z : Z) :
  1 <= t_nr_vert t ->
  get_mapped_rand_height t x z
  = farr_load (t_map0 t) (mapped_index (t_nr_vert t) x z)
  /\ 0 <= mapped_index (t_nr_vert t) x z < t_nr_vert t * t_nr_vert t
  /\ (x < 0 -> get_mapped_rand_height t x z
               = get_mapped_rand_height t (t_nr_vert t - 1) z)
  /\ (t_nr_vert t <= x -> get_mapped_rand_height t x z
                          = get_mapped_rand_height t 0 z).
Proof.
  intros Hn. split; [reflexivity|]. split.
  - unfold mapped_index.
    pose proof (mapped_coord_range (t_nr_vert t) x Hn).
    pose proof (mapped_coord_range (t_nr_vert t) z Hn). nia.
  - unfold get_mapped_rand_height. split.
    + intros Hx. destruct (x <? 0) eqn:E1; [|lia].
      destruct (t_nr_vert t - 1 <? 0) eqn:E2; [lia|].
      destruct (t_nr_vert t - 1 >=? t_nr_vert t) eqn:E3; [lia|].
      reflexivity.
    + intros Hx. destruct (x <? 0) eqn:E1; [lia|].
      destruct (x >=? t_nr_vert t) eqn:E2; [|lia].
      simpl (0 <? 0). destruct (0 >=? t_nr_vert t) eqn:E3; [lia|].
      reflexivity.
Qed.
End seed_lookup.

Lemma get_mapped_rand_height_in_bounds_witness :
  let t : terrain (option Q) :=
    {| t_seed := 0; t_map := None;
       t_map0 := Some [Some 1%Q; Some 2%Q; Some 3%Q; Some 4%Q];
       t_x := Some 0%Q; t_y := Some 0%Q; t_z := Some 0%Q;
       t_side := 1; t_nr_vert := 2 |} in
  0 <= mapped_index (t_nr_vert t) 5 (-3) < t_nr_vert t * t_nr_vert t.
Proof.
  intros t.
  apply (proj1 (proj2 (get_mapped_rand_height_in_bounds t 5 (-3)
                         ltac:(simpl; lia)))).
Defined.

(** ** BSP: point location *)

Section bsp_location.
Context {F : Type} {ops : FloatOps F}.

Lemma bsp_leaves_are_leaves (t l : bsp_part F) :
  l ∈ bsp_leaves t -> bsp_is_leaf l = true.
Proof.
  induction t as [x y w h amp oct|x y w h amp oct a IHa b IHb]; simpl.
  - intros Hl. apply list_elem_of_singleton in Hl. subst l. reflexivity.
  - intros Hl. apply elem_of_app in Hl as [Hl|Hl]; auto.
Qed.

Lemma bsp_find_in_leaves (t : bsp_part F) (x y : Z) :
  bsp_find t x y ∈ bsp_leaves t.
Proof.
  induction t as [x0 y0 w h amp oct|x0 y0 w h amp oct a IHa b IHb]; simpl.
  - apply list_elem_of_here.
  - apply elem_of_app.
    destruct (bsp_area a <? bsp_area b).
    + destruct (bsp_within b x y); auto.
    + destruct (bsp_within a x y); auto.
Qed.

(** X8: point location always ends in a leaf of the tree.  For every tree
    and every point, inside the root rectangle or not, [bsp_find] returns
    one of the leaves of the tree, so the node it returns never has
    children. *)
Theorem bsp_find_leaf (t : bsp_part F) (x y : Z) :
  bsp_find t x y ∈ bsp_leaves t
  /\ bsp_is_leaf (bsp_find t x y) = true.
Proof.
  split; [apply bsp_find_in_leaves|].
  apply (bsp_leaves_are_leaves t), bsp_find_in_leaves.
Qed.

(** X9: the neighbour queries return the node they were given only at or
    beyond the edge of the root rectangle.  For a point strictly between
    the left and the right edge of the root, [bsp_xneigh] returns a leaf
    of the tree, and so does [bsp_yneigh] for a point strictly between the
    lower and the upper edge; in every case the result is the given node
    or a leaf of the tree. *)
Theorem bsp_neigh_leaf (top node : bsp_part F) (x y : Z) :
  (bsp_xneigh top node x y = node \/ bsp_xneigh top node x y ∈ bsp_leaves top)
  /\ (bsp_yneigh top node x y = node
      \/ bsp_yneigh top node x y ∈ bsp_leaves top)
  /\ (node_x top < x < node_x top + node_w top ->
      bsp_xneigh top node x y ∈ bsp_leaves top)
  /\ (node_y top < y < node_y top + node_h top ->
      bsp_yneigh top node x y ∈ bsp_leaves top).
Proof.
  unfold bsp_xneigh, bsp_yneigh.
  split; [|split; [|split]].
  - destruct (Fle _ _); simpl.
    + destruct (x >=? _); [left; reflexivity|right; apply bsp_find_in_leaves].
    + destruct (x <=? _); [left; reflexivity|right; apply bsp_find_in_leaves].
  - destruct (Fle _ _); simpl.
    + destruct (y >=? _); [left; reflexivity|right; apply bsp_find_in_leaves].
    + destruct (y <=? _); [left; reflexivity|right; apply bsp_find_in_leaves].
  - intros Hx. destruct (Fle _ _); simpl.
    + destruct (x >=? _) eqn:E; [lia|apply bsp_find_in_leaves].
    + destruct (x <=? _) eqn:E; [lia|apply bsp_find_in_leaves].
  - intros Hy. destruct (Fle _ _); simpl.
    + destruct (y >=? _) eqn:E; [lia|apply bsp_find_in_leaves].
    + destruct (y <=? _) eqn:E; [lia|apply bsp_find_in_leaves].
Qed.

(** X10: the region test of a node never accepts a point outside the
    node's rectangle, whether it is the rectangle test or the ellipse
    test that is applied. *)
Theorem bsp_within_inside_rect (bp : bsp_part F) (x y : Z) :
  bsp_within bp x y = true -> bsp_within_rect bp x y = true.
Proof.
  unfold bsp_within, bsp_within_ellipse.
  destruct (has_grandchild bp); [auto|].
  destruct (bsp_within_rect bp x y); [reflexivity|]. simpl. auto.
Qed.
End bsp_location.

Lemma bsp_neigh_leaf_witness :
  let top : bsp_part (option Q) :=
    bsp_node 0 0 4 4 (Some 0%Q) 0
      (bsp_leaf 0 0 2 4 (Some 1%Q) 3) (bsp_leaf 2 0 2 4 (Some 2%Q) 4) in
  bsp_xneigh top top 1 1 ∈ bsp_leaves top.
Proof.
  intros top.
  apply (proj1 (proj2 (proj2 (bsp_neigh_leaf top top 1 1)))).
  simpl. lia.
Defined.

Lemma bsp_within_inside_rect_witness :
  let bp : bsp_part (option Q) := bsp_leaf 0 0 4 4 (Some 1%Q) 3 in
  bsp_within_rect bp 2 2 = true.
Proof.
  intros bp. apply (bsp_within_inside_rect bp 2 2). reflexivity.
Defined.

(** ** BSP: the shape of a built tree *)

Lemma land_3_range (r : Z) : 0 <= Z.land r 3 <= 3.
Proof.
  change 3 with (Z.ones 2) at 1 2. rewrite Z.land_ones by lia.
  pose proof (Z.mod_pos_bound r (2 ^ 2) ltac:(lia)). lia.
Qed.

Section bsp_shape_facts.
Context {F : Type} {ops : FloatOps F}.

Lemma terrain_bsp_cb_leaf (node : bsp_part F) (level : Z) (st st' : libc)
    (c : bsp_part F) :
  terrain_bsp_cb node level st = Done (c, st') ->
  exists amp oct,
    c = bsp_leaf (node_x node) (node_y node) (node_w node) (node_h node)
          amp oct
    /\ 3 <= oct <= 6.
Proof.
  unfold terrain_bsp_cb. intros Hrun.
  apply bind_Done in Hrun as (d & st1 & _ & Hrun).
  apply bind_Done in Hrun as (r & st2 & _ & Hrun).
  unfold ret in Hrun. inversion Hrun; subst c st'.
  eexists _, _. split; [reflexivity|].
  pose proof (land_3_range r). lia.
Qed.

(** Whatever the recursion budget, a run that returns has kept to the
    levels: children are leaves with 3 to 6 octaves or nodes split one
    level down, the latter only up to level 16. *)
Lemma bsp_part_one_levels (top : bsp_part F) :
  forall (fuel : nat) (root : bsp_part F) (level : Z) (st st' : libc)
         (t : bsp_part F),
    bsp_part_one fuel terrain_bsp_cb top root level st = Done (t, st') ->
    bsp_levels level t.
Proof.
  induction fuel as [|fuel IH]; intros root level st st' t Hrun;
    [discriminate|].
  cbn [bsp_part_one] in Hrun.
  apply bind_Done in Hrun as (frac & st1 & _ & Hrun).
  apply bind_Done in Hrun as (q1 & st2 & _ & Hrun).
  apply bind_Done in Hrun as (vertical & st3 & _ & Hrun).
  apply bind_Done in Hrun as (split_a & st4 & Hsa & Hrun).
  apply bind_Done in Hrun as (a & st5 & Ha & Hrun).
  apply bind_Done in Hrun as (split_b & st6 & Hsb & Hrun).
  apply bind_Done in Hrun as (b & st7 & Hb & Hrun).
  unfold ret in Hrun. inversion Hrun; subst t st'. clear Hrun.
  assert (Hchild : forall (c0 c parent : bsp_part F) (split : bool)
                          s0 s s',
            bsp_needs_split top c0 parent level s0 = Done (split, s) ->
            (if split
             then bsp_part_one fuel terrain_bsp_cb top c0 (level + 1)
             else terrain_bsp_cb c0 level) s = Done (c, s') ->
            match c with
            | bsp_leaf _ _ _ _ _ oct => 3 <= oct <= 6
            | bsp_node _ _ _ _ _ _ _ _ =>
                level <= 16 /\ bsp_levels (level + 1) c
            end).
  { intros c0 c parent [|] s0 s s' Hsplit Hc.
    - apply bsp_needs_split_true in Hsplit as [Hl _].
      apply IH in Hc. destruct c; [destruct Hc|]. split; assumption.
    - apply terrain_bsp_cb_leaf in Hc as (amp & oct & -> & Hoct).
      exact Hoct. }
  cbn [bsp_levels]. split.
  - exact (Hchild _ _ _ _ _ _ _ Hsa Ha).
  - exact (Hchild _ _ _ _ _ _ _ Hsb Hb).
Qed.

Lemma bsp_levels_octaves (t : bsp_part F) :
  forall level : Z,
    bsp_levels level t ->
    Forall (fun l => 3 <= node_oct l <= 6) (bsp_leaves t).
Proof.
  induction t as [x y w h amp oct|x y w h amp oct a IHa b IHb];
    intros level Ht; [destruct Ht|].
  cbn [bsp_levels] in Ht. destruct Ht as [Hta Htb].
  cbn [bsp_leaves]. apply Forall_app. split.
  - destruct a as [xa ya wa ha ampa octa|]; simpl.
    + constructor; [exact Hta|constructor].
    + apply (IHa (level + 1)), Hta.
  - destruct b as [xb yb wb hb ampb octb|]; simpl.
    + constructor; [exact Htb|constructor].
    + apply (IHb (level + 1)), Htb.
Qed.

Lemma bsp_levels_height (t : bsp_part F) :
  forall level : Z,
    bsp_levels level t -> bsp_height t <= Z.max 1 (18 - level).
Proof.
  induction t as [x y w h amp oct|x y w h amp oct a IHa b IHb];
    intros level Ht; [destruct Ht|].
  cbn [bsp_levels] in Ht. destruct Ht as [Hta Htb].
  cbn [bsp_height].
  assert (Ha : bsp_height a <= Z.max 0 (17 - level)).
  { destruct a as [|xa ya wa ha ampa octa a1 a2]; [simpl; lia|].
    destruct Hta as [Hl Hta]. specialize (IHa (level + 1) Hta). lia. }
  assert (Hb : bsp_height b <= Z.max 0 (17 - level)).
  { destruct b as [|xb yb wb hb ampb octb b1 b2]; [simpl; lia|].
    destruct Htb as [Hl Htb]. specialize (IHb (level + 1) Htb). lia. }
  lia.
Qed.

(** X11: in a tree built by [bsp_process] with [terrain_bsp_cb] every
    leaf stores between 3 and 6 octaves, whatever [rand] returns, and the
    root is not a leaf. *)
Theorem bsp_process_octaves (fuel : nat) (seed depth x y w h : Z)
    (st st' : libc) (t : bsp_part F) :
  bsp_process fuel seed depth x y w h terrain_bsp_cb st = Done (t, st') ->
  Forall (fun l => 3 <= node_oct l <= 6) (bsp_leaves t)
  /\ bsp_is_leaf t = false.
Proof.
  unfold bsp_process. intros Hrun.
  apply bind_Done in Hrun as ([] & st1 & _ & Hrun).
  apply bsp_part_one_levels in Hrun. split.
  - apply (bsp_levels_octaves t 0 Hrun).
  - destruct t; [destruct Hrun|reflexivity].
Qed.

(** X12: the level limit bounds the tree.  A tree built by [bsp_process]
    is at most 18 levels deep, for every seed, rectangle and recursion
    budget: a node is split further only up to level 16. *)
Theorem bsp_process_height (fuel : nat) (seed depth x y w h : Z)
    (st st' : libc) (t : bsp_part F) :
  bsp_process fuel seed depth x y w h terrain_bsp_cb st = Done (t, st') ->
  1 <= bsp_height t <= 18.
Proof.
  unfold bsp_process. intros Hrun.
  apply bind_Done in Hrun as ([] & st1 & _ & Hrun).
  apply bsp_part_one_levels in Hrun.
  pose proof (bsp_levels_height t 0 Hrun) as Hh.
  destruct t as [|x0 y0 w0 h0 amp oct a b]; [destruct Hrun|].
  cbn [bsp_height] in *.
  assert (0 <= bsp_height a).
  { clear. induction a; simpl; lia. }
  lia.
Qed.
End bsp_shape_facts.

Lemma bsp_process_octaves_witness :
  exists (t : bsp_part (option Q)) (st' : libc),
    bsp_process 18 42 3 0 0 8 8 terrain_bsp_cb (QX.libc_at 0 2)
    = Done (t, st')
    /\ Forall (fun l => 3 <= node_oct l <= 6) (bsp_leaves t)
    /\ bsp_is_leaf t = false.
Proof.
  destruct (bsp_process 18 42 3 0 0 8 8 terrain_bsp_cb (QX.libc_at 0 2))
    as [[t st']| | |] eqn:Erun; [|vm_compute in Erun; discriminate..].
  exists t, st'. split; [reflexivity|].
  exact (bsp_process_octaves 18 42 3 0 0 8 8 (QX.libc_at 0 2) st' t Erun).
Defined.

Lemma bsp_process_height_witness :
  exists (t : bsp_part (option Q)) (st' : libc),
    bsp_process 18 42 3 0 0 8 8 terrain_bsp_cb (QX.libc_at 0 2)
    = Done (t, st')
    /\ 1 <= bsp_height t <= 18.
Proof.
  destruct (bsp_process 18 42 3 0 0 8 8 terrain_bsp_cb (QX.libc_at 0 2))
    as [[t st']| | |] eqn:Erun; [|vm_compute in Erun; discriminate..].
  exists t, st'. split; [reflexivity|].
  exact (bsp_process_height 18 42 3 0 0 8 8 (QX.libc_at 0 2) st' t Erun).
Defined.

(** ** BSP: the leaves partition the root rectangle *)

Section bsp_partition.
Context {F : Type} {ops : FloatOps F} {laws : FloatLaws F}.

Local Ltac point_cases :=
  repeat match goal with
         | |- context [?a >=? ?b] => destruct (Z.geb_spec a b)
         | |- context [?a <? ?b] => destruct (Z.ltb_spec a b)
         end; simpl; try reflexivity; lia.

(** A run of [bsp_part_one] that returns has cut every internal node in
    two along one axis, with the cut within the side. *)
Lemma bsp_part_one_well_split (wmax hmax : Z) (top : bsp_part F) :
  wmax < 2 ^ 31 -> hmax < 2 ^ 31 ->
  forall (fuel : nat) (root : bsp_part F) (level : Z) (st st' : libc)
         (t : bsp_part F),
    0 <= node_w root <= wmax -> 0 <= node_h root <= hmax ->
    bsp_part_one fuel terrain_bsp_cb top root level st = Done (t, st') ->
    same_rect t root /\ bsp_well_split t.
Proof.
  intros HW HH.
  induction fuel as [|fuel IH]; intros root level st st' t Hw Hh Hrun;
    [discriminate|].
  cbn [bsp_part_one] in Hrun.
  apply bind_Done in Hrun as (frac & st1 & _ & Hrun).
  apply bind_Done in Hrun as (q1 & st2 & Hq1 & Hrun).
  apply cdiv_Done in Hq1 as [Hh0 Hq1]. inversion Hq1; subst q1 st2.
  apply bind_Done in Hrun as (vertical & st3 & Hvert & Hrun).
  assert (Hw0 : node_w root <> 0).
  { destruct (Z.quot (node_w root) (node_h root) >? 4) eqn:Eq1.
    - intros Hz. rewrite Hz, Z.quot_0_l in Eq1 by assumption.
      discriminate.
    - apply bind_Done in Hvert as (q2 & st2 & Hq2 & _).
      apply cdiv_Done in Hq2 as [Hnz _]. exact Hnz. }
  clear Hvert Hq1.
  set (fr := clampd frac _ _) in Hrun.
  set (cut := if vertical then bsp_cut fr (node_w root)
              else bsp_cut fr (node_h root)).
  assert (Hcut : if vertical then 0 <= cut <= node_w root
                 else 0 <= cut <= node_h root).
  { unfold cut. destruct vertical; apply bsp_cut_range; lia. }
  set (a0 := if vertical then bsp_fresh _ _ _ _ else _) in Hrun.
  set (b0 := if vertical then bsp_fresh (_ + node_w a0) _ _ _ else _)
    in Hrun.
  assert (Ha0 : same_rect a0
            (if vertical
             then bsp_fresh (node_x root) (node_y root) cut (node_h root)
             else bsp_fresh (node_x root) (node_y root) (node_w root)
                    cut)).
  { unfold a0, cut. destruct vertical; repeat split. }
  assert (Hb0 : same_rect b0
            (if vertical
             then bsp_fresh (node_x root + cut) (node_y root)
                    (node_w root - cut) (node_h root)
             else bsp_fresh (node_x root) (node_y root + cut)
                    (node_w root) (node_h root - cut))).
  { unfold b0, a0, cut. destruct vertical; repeat split. }
  assert (Hchild : forall (c0 c : bsp_part F) (split : bool) s s',
            0 <= node_w c0 <= wmax -> 0 <= node_h c0 <= hmax ->
            (if split
             then bsp_part_one fuel terrain_bsp_cb top c0 (level + 1)
             else terrain_bsp_cb c0 level) s = Done (c, s') ->
            same_rect c c0 /\ bsp_well_split c).
  { intros c0 c split s s' Hcw Hch Hc. destruct split.
    - apply (IH c0 (level + 1) s s' c); assumption.
    - destruct (terrain_bsp_cb_Done c0 level s) as (amp & oct & s2 & E).
      rewrite E in Hc. inversion Hc; subst.
      split; [repeat split|exact I]. }
  apply bind_Done in Hrun as (split_a & st4 & _ & Hrun).
  apply bind_Done in Hrun as (a & st5 & Ha & Hrun).
  apply bind_Done in Hrun as (split_b & st6 & _ & Hrun).
  apply bind_Done in Hrun as (b & st7 & Hb & Hrun).
  unfold ret in Hrun. inversion Hrun; subst t st7. clear Hrun.
  assert (Ha0w : 0 <= node_w a0 <= wmax /\ 0 <= node_h a0 <= hmax).
  { destruct Ha0 as (_ & _ & -> & ->). destruct vertical; simpl; lia. }
  assert (Hb0w : 0 <= node_w b0 <= wmax /\ 0 <= node_h b0 <= hmax).
  { destruct Hb0 as (_ & _ & -> & ->). destruct vertical; simpl; lia. }
  apply Hchild in Ha as [Hra Hta]; [|apply Ha0w..].
  apply Hchild in Hb as [Hrb Htb]; [|apply Hb0w..].
  split; [repeat split|].
  cbn [bsp_well_split]. split; [|split; assumption].
  exists vertical, cut. cbn [node_x node_y node_w node_h].
  split; [lia|]. split; [lia|]. split; [exact Hcut|].
  split; [apply (same_rect_trans _ a0)|apply (same_rect_trans _ b0)];
    assumption.
Qed.

Lemma leaves_at_node (x y w h : Z) (amp : F) (oct : Z) (a b : bsp_part F)
    (px py : Z) :
  leaves_at (bsp_node x y w h amp oct a b) px py
  = (leaves_at a px py + leaves_at b px py)%nat.
Proof.
  unfold leaves_at. cbn [bsp_leaves].
  rewrite List.filter_app, length_app. reflexivity.
Qed.

(** In a tree cut in two at every internal node, a point lies in the
    rectangle of exactly one leaf if it lies in the rectangle of the
    root, and of none otherwise. *)
Lemma bsp_well_split_leaves_at (t : bsp_part F) (px py : Z) :
  bsp_well_split t ->
  leaves_at t px py = if bsp_within_rect t px py then 1%nat else 0%nat.
Proof.
  induction t as [x y w h amp oct|x y w h amp oct a IHa b IHb];
    intros Ht.
  - unfold leaves_at. cbn [bsp_leaves List.filter].
    destruct (bsp_within_rect _ px py); reflexivity.
  - cbn [bsp_well_split] in Ht.
    destruct Ht as ((vertical & cut & Hw & Hh & Hcut & Ha & Hb) & Hta & Htb).
    rewrite leaves_at_node, (IHa Hta), (IHb Htb).
    rewrite (same_rect_within _ _ px py Ha), (same_rect_within _ _ px py Hb).
    cbn [node_x node_y node_w node_h] in *.
    destruct vertical; unfold bsp_within_rect; simpl; point_cases.
Qed.

Lemma bsp_tiled_leaves_area (t : bsp_part F) :
  bsp_tiled t -> leaves_area t = bsp_area t.
Proof.
  induction t as [x y w h amp oct|x y w h amp oct a IHa b IHb];
    intros Ht.
  - unfold leaves_area. simpl. lia.
  - cbn [bsp_tiled] in Ht. destruct Ht as (Harea & _ & Hta & Htb).
    rewrite <- Harea, <- (IHa Hta), <- (IHb Htb).
    unfold leaves_area. cbn [bsp_leaves].
    rewrite fmap_app, foldr_app.
    generalize (bsp_area <$> bsp_leaves a) as la.
    generalize (foldr Z.add 0 (bsp_area <$> bsp_leaves b)) as sb.
    intros sb la. induction la as [|v la IHla]; simpl; lia.
Qed.

(** X13: the leaves of a built tree partition the root rectangle.  When
    [bsp_process] returns a tree for a rectangle with non-negative sides
    that fit an [int], every point of that rectangle lies in the
    rectangle of exactly one leaf, and a point outside it lies in none. *)
Theorem bsp_process_leaves_partition (fuel : nat) (seed depth x y w h : Z)
    (st st' : libc) (t : bsp_part F) (px py : Z) :
  0 <= w < 2 ^ 31 -> 0 <= h < 2 ^ 31 ->
  bsp_process fuel seed depth x y w h terrain_bsp_cb st = Done (t, st') ->
  leaves_at t px py
  = if (x <=? px) && (px <? x + w) && (y <=? py) && (py <? y + h)
    then 1%nat else 0%nat.
Proof.
  intros Hw Hh Hrun. unfold bsp_process in Hrun.
  apply bind_Done in Hrun as ([] & st1 & _ & Hrun).
  apply (bsp_part_one_well_split w h) in Hrun as [Hrect Hsplit];
    simpl; try lia.
  rewrite (bsp_well_split_leaves_at t px py Hsplit).
  rewrite (same_rect_within _ _ px py Hrect).
  unfold bsp_within_rect. simpl. rewrite Z.geb_leb, (Z.geb_leb py y).
  reflexivity.
Qed.

(** X14: the areas of the leaves of a built tree add up to the area of
    the root rectangle, [w * h], when that area fits an [int]. *)
Theorem bsp_process_leaves_area (fuel : nat) (seed depth x y w h : Z)
    (st st' : libc) (t : bsp_part F) :
  0 <= w < 2 ^ 31 -> 0 <= h < 2 ^ 31 -> w * h < 2 ^ 31 ->
  bsp_process fuel seed depth x y w h terrain_bsp_cb st = Done (t, st') ->
  leaves_area t = w * h.
Proof.
  intros Hw Hh Hwh Hrun. unfold bsp_process in Hrun.
  apply bind_Done in Hrun as ([] & st1 & _ & Hrun).
  apply (bsp_part_one_tiled w h) in Hrun as [Hrect Htiled];
    simpl; try lia.
  rewrite (bsp_tiled_leaves_area t Htiled), (same_rect_area _ _ Hrect).
  unfold bsp_area. simpl. apply to_int_small. nia.
Qed.
End bsp_partition.

Lemma bsp_process_leaves_partition_witness :
  exists (t : bsp_part (option Q)) (st' : libc),
    bsp_process 18 42 3 0 0 8 8 terrain_bsp_cb (QX.libc_at 0 2)
    = Done (t, st')
    /\ leaves_at t 5 2 = 1%nat /\ leaves_at t 8 2 = 0%nat.
Proof.
  destruct (bsp_process 18 42 3 0 0 8 8 terrain_bsp_cb (QX.libc_at 0 2))
    as [[t st']| | |] eqn:Erun; [|vm_compute in Erun; discriminate..].
  exists t, st'. split; [reflexivity|]. split.
  - exact (bsp_process_leaves_partition 18 42 3 0 0 8 8 (QX.libc_at 0 2)
             st' t 5 2 ltac:(lia) ltac:(lia) Erun).
  - exact (bsp_process_leaves_partition 18 42 3 0 0 8 8 (QX.libc_at 0 2)
             st' t 8 2 ltac:(lia) ltac:(lia) Erun).
Defined.

Lemma bsp_process_leaves_area_witness :
  exists (t : bsp_part (option Q)) (st' : libc),
    bsp_process 18 42 3 0 0 8 8 terrain_bsp_cb (QX.libc_at 0 2)
    = Done (t, st')
    /\ leaves_area t = 64.
Proof.
  destruct (bsp_process 18 42 3 0 0 8 8 terrain_bsp_cb (QX.libc_at 0 2))
    as [[t st']| | |] eqn:Erun; [|vm_compute in Erun; discriminate..].
  exists t, st'. split; [reflexivity|].
  exact (bsp_process_leaves_area 18 42 3 0 0 8 8 (QX.libc_at 0 2) st' t
           ltac:(lia) ltac:(lia) ltac:(lia) Erun).
Defined.

(** ** BSP: a rectangle with an empty side *)

Section bsp_degenerate.
Context {F : Type} {ops : FloatOps F}.

(** X15: [bsp_process] divides by zero on a rectangle with an empty
    side.  Whatever the seed, the callback and the state of the
    generators, the first split computes [w / h] and, unless that
    exceeds 4, [h / w], so a run on a rectangle with [w = 0] or [h = 0]
    ends in the division and returns no tree; this is what the builder
    does for a grid of no vertices. *)
Theorem bsp_process_degenerate (fuel : nat) (seed depth x y w h : Z)
    (cb : bsp_part F -> Z -> M (bsp_part F)) (st : libc) :
  w = 0 \/ h = 0 ->
  bsp_process (S fuel) seed depth x y w h cb st = DivByZero
  /\ forall (tv_nsec : Z) (ox oy oz side : F),
       terrain_init_square_landscape (S fuel) tv_nsec ox oy oz side 0 st
       = DivByZero.
Proof.
  intros Hwh.
  assert (Htrap : forall seed' depth' x' y' w' h' cb' st0,
            w' = 0 \/ h' = 0 ->
            bsp_process (S fuel) seed' depth' x' y' w' h' cb' st0
            = DivByZero).
  { clear. intros seed depth x y w h cb st Hwh.
    unfold bsp_process. unfold bind at 1. unfold srand48.
    cbn [bsp_part_one]. unfold bind at 1.
    match goal with
    | |- match ?m with _ => _ end = _ =>
        destruct m as [[v' st']| | |] eqn:E'
    end; [|reflexivity| |].
    - unfold bind at 1. unfold cdiv. cbn [node_w node_h bsp_fresh].
      destruct (h =? 0) eqn:Eh; [reflexivity|].
      assert (Hw : w = 0) by lia. subst w.
      unfold ret at 1. unfold bind at 1. rewrite Z.quot_0_l by lia.
      change (0 >? 4) with false. cbv iota.
      unfold bind at 1. change (0 =? 0) with true. reflexivity.
    - unfold drand48, bind, drand48_bits, ret in E'. discriminate.
    - unfold drand48, bind, drand48_bits, ret in E'. discriminate. }
  split; [apply Htrap, Hwh|].
  intros tv_nsec ox oy oz side. unfold terrain_init_square_landscape.
  unfold bind at 1.
  destruct (ca_gen_maze_returns ca_test (Z.quot 0 MAZE_FAC)
              ltac:(simpl; lia) 3 st ltac:(simpl; lia)
              ltac:(reflexivity))
    as (maze & st0 & ->).
  unfold bind at 1. rewrite Htrap by (left; reflexivity). reflexivity.
Qed.
End bsp_degenerate.

Lemma bsp_process_degenerate_witness :
  bsp_process 18 42 3 0 0 0 8 (terrain_bsp_cb (F := option Q))
    (QX.libc_at 0 0) = DivByZero
  /\ forall (tv_nsec : Z) (ox oy oz side : option Q),
       terrain_init_square_landscape 18 tv_nsec ox oy oz side 0
         (QX.libc_at 0 0) = DivByZero.
Proof.
  apply (bsp_process_degenerate 17 42 3 0 0 0 8 terrain_bsp_cb
           (QX.libc_at 0 0)).
  left. reflexivity.
Defined.

(** ** Height queries inside the grid *)

Section height_query_interior.
Context {F : Type} {ops : FloatOps F}.

(** A query whose grid cell is one of the [(nr_vert - 1)] by
    [(nr_vert - 1)] cells of the grid reads three elements inside the
    height map. *)
Lemma terrain_height_reads_inside (t : terrain F) (m : list F) (x z : F) :
  t_map t = Some m ->
  Z.of_nat (length m) = t_nr_vert t * t_nr_vert t ->
  t_nr_vert t * t_nr_vert t <= 2 ^ 32 ->
  0 <= (terrain_grid t x z).1 <= t_nr_vert t - 2 ->
  0 <= (terrain_grid t x z).2 <= t_nr_vert t - 2 ->
  is_Some (terrain_height t x z).
Proof.
  intros Hmap Hlen Hn Hgx Hgz. unfold terrain_height.
  destruct (terrain_grid t x z) as [gridx gridz]. simpl in Hgx, Hgz.
  rewrite Hmap.
  destruct (terrain_outside t x z); [eexists; reflexivity|].
  assert (Hin : forall k, 0 <= k < t_nr_vert t * t_nr_vert t ->
            exists v, map_read m k = Some v).
  { intros k Hk. unfold map_read, to_uint. rewrite Z.mod_small by lia.
    apply lookup_lt_is_Some_2. lia. }
  destruct (Fle _ _); unfold triangle_indices.
  - destruct (Hin (gridx * t_nr_vert t + gridz) ltac:(nia)) as (h1 & ->).
    destruct (Hin ((gridx + 1) * t_nr_vert t + gridz) ltac:(nia))
      as (h2 & ->).
    destruct (Hin (gridx * t_nr_vert t + gridz + 1) ltac:(nia))
      as (h3 & ->).
    eexists; reflexivity.
  - destruct (Hin ((gridx + 1) * t_nr_vert t + gridz) ltac:(nia))
      as (h1 & ->).
    destruct (Hin ((gridx + 1) * t_nr_vert t + gridz + 1) ltac:(nia))
      as (h2 & ->).
    destruct (Hin (gridx * t_nr_vert t + gridz + 1) ltac:(nia))
      as (h3 & ->).
    eexists; reflexivity.
Qed.

Lemma length_fill (n : Z) (f : Z -> Z -> F) (init : list F) :
  length (for_range n (fun i m =>
            for_range n (fun j m => farr_store m (i * n + j) (f i j)) m)
            init)
  = length init.
Proof.
  rewrite (for_range_scan n (fun i j m => farr_store m (i * n + j) (f i j))).
  change (foldl _ init (scan_cells n))
    with (foldl (fill_step n f) init (scan_cells n)).
  apply length_foldl_store.
Qed.

(** X16: [terrain_height] stays inside the height map on the cells of
    the grid.  With a map of [nr_vert * nr_vert] elements, a query that
    [floorf] assigns to a grid cell [(gridx, gridz)] with both
    coordinates between 0 and [nr_vert - 2] returns a height: each of
    the three elements the chosen triangle reads is an element of the
    map. *)
Theorem terrain_height_interior (t : terrain F) (m : list F) (x z : F) :
  t_map t = Some m ->
  Z.of_nat (length m) = t_nr_vert t * t_nr_vert t ->
  t_nr_vert t * t_nr_vert t <= 2 ^ 32 ->
  0 <= (terrain_grid t x z).1 <= t_nr_vert t - 2 ->
  0 <= (terrain_grid t x z).2 <= t_nr_vert t - 2 ->
  is_Some (terrain_height t x z).
Proof. apply terrain_height_reads_inside. Qed.

(** X17: what the builder hands over.  A run of
    [terrain_init_square_landscape] on a grid of [nr_v] vertices a side
    returns only for [nr_v] below 8192 (the maze has to be below 1024
    cells a side to be logged), where [nr_v * nr_v] does not wrap in
    [unsigned int]; it then gives a terrain with the seed-height grid
    released, a height map of exactly [nr_v * nr_v] elements and the
    origin and the vertex count it was called with, and on it every query
    that falls in a cell of the grid is answered from inside the map. *)
Theorem landscape_result_shape (fuel : nat) (tv_nsec : Z)
    (x y z side : F) (nr_v : Z) (s s' : libc) (t : terrain F) :
  0 <= nr_v ->
  terrain_init_square_landscape fuel tv_nsec x y z side nr_v s
  = Done (t, s') ->
  nr_v < 8192
  /\ t_map0 t = None
  /\ t_nr_vert t = nr_v
  /\ (t_x t, t_y t, t_z t) = (x, y, z)
  /\ (exists m : list F,
        t_map t = Some m /\ Z.of_nat (length m) = nr_v * nr_v)
  /\ forall qx qz : F,
       0 <= (terrain_grid t qx qz).1 <= nr_v - 2 ->
       0 <= (terrain_grid t qx qz).2 <= nr_v - 2 ->
       is_Some (terrain_height t qx qz).
Proof.
  intros Hn0 Hrun. unfold terrain_init_square_landscape in Hrun.
  apply bind_Done in Hrun as (maze & s0 & Hmaze & Hrun).
  apply bind_Done in Hrun as (tree & s1 & _ & Hrun).
  apply bind_Done in Hrun as (map0 & s2 & _ & Hrun).
  unfold ret in Hrun. inversion Hrun as [[Ht Hs]]. clear Hrun.
  apply ca_gen_maze_side in Hmaze.
  assert (Hsmall : nr_v < 8192).
  { unfold MAZE_FAC in Hmaze.
    pose proof (Z.quot_rem' nr_v 8) as Hq.
    pose proof (Z.rem_bound_pos nr_v 8 ltac:(lia) ltac:(lia)). lia. }
  set (map := for_range nr_v _ _) in *.
  assert (Hlen : Z.of_nat (length map) = nr_v * nr_v).
  { unfold map.
    rewrite (length_fill nr_v
               (fun i j =>
                  landscape_height
                    {| t_seed := tv_nsec; t_map := None;
                       t_map0 := Some map0; t_x := x; t_y := y;
                       t_z := z; t_side := to_uint (F2int side);
                       t_nr_vert := nr_v |}
                    tree maze (Z.quot nr_v MAZE_FAC) i j)).
    rewrite length_replicate, to_uint_small by nia. nia. }
  split; [exact Hsmall|].
  split; [reflexivity|]. split; [reflexivity|]. split; [reflexivity|].
  split; [exists map; split; [reflexivity|exact Hlen]|].
  intros qx qz Hgx Hgz.
  apply (terrain_height_reads_inside _ map); simpl; try assumption;
    [reflexivity|nia].
Qed.
End height_query_interior.

Lemma terrain_height_interior_witness :
  is_Some (terrain_height (terrain_2x2 3 1 4 1) (Some (1 # 2))
             (Some (1 # 4))).
Proof.
  apply (terrain_height_interior (terrain_2x2 3 1 4 1)
           [Some 3%Q; Some 1%Q; Some 4%Q; Some 1%Q]);
    [reflexivity|reflexivity|vm_compute; discriminate
    |vm_compute; split; discriminate..].
Defined.

Lemma landscape_result_shape_witness :
  let build :=
    terrain_init_square_landscape 18 44 (Some 0%Q) (Some 0%Q) (Some 0%Q)
      (Some 128%Q) 8 in
  exists (t : terrain (option Q)) (s' : libc),
    build (QX.libc_at 0 0) = Done (t, s')
    /\ 8 < 8192
    /\ t_map0 t = None
    /\ t_nr_vert t = 8
    /\ (t_x t, t_y t, t_z t) = (Some 0%Q, Some 0%Q, Some 0%Q)
    /\ (exists m : list (option Q),
          t_map t = Some m /\ Z.of_nat (length m) = 8 * 8)
    /\ forall qx qz : option Q,
         0 <= (terrain_grid t qx qz).1 <= 8 - 2 ->
         0 <= (terrain_grid t qx qz).2 <= 8 - 2 ->
         is_Some (terrain_height t qx qz).
Proof.
  intros build.
  destruct (build (QX.libc_at 0 0)) as [[t s']| | |] eqn:Erun;
    [|vm_compute in Erun; discriminate..].
  exists t, s'. split; [reflexivity|].
  exact (landscape_result_shape 18 44 (Some 0%Q) (Some 0%Q) (Some 0%Q)
           (Some 128%Q) 8 (QX.libc_at 0 0) s' t ltac:(lia) Erun).
Defined.

(** ** Instantiators: rules without decay *)

Lemma keeps_live_refl (a : list Z) : keeps_live a a.
Proof. split; [reflexivity|auto]. Qed.

Lemma keeps_live_trans (a b c : list Z) :
  keeps_live a b -> keeps_live b c -> keeps_live a c.
Proof.
  intros [Hl1 H1] [Hl2 H2]. split; [congruence|].
  intros k v Hk Hv. apply H2; [|exact Hv]. apply H1; assumption.
Qed.

Lemma keeps_live_get (a b : list Z) (side x y : Z) :
  keeps_live a b -> xyarray_get a side x y <> 0 ->
  xyarray_get b side x y = xyarray_get a side x y.
Proof.
  intros [_ Hab]. unfold xyarray_get.
  destruct (_ || _); [reflexivity|]. unfold arr_load.
  destruct (_ <? 0); [reflexivity|].
  destruct (a !! _) as [v|] eqn:E; simpl; [|intros Hv; lia].
  intros Hv. rewrite (Hab _ _ E Hv). reflexivity.
Qed.

Lemma elem_of_scan_cells (n a b : Z) :
  (a, b) ∈ scan_cells n -> 0 <= a < n /\ 0 <= b < n.
Proof.
  unfold scan_cells. intros Hin.
  apply list_elem_of_bind in Hin as (i & Hin & Hi).
  apply list_elem_of_fmap in Hin as (j & Heq & Hj).
  apply elem_of_seqZ in Hi. apply elem_of_seqZ in Hj.
  inversion Heq; subst. lia.
Qed.

Lemma neigh_mv_range (arr : list Z) (side x y : Z) :
  0 <= neigh_mv arr side x y <= 8.
Proof.
  unfold neigh_mv, neigh_vnv.
  repeat match goal with
         | |- context [cbool ?b] =>
             let H := fresh "H" in
             pose proof (cbool_range b) as H;
             generalize dependent (cbool b); intros
         end.
  lia.
Qed.

Section no_decay.
Variable ca : cell_automaton.
Variable side : Z.
Hypothesis Hdecay : decay ca = false.

(** Under a rule without decay the body of the loops writes a cell of
    the grid only when it is dead. *)
Lemma cell_aut_cell_keeps_live (arr : list Z) (i j : Z) :
  0 <= i < side -> 0 <= j < side ->
  keeps_live arr (cell_aut_cell ca side arr i j).
Proof.
  intros Hi Hj. split; [apply length_cell_aut_cell|].
  intros k v Hk Hv. unfold cell_aut_cell.
  rewrite xyarray_get_inside by assumption. rewrite Hdecay.
  destruct (arr_load arr (j * side + i) =? 0) eqn:Ev; simpl.
  - destruct (mask_has (born ca) _); [|exact Hk].
    unfold xyarray_set.
    destruct (i <? 0) eqn:E1; [lia|].
    destruct (i >=? side) eqn:E2; [lia|].
    destruct (Z.eq_dec (Z.of_nat k) (j * side + i)) as [Heq|Hne].
    + exfalso. apply Z.eqb_eq in Ev. unfold arr_load in Ev.
      destruct (j * side + i <? 0) eqn:E3; [lia|].
      rewrite <- Heq, Nat2Z.id, Hk in Ev. simpl in Ev. contradiction.
    + rewrite lookup_arr_store_ne by assumption. exact Hk.
  - destruct (mask_has (surv ca) _); exact Hk.
Qed.

Lemma foldl_step_keeps_live (l : list (Z * Z)) (arr : list Z) :
  (forall a b, (a, b) ∈ l -> 0 <= a < side /\ 0 <= b < side) ->
  keeps_live arr (foldl (scan_step ca side) arr l).
Proof.
  intros Hl. apply (foldl_invariant (keeps_live arr)).
  - apply keeps_live_refl.
  - intros s [a b] Hin Hs. apply (keeps_live_trans _ s); [exact Hs|].
    destruct (Hl a b Hin). apply cell_aut_cell_keeps_live; assumption.
Qed.

Lemma cell_aut_step_keeps_live (arr : list Z) :
  keeps_live arr (cell_aut_step ca arr side).
Proof.
  rewrite cell_aut_step_scan. apply foldl_step_keeps_live.
  intros a b. apply elem_of_scan_cells.
Qed.

(** What the step leaves in a cell: a live cell as it was, a dead cell
    dead or born. *)
Lemma cell_aut_step_no_decay (arr : list Z) (i j : Z) :
  Z.of_nat (length arr) = side * side ->
  0 <= i < side -> 0 <= j < side ->
  let v := xyarray_get arr side i j in
  let v' := xyarray_get (cell_aut_step ca arr side) side i j in
  (v <> 0 -> v' = v) /\ (v = 0 -> v' = 0 \/ v' = nr_states ca mod 256).
Proof.
  intros Hlen Hi Hj v v'.
  destruct (cell_aut_step_own_cell ca arr side i j Hlen Hi Hj)
    as (g & Hown & Hnext).
  unfold v', v. rewrite Hnext. unfold cell_next, to_uchar.
  rewrite Hown, Hdecay.
  destruct (xyarray_get arr side i j =? 0) eqn:Ev; simpl.
  - apply Z.eqb_eq in Ev. rewrite Ev. split; [intros; lia|].
    intros _. destruct (mask_has (born ca) _); auto.
  - apply Z.eqb_neq in Ev. split; [|intros; lia].
    intros _. destruct (mask_has (surv ca) _); reflexivity.
Qed.

(** Under a rule that counts with [neigh_mv] and bears a cell with up to
    seven live cells around it, a cell that the step leaves dead has
    eight live cells around it. *)
Lemma cell_aut_step_dead_enclosed (arr : list Z) (i j : Z) :
  neigh ca = neigh_mv ->
  (forall n, 0 <= n <= 7 -> mask_has (born ca) n = true) ->
  nr_states ca mod 256 <> 0 ->
  Z.of_nat (length arr) = side * side ->
  0 <= i < side -> 0 <= j < side ->
  xyarray_get (cell_aut_step ca arr side) side i j = 0 ->
  forall c, c ∈ around i j ->
    xyarray_get (cell_aut_step ca arr side) side c.1 c.2 <> 0.
Proof.
  intros Hneigh Hborn Hnr Hlen Hi Hj Hdead.
  destruct (scan_cells_split side i j Hi Hj)
    as (pre & post & Hcells & Hpre & Hpost).
  rewrite cell_aut_step_scan, Hcells, foldl_app in Hdead |- *.
  simpl in Hdead |- *.
  set (g := foldl (scan_step ca side) arr pre) in *.
  assert (Hglen : Z.of_nat (length g) = side * side).
  { unfold g. rewrite length_foldl_step. exact Hlen. }
  set (g1 := scan_step ca side g (i, j)) in *.
  assert (Hg1 : keeps_live g g1).
  { apply cell_aut_cell_keeps_live; assumption. }
  assert (Hfin : keeps_live g1 (foldl (scan_step ca side) g1 post)).
  { apply foldl_step_keeps_live. intros a b Hin.
    destruct (Hpost a b Hin) as (Ha & Hb & _). auto. }
  set (final := foldl (scan_step ca side) g1 post) in *.
  assert (Hown : xyarray_get g1 side i j = 0).
  { destruct (Z.eq_dec (xyarray_get g1 side i j) 0) as [E|E]; [exact E|].
    rewrite <- (keeps_live_get g1 final side i j Hfin E) in E.
    contradiction. }
  assert (Hidx : 0 <= j * side + i < Z.of_nat (length g)) by nia.
  assert (Hcount : xyarray_get g side i j = 0
                   /\ neigh_mv g side i j = 8).
  { rewrite xyarray_get_inside in Hown by assumption.
    unfold g1, scan_step in Hown. simpl in Hown.
    rewrite cell_aut_cell_next in Hown by assumption.
    unfold cell_next in Hown. rewrite Hdecay, Hneigh in Hown.
    destruct (xyarray_get g side i j =? 0) eqn:Ev; simpl in Hown.
    - apply Z.eqb_eq in Ev. split; [exact Ev|].
      destruct (mask_has (born ca) (neigh_mv g side i j)) eqn:Eb.
      + unfold to_uchar in Hown. contradiction.
      + pose proof (neigh_mv_range g side i j) as Hr.
        destruct (Z.eq_dec (neigh_mv g side i j) 8) as [E8|E8];
          [exact E8|].
        rewrite Hborn in Eb by lia. discriminate.
    - apply Z.eqb_neq in Ev.
      destruct (mask_has (surv ca) _); contradiction. }
  destruct Hcount as [Hv Hn].
  assert (Hall : forall c, c ∈ around i j -> xyarray_get g side c.1 c.2 <> 0).
  { unfold neigh_mv, neigh_vnv in Hn. rewrite Hv in Hn.
    intros c Hc. unfold around in Hc.
    repeat match type of Hn with
           | context [cbool ?b] =>
               let Hb := fresh "Hb" in
               pose proof (cbool_range b) as Hb;
               destruct b eqn:?; simpl cbool in Hn, Hb
           end; try lia.
    repeat (apply elem_of_cons in Hc as [->|Hc]; [simpl; lia|]).
    apply elem_of_nil in Hc. destruct Hc. }
  intros c Hc. specialize (Hall c Hc).
  rewrite (keeps_live_get g final side c.1 c.2
             (keeps_live_trans _ _ _ Hg1 Hfin) Hall).
  exact Hall.
Qed.
End no_decay.

(** ** Instantiators on the maze *)

Lemma mask_has_255 (n : Z) : 0 <= n <= 7 -> mask_has 255 n = true.
Proof.
  intros Hn.
  assert (Hcases : n = 0 \/ n = 1 \/ n = 2 \/ n = 3 \/ n = 4 \/ n = 5
                   \/ n = 6 \/ n = 7) by lia.
  repeat destruct Hcases as [->|Hcases]; try reflexivity.
  subst n. reflexivity.
Qed.

Lemma landscape_instantiators_steps (maze : list Z) (mside : Z) :
  exists cool ash : cell_automaton,
    decay cool = false /\ nr_states cool = 20
    /\ decay ash = false /\ nr_states ash = 21
    /\ neigh ash = neigh_mv
    /\ (forall n, 0 <= n <= 7 -> mask_has (born ash) n = true)
    /\ landscape_instantiators maze mside
       = cell_aut_step ash (cell_aut_step cool maze mside) mside.
Proof.
  exists {| born := 63; surv := 255; nr_states := 20; decay := false;
            neigh := neigh_mv |},
    {| born := 255; surv := 255; nr_states := 21; decay := false;
       neigh := neigh_mv |}.
  repeat split. simpl. apply mask_has_255.
Qed.

Lemma instantiators_cell (maze : list Z) (mside i j : Z) :
  Z.of_nat (length maze) = mside * mside ->
  0 <= i < mside -> 0 <= j < mside ->
  let v := xyarray_get maze mside i j in
  let done := landscape_instantiators maze mside in
  let v' := xyarray_get done mside i j in
  (v <> 0 -> v' = v)
  /\ (v = 0 -> v' = 0 \/ v' = 20 \/ v' = 21)
  /\ (v' = 0 ->
      (forall c, c ∈ around i j -> xyarray_get done mside c.1 c.2 <> 0)
      /\ 1 <= i <= mside - 2 /\ 1 <= j <= mside - 2).
Proof.
  intros Hlen Hi Hj v done v'.
  destruct (landscape_instantiators_steps maze mside)
    as (cool & ash & Hdc & Hnc & Hda & Hna & Hneigh & Hborn & Hsteps).
  unfold v', done. rewrite Hsteps. clear v' done.
  set (s1 := cell_aut_step cool maze mside).
  assert (Hlen1 : Z.of_nat (length s1) = mside * mside).
  { unfold s1. rewrite length_cell_aut_step. exact Hlen. }
  destruct (cell_aut_step_no_decay cool mside Hdc maze i j Hlen Hi Hj)
    as [Hlive1 Hdead1].
  destruct (cell_aut_step_no_decay ash mside Hda s1 i j Hlen1 Hi Hj)
    as [Hlive2 Hdead2].
  fold s1 in Hlive1, Hdead1. fold v in Hlive1, Hdead1.
  rewrite Hnc in Hdead1. rewrite Hna in Hdead2.
  change (20 mod 256) with 20 in Hdead1.
  change (21 mod 256) with 21 in Hdead2.
  split; [|split].
  - intros Hv. specialize (Hlive1 Hv). rewrite Hlive2; lia.
  - intros Hv. destruct (Hdead1 Hv) as [E|E].
    + destruct (Hdead2 E) as [E2|E2]; auto.
    + right. left. rewrite Hlive2; lia.
  - intros Hdead.
    pose proof (cell_aut_step_dead_enclosed ash mside Hda s1 i j Hneigh
                  Hborn ltac:(rewrite Hna; discriminate) Hlen1 Hi Hj Hdead)
      as Hall.
    split; [exact Hall|].
    assert (Hin : forall a b,
              xyarray_get (cell_aut_step ash s1 mside) mside a b <> 0 ->
              0 <= a < mside /\ 0 <= b < mside).
    { intros a b Hab.
      destruct (Z.lt_ge_cases a 0);
        [exfalso; apply Hab, xyarray_get_outside; lia|].
      destruct (Z.lt_ge_cases b 0);
        [exfalso; apply Hab, xyarray_get_outside; lia|].
      destruct (Z.lt_ge_cases a mside);
        [|exfalso; apply Hab, xyarray_get_outside; lia].
      destruct (Z.lt_ge_cases b mside);
        [|exfalso; apply Hab, xyarray_get_outside; lia].
      lia. }
    assert (Hne : (i + 1, j + 1) ∈ around i j).
    { unfold around. do 4 apply list_elem_of_further.
      apply list_elem_of_here. }
    assert (Hsw : (i - 1, j - 1) ∈ around i j).
    { unfold around. do 7 apply list_elem_of_further.
      apply list_elem_of_here. }
    pose proof (Hin _ _ (Hall _ Hne)) as H1.
    pose proof (Hin _ _ (Hall _ Hsw)) as H2.
    simpl in H1, H2. lia.
Qed.

(** X18: what the instantiator rules do to the maze.  After the loop
    "place instantiators" a cell of the maze that was alive holds the
    value it had; a cell that was dead is still dead or holds 20 (a
    "cool tree") or 21 (an "ash pinus"); and a cell that is still dead
    has eight live cells around it, so it is not on the border of the
    grid. *)
Theorem landscape_instantiators_cells (maze : list Z) (mside i j : Z) :
  Z.of_nat (length maze) = mside * mside ->
  0 <= i < mside -> 0 <= j < mside ->
  let v := xyarray_get maze mside i j in
  let done := landscape_instantiators maze mside in
  let v' := xyarray_get done mside i j in
  (v <> 0 -> v' = v)
  /\ (v = 0 -> v' = 0 \/ v' = 20 \/ v' = 21)
  /\ (v' = 0 ->
      (forall c, c ∈ around i j -> xyarray_get done mside c.1 c.2 <> 0)
      /\ 1 <= i <= mside - 2 /\ 1 <= j <= mside - 2).
Proof. apply instantiators_cell. Qed.

Lemma landscape_instantiators_cells_witness :
  let maze := [4; 0; 0; 0; 0; 0; 0; 0; 3] in
  let v := xyarray_get maze 3 1 1 in
  let done := landscape_instantiators maze 3 in
  let v' := xyarray_get done 3 1 1 in
  (v <> 0 -> v' = v)
  /\ (v = 0 -> v' = 0 \/ v' = 20 \/ v' = 21)
  /\ (v' = 0 ->
      (forall c, c ∈ around 1 1 -> xyarray_get done 3 c.1 c.2 <> 0)
      /\ 1 <= 1 <= 3 - 2 /\ 1 <= 1 <= 3 - 2).
Proof.
  apply (landscape_instantiators_cells [4; 0; 0; 0; 0; 0; 0; 0; 3] 3 1 1);
    [reflexivity|lia|lia].
Defined.

(** ** Instantiators placed *)

Lemma foldl_append {A B : Type} (g : B -> list A) (l : list B)
    (acc : list A) :
  foldl (fun acc c => acc ++ g c) acc l = acc ++ (l ≫= g).
Proof.
  revert acc. induction l as [|c l IH]; intros acc.
  - simpl. rewrite app_nil_r. reflexivity.
  - rewrite bind_cons. cbn [foldl]. rewrite IH, app_assoc. reflexivity.
Qed.

Section placement_facts.
Context {F : Type} {ops : FloatOps F}.

Lemma place_cell_instors (t : terrain F) (maze : list Z) (mside : Z)
    (x z side : F) (nr_v : Z) (acc : list (instantiator F)) (i j : Z) :
  place_cell t maze mside x z side nr_v acc i j
  = acc ++ cell_instors t maze mside x z side nr_v (i, j).
Proof.
  unfold place_cell, cell_instors, ca_instors. simpl.
  destruct (xyarray_get maze mside i j =? 20) eqn:E20.
  - apply Z.eqb_eq in E20. rewrite E20. reflexivity.
  - destruct (xyarray_get maze mside i j =? 21);
      [reflexivity|rewrite app_nil_r; reflexivity].
Qed.

Lemma landscape_placements_scan (t : terrain F) (maze : list Z)
    (mside : Z) (x z side : F) (nr_v : Z) (acc : list (instantiator F)) :
  landscape_placements t maze mside x z side nr_v acc
  = acc ++ (scan_cells mside ≫= cell_instors t maze mside x z side nr_v).
Proof.
  unfold landscape_placements.
  rewrite (for_range_scan mside
             (fun i j acc => place_cell t maze mside x z side nr_v acc i j)).
  rewrite <- foldl_append. apply foldl_pointwise.
  intros s [i j]. apply place_cell_instors.
Qed.

(** X19: where the instantiators are placed.  On a maze as
    [ca_gen_maze] returns it for the rule [ca_test] (cells between 0 and
    4), after the instantiator rules have run, the last loops append to
    the list of the scene, cell by cell in the order of the two loops,
    one "cool tree" for a cell that holds 20 and one "ash pinus" for a
    cell that holds 21: never two for one cell, none for a cell that was
    alive in the maze, and exactly one for a dead cell of the border of
    the grid. *)
Theorem landscape_placements_on_dead_cells (t : terrain F)
    (maze : list Z) (mside : Z) (x z side : F) (nr_v : Z)
    (acc : list (instantiator F)) :
  Z.of_nat (length maze) = mside * mside -> cells_within 4 maze ->
  let done := landscape_instantiators maze mside in
  let at_cell := cell_instors t done mside x z side nr_v in
  landscape_placements t done mside x z side nr_v acc
  = acc ++ (scan_cells mside ≫= at_cell)
  /\ forall i j : Z, 0 <= i < mside -> 0 <= j < mside ->
       (length (at_cell (i, j)) <= 1)%nat
       /\ (xyarray_get maze mside i j <> 0 -> at_cell (i, j) = [])
       /\ (xyarray_get maze mside i j = 0 ->
           i = 0 \/ j = 0 \/ i = mside - 1 \/ j = mside - 1 ->
           length (at_cell (i, j)) = 1%nat).
Proof.
  intros Hlen Hcells done at_cell.
  split; [apply landscape_placements_scan|].
  intros i j Hi Hj.
  destruct (instantiators_cell maze mside i j Hlen Hi Hj)
    as (Hlive & Hdead & Hempty).
  fold done in Hlive, Hdead, Hempty.
  pose proof (xyarray_get_within 4 maze mside i j ltac:(lia) Hcells) as Hv.
  unfold at_cell, cell_instors. cbn [fst snd].
  split; [|split].
  - destruct (_ =? 20); [simpl; lia|]. destruct (_ =? 21); simpl; lia.
  - intros Hnz. specialize (Hlive Hnz).
    destruct (xyarray_get done mside i j =? 20) eqn:E20; [lia|].
    destruct (xyarray_get done mside i j =? 21) eqn:E21; [lia|].
    reflexivity.
  - intros Hz Hborder.
    destruct (xyarray_get done mside i j =? 20) eqn:E20; [reflexivity|].
    destruct (xyarray_get done mside i j =? 21) eqn:E21; [reflexivity|].
    exfalso. destruct (Hdead Hz) as [E|[E|E]]; [|lia..].
    destruct (Hempty E) as (_ & Hii & Hjj). lia.
Qed.
End placement_facts.

Lemma landscape_placements_on_dead_cells_witness :
  let t := terrain_2x2 3 1 4 1 in
  let maze := [4; 0; 0; 0; 0; 0; 0; 0; 3] in
  let done := landscape_instantiators maze 3 in
  let at_cell := cell_instors t done 3 (Some 0%Q) (Some 0%Q) (Some 1%Q) 2 in
  landscape_placements t done 3 (Some 0%Q) (Some 0%Q) (Some 1%Q) 2 []
  = [] ++ (scan_cells 3 ≫= at_cell)
  /\ forall i j : Z, 0 <= i < 3 -> 0 <= j < 3 ->
       (length (at_cell (i, j)) <= 1)%nat
       /\ (xyarray_get maze 3 i j <> 0 -> at_cell (i, j) = [])
       /\ (xyarray_get maze 3 i j = 0 ->
           i = 0 \/ j = 0 \/ i = 3 - 1 \/ j = 3 - 1 ->
           length (at_cell (i, j)) = 1%nat).
Proof.
  apply (landscape_placements_on_dead_cells (terrain_2x2 3 1 4 1)
           [4; 0; 0; 0; 0; 0; 0; 0; 3] 3 (Some 0%Q) (Some 0%Q) (Some 1%Q)
           2 []).
  - reflexivity.
  - unfold cells_within. repeat constructor; lia.
Defined.

(** ** Normals *)

Section normal_facts.
Context {F : Type} {ops : FloatOps F}.
Variable vec3_norm : F * F * F -> F * F * F.

Lemma map_read_inside (m : list F) (k : Z) (d : F) :
  0 <= k < Z.of_nat (length m) -> k < 2 ^ 32 ->
  map_read m k = Some (default d (m !! Z.to_nat k)).
Proof.
  intros Hk Hk32. unfold map_read. rewrite to_uint_small by lia.
  destruct (lookup_lt_is_Some_2 m (Z.to_nat k) ltac:(lia)) as [v ->].
  reflexivity.
Qed.

Lemma map_read_past (m : list F) (k : Z) :
  Z.of_nat (length m) <= to_uint k -> map_read m k = None.
Proof.
  intros Hk. unfold map_read. apply lookup_ge_None. lia.
Qed.

(** X20: the normal of a vertex of the grid is computed from the
    heights of its four neighbours, with the height 0 in place of a
    neighbour beyond an edge of the grid: the indices that the code
    wraps to the opposite edge are never read, and every read is inside
    the height map. *)
Theorem calc_normal_in_grid (t : terrain F) (m : list F) (x z : Z) :
  t_map t = Some m ->
  Z.of_nat (length m) = t_nr_vert t * t_nr_vert t ->
  1 <= t_nr_vert t < 2 ^ 16 ->
  0 <= x < t_nr_vert t -> 0 <= z < t_nr_vert t ->
  calc_normal vec3_norm t x z
  = Some (vec3_norm
            ((height_or_zero t m (x - 1) z
              - height_or_zero t m (x + 1) z)%S,
             S_of_Z 2,
             (height_or_zero t m x (z - 1)
              - height_or_zero t m x (z + 1))%S)).
Proof.
  intros Hmap Hlen Hn Hx Hz. unfold calc_normal. rewrite Hmap. simpl.
  set (n := t_nr_vert t) in *.
  assert (Hn2 : n * n < 2 ^ 32) by nia.
  rewrite (to_uint_small x), (to_uint_small z), (to_uint_small (n - 1))
    by lia.
  assert (Hl : (if x =? 0 then Some (S_of_Z 0)
                else map_read m
                       (to_int (to_uint (if x =? 0 then n - 1 else x - 1))
                        * n + z))
               = Some (height_or_zero t m (x - 1) z)).
  { unfold height_or_zero. fold n.
    destruct (Z.eqb_spec x 0) as [->|Hx0].
    - simpl. reflexivity.
    - rewrite to_uint_small, to_int_small by lia.
      rewrite (map_read_inside _ _ (S_of_Z 0)) by nia.
      destruct (Z.leb_spec 0 (x - 1)); [|lia].
      destruct (Z.ltb_spec (x - 1) n); [|lia].
      destruct (Z.leb_spec 0 z); [|lia].
      destruct (Z.ltb_spec z n); [|lia]. reflexivity. }
  assert (Hr : (if x =? n - 1 then Some (S_of_Z 0)
                else map_read m
                       ((if x =? n - 1 then 0 else x + 1) * n + z))
               = Some (height_or_zero t m (x + 1) z)).
  { unfold height_or_zero. fold n.
    destruct (Z.eqb_spec x (n - 1)) as [->|Hxn].
    - destruct (Z.ltb_spec (n - 1 + 1) n); [lia|].
      rewrite andb_false_r. reflexivity.
    - rewrite (map_read_inside _ _ (S_of_Z 0)) by nia.
      destruct (Z.leb_spec 0 (x + 1)); [|lia].
      destruct (Z.ltb_spec (x + 1) n); [|lia].
      destruct (Z.leb_spec 0 z); [|lia].
      destruct (Z.ltb_spec z n); [|lia]. reflexivity. }
  assert (Hd : (if z =? 0 then Some (S_of_Z 0)
                else map_read m
                       (x * n
                        + to_int
                            (to_uint (if z =? 0 then n - 1 else z - 1))))
               = Some (height_or_zero t m x (z - 1))).
  { unfold height_or_zero. fold n.
    destruct (Z.eqb_spec z 0) as [->|Hz0].
    - simpl. rewrite andb_false_r. reflexivity.
    - rewrite to_uint_small, to_int_small by lia.
      rewrite (map_read_inside _ _ (S_of_Z 0)) by nia.
      destruct (Z.leb_spec 0 x); [|lia].
      destruct (Z.ltb_spec x n); [|lia].
      destruct (Z.leb_spec 0 (z - 1)); [|lia].
      destruct (Z.ltb_spec (z - 1) n); [|lia]. reflexivity. }
  assert (Hu : (if z =? n - 1 then Some (S_of_Z 0)
                else map_read m
                       (x * n + (if z =? n - 1 then 0 else z + 1)))
               = Some (height_or_zero t m x (z + 1))).
  { unfold height_or_zero. fold n.
    destruct (Z.eqb_spec z (n - 1)) as [->|Hzn].
    - destruct (Z.ltb_spec (n - 1 + 1) n); [lia|].
      rewrite andb_false_r. reflexivity.
    - rewrite (map_read_inside _ _ (S_of_Z 0)) by nia.
      destruct (Z.leb_spec 0 x); [|lia].
      destruct (Z.ltb_spec x n); [|lia].
      destruct (Z.leb_spec 0 (z + 1)); [|lia].
      destruct (Z.ltb_spec (z + 1) n); [|lia]. reflexivity. }
  rewrite Hl. simpl. rewrite Hr. simpl. rewrite Hd. simpl. rewrite Hu.
  reflexivity.
Qed.

(** X21: [terrain_normal] has no bounds test.  Where [terrain_height]
    answers 0 for a query off the terrain, [terrain_normal] passes the
    grid cell on to [calc_normal]: for a query whose grid row is below 0
    or beyond the last one, a neighbour is read outside the height
    map. *)
Theorem terrain_normal_unguarded (t : terrain F) (m : list F) (x z : F) :
  t_map t = Some m ->
  Z.of_nat (length m) = t_nr_vert t * t_nr_vert t ->
  1 <= t_nr_vert t < 2 ^ 15 ->
  - 2 ^ 15 <= (terrain_grid t x z).1 < 2 ^ 15 ->
  (terrain_grid t x z).1 < 0 \/ t_nr_vert t <= (terrain_grid t x z).1 ->
  0 <= (terrain_grid t x z).2 < t_nr_vert t ->
  terrain_normal vec3_norm t x z = None.
Proof.
  intros Hmap Hlen Hn Hgx Hout Hgz. unfold terrain_normal.
  destruct (terrain_grid t x z) as [gx gz]. simpl in Hgx, Hout, Hgz.
  unfold calc_normal. rewrite Hmap. simpl.
  set (n := t_nr_vert t) in *.
  destruct (Z.eqb_spec gx 0) as [->|Hx0]; [lia|].
  destruct Hout as [Hneg|Hpast].
  - assert (Hleft : to_int (to_uint (gx - 1)) = gx - 1).
    { unfold to_int, to_uint. rewrite Zplus_mod_idemp_l.
      rewrite Z.mod_small by lia. lia. }
    rewrite Hleft.
    rewrite (map_read_past m ((gx - 1) * n + gz)); [reflexivity|].
    unfold to_uint.
    replace ((gx - 1) * n + gz)
      with (((gx - 1) * n + gz + 2 ^ 32) + (-1) * 2 ^ 32) by lia.
    rewrite Z.mod_add by lia. rewrite Z.mod_small by nia. nia.
  - rewrite (to_uint_small gx), (to_uint_small (n - 1)) by lia.
    destruct (Z.eqb_spec gx (n - 1)) as [E|_]; [lia|].
    rewrite (map_read_past m ((gx + 1) * n + gz)).
    + destruct (map_read m (to_int (to_uint (gx - 1)) * n + gz));
        reflexivity.
    + rewrite to_uint_small by nia. nia.
Qed.
End normal_facts.

Lemma calc_normal_in_grid_witness :
  calc_normal (fun v => v) (terrain_2x2 3 1 4 1) 0 1
  = Some (Some (-1)%Q, Some 2%Q, Some 3%Q).
Proof.
  etransitivity.
  - apply (calc_normal_in_grid (fun v => v) (terrain_2x2 3 1 4 1)
             [Some 3%Q; Some 1%Q; Some 4%Q; Some 1%Q] 0 1);
      [reflexivity|reflexivity|simpl; lia|simpl; lia|simpl; lia].
  - reflexivity.
Defined.

Lemma terrain_normal_unguarded_witness :
  terrain_normal (fun v => v) (terrain_2x2 3 1 4 1) (Some (5 # 2))
    (Some (1 # 2)) = None.
Proof.
  apply (terrain_normal_unguarded (fun v => v) (terrain_2x2 3 1 4 1)
           [Some 3%Q; Some 1%Q; Some 4%Q; Some 1%Q]);
    [reflexivity|reflexivity|simpl; lia
    |vm_compute; split; [discriminate|reflexivity]
    |right; vm_compute; discriminate
    |vm_compute; split; [discriminate|reflexivity]].
Defined.

(** ** Mesh indices *)

Lemma length_bind_const {A B : Type} (g : A -> list B) (c : nat)
    (l : list A) :
  (forall x, length (g x) = c) -> length (l ≫= g) = (length l * c)%nat.
Proof.
  intros Hg. induction l as [|x l IH]; [reflexivity|].
  rewrite bind_cons, length_app, IH, Hg. simpl. lia.
Qed.

Lemma length_scan_cells (n : Z) :
  length (scan_cells n) = (Z.to_nat n * Z.to_nat n)%nat.
Proof.
  unfold scan_cells.
  rewrite (length_bind_const _ (Z.to_nat n)).
  - rewrite length_seqZ. reflexivity.
  - intros i. rewrite length_fmap, length_seqZ. reflexivity.
Qed.

Lemma bind_ext_in {A B : Type} (g h : A -> list B) (l : list A) :
  (forall x, x ∈ l -> g x = h x) -> l ≫= g = l ≫= h.
Proof.
  induction l as [|x l IH]; intros Hgh; [reflexivity|].
  rewrite !bind_cons, (Hgh x (list_elem_of_here _ _)), IH; [reflexivity|].
  intros y Hy. apply Hgh, list_elem_of_further, Hy.
Qed.

Lemma fmap_of_bind {A B C : Type} (f : B -> C) (g : A -> list B)
    (l : list A) :
  f <$> (l ≫= g) = l ≫= (fun x => f <$> g x).
Proof.
  induction l as [|x l IH]; [reflexivity|].
  rewrite !bind_cons, fmap_app, IH. reflexivity.
Qed.

Lemma idx_push_app (done rest : list Z) (x v : Z) :
  idx_push (done ++ x :: rest, Z.of_nat (length done)) v
  = ((done ++ [to_ushort v]) ++ rest,
     Z.of_nat (length (done ++ [to_ushort v]))).
Proof.
  unfold idx_push, arr_store. cbn [fst snd].
  destruct (Z.ltb_spec (Z.of_nat (length done)) 0); [lia|].
  rewrite Nat2Z.id, insert_app_r_alt, Nat.sub_diag by lia.
  rewrite length_app, <- app_assoc. simpl. f_equal. lia.
Qed.

(** The six stores of one cell fill the next six elements. *)
Lemma idx_push_cell (done todo vs : list Z) :
  length vs = 6%nat -> (6 <= length todo)%nat ->
  foldl idx_push (done ++ todo, Z.of_nat (length done)) vs
  = ((done ++ (to_ushort <$> vs)) ++ drop 6 todo,
     Z.of_nat (length (done ++ (to_ushort <$> vs)))).
Proof.
  intros Hvs Htodo.
  destruct vs as [|v0 [|v1 [|v2 [|v3 [|v4 [|v5 [|]]]]]]];
    try discriminate.
  destruct todo as [|x0 [|x1 [|x2 [|x3 [|x4 [|x5 rest]]]]]];
    try (simpl in Htodo; lia).
  cbn [foldl drop fmap list_fmap].
  rewrite !idx_push_app. rewrite <- !app_assoc. reflexivity.
Qed.

Lemma idx_fill (n : Z) (l : list (Z * Z)) :
  forall done todo : list Z,
    length todo = (6 * length l)%nat ->
    foldl (fun st c => foldl idx_push st (cell_triangles n c))
      (done ++ todo, Z.of_nat (length done)) l
    = (done ++ (to_ushort <$> (l ≫= cell_triangles n)),
       Z.of_nat (length done) + 6 * Z.of_nat (length l)).
Proof.
  induction l as [|c l IH]; intros done todo Hlen.
  - destruct todo; [|discriminate]. simpl. f_equal. lia.
  - cbn [foldl].
    rewrite (idx_push_cell done todo (cell_triangles n c))
      by (try reflexivity; simpl in Hlen; lia).
    rewrite IH by (rewrite length_drop; simpl in Hlen; lia).
    rewrite bind_cons, fmap_app, <- app_assoc.
    f_equal. rewrite length_app, length_fmap. simpl. lia.
Qed.

(** X22: the index buffer of the mesh.  For a grid of at least one
    vertex a side and a buffer of [6 * (nr_v - 1) * (nr_v - 1)] elements,
    the index loop fills the buffer from the first element to the last
    and stops there: cell by cell in the order of the two loops, two
    triangles of three vertex numbers each, converted to
    [unsigned short].  Up to 256 vertices a side the conversion changes
    nothing, and every index is the number of a vertex of the grid. *)
Theorem landscape_indices_buffer (nr_v : Z) (idx : list Z) :
  1 <= nr_v ->
  Z.of_nat (length idx) = 6 * (nr_v - 1) * (nr_v - 1) ->
  landscape_indices nr_v idx
  = (to_ushort <$> (scan_cells (nr_v - 1) ≫= cell_triangles nr_v),
     6 * (nr_v - 1) * (nr_v - 1))
  /\ (nr_v <= 256 ->
      (landscape_indices nr_v idx).1
      = scan_cells (nr_v - 1) ≫=
          (fun c => [c.1 * nr_v + c.2; (c.1 + 1) * nr_v + c.2;
                     c.1 * nr_v + c.2 + 1; c.1 * nr_v + c.2 + 1;
                     (c.1 + 1) * nr_v + c.2; (c.1 + 1) * nr_v + c.2 + 1])
      /\ Forall (fun v => 0 <= v < nr_v * nr_v)
           (landscape_indices nr_v idx).1).
Proof.
  intros Hn Hlen.
  assert (Hrun : landscape_indices nr_v idx
                 = (to_ushort <$> (scan_cells (nr_v - 1)
                                     ≫= cell_triangles nr_v),
                    6 * (nr_v - 1) * (nr_v - 1))).
  { unfold landscape_indices.
    rewrite (for_range_scan (nr_v - 1)
               (fun i j st => foldl idx_push st (cell_triangles nr_v (i, j)))).
    rewrite (foldl_pointwise _
               (fun st c => foldl idx_push st (cell_triangles nr_v c)))
      by (intros st [i j]; reflexivity).
    pose proof (idx_fill nr_v (scan_cells (nr_v - 1)) [] idx) as Hfill.
    cbn [app length] in Hfill. change (Z.of_nat 0) with 0 in Hfill.
    rewrite Hfill.
    - f_equal. rewrite length_scan_cells. nia.
    - rewrite length_scan_cells. nia. }
  split; [exact Hrun|].
  intros Hsmall. rewrite Hrun. cbn [fst].
  assert (Hcell : forall c, c ∈ scan_cells (nr_v - 1) ->
            to_ushort <$> cell_triangles nr_v c
            = [c.1 * nr_v + c.2; (c.1 + 1) * nr_v + c.2;
               c.1 * nr_v + c.2 + 1; c.1 * nr_v + c.2 + 1;
               (c.1 + 1) * nr_v + c.2; (c.1 + 1) * nr_v + c.2 + 1]).
  { intros [i j] Hc. apply elem_of_scan_cells in Hc as [Hi Hj].
    unfold cell_triangles. cbn [fst snd fmap list_fmap].
    rewrite !to_uint_small by nia. rewrite !to_int_small by nia.
    unfold to_ushort. rewrite !Z.mod_small by nia. reflexivity. }
  rewrite fmap_of_bind.
  rewrite (bind_ext_in _ _ _ Hcell). split; [reflexivity|].
  apply Forall_forall. intros v Hv.
  apply list_elem_of_bind in Hv as ([i j] & Hv & Hc).
  apply elem_of_scan_cells in Hc as [Hi Hj]. cbn [fst snd] in Hv.
  repeat (apply elem_of_cons in Hv as [->|Hv]; [nia|]).
  apply elem_of_nil in Hv. destruct Hv.
Qed.

Lemma landscape_indices_buffer_witness :
  landscape_indices 3 (replicate 24 7)
  = ([0; 3; 1; 1; 3; 4; 1; 4; 2; 2; 4; 5;
      3; 6; 4; 4; 6; 7; 4; 7; 5; 5; 7; 8], 24).
Proof.
  etransitivity.
  - apply (landscape_indices_buffer 3 (replicate 24 7));
      [lia|reflexivity].
  - reflexivity.
Defined.
